(** * The dependency-ordered task pipeline of aidevelopertool

    A shallow embedding of [src/aidevelopertool/pipeline/manager.py]
    ([TaskStatus], [Task], [Pipeline], [PipelineManager]) and the proofs of
    the properties its specification states about it.

    Python objects are mutated in place; here every method takes the object
    and returns its new value.  A task object is identified with the slot of
    the task mapping that holds it.  A work function is a Python callable
    [func(context)]: it may change the context mapping it is given and then
    either returns a value or raises. *)

From stdpp Require Import base relations strings list gmap.

#[local] Set Warnings "-clear-no-such-hyp".

(** ** The Python runtime the module relies on *)

(** Values a work function may return or store in the context. *)
Inductive Value :=
| VNone
| VBool (b : bool)
| VInt (z : Z)
| VStr (s : string).

#[global] Instance Value_eq_dec : EqDecision Value.
Proof. solve_decision. Defined.

(** A context is a Python [dict] with string keys. *)
Abbreviation Ctx := (gmap string Value).

(** A raised object.  The handlers of the module are all [except Exception]:
    what they need of the object is whether it is an instance of [Exception]
    (as [ValueError] is, and [SystemExit] or [KeyboardInterrupt] are not) and
    its [str(e)]. *)
Record PyExc := {
  exc_is_Exception : bool;
  exc_str : string
}.

(** How a call ends. *)
Inductive Completion (A : Type) :=
| Return (a : A)
| Raise (e : PyExc).
Arguments Return {A} a.
Arguments Raise {A} e.

(** The part of the world outside the objects: the wall clock, given as the
    text of its successive readings by [datetime.now().isoformat()], the
    number of readings made so far, and the log of the work functions that
    were invoked (by task name, oldest first). *)
Record Env := {
  isoformat : nat → string;
  ticks : nat;
  calls : list string
}.

Definition datetime_now (env : Env) : string * Env :=
  (isoformat env (ticks env),
   {| isoformat := isoformat env; ticks := S (ticks env); calls := calls env |}).

Definition log_call (who : string) (env : Env) : Env :=
  {| isoformat := isoformat env; ticks := ticks env; calls := calls env ++ [who] |}.

(** [x or {}] for an optional mapping: [None] and the empty mapping are
    both falsy. *)
Definition or_empty (x : option Ctx) : Ctx :=
  match x with
  | Some c => if decide (c = ∅) then ∅ else c
  | None => ∅
  end.

(** *** Insertion-ordered dictionaries

    [Pipeline.tasks] is a [dict]: iteration follows insertion order, which
    decides the order of the tasks inside a round.  The dictionary is a list
    of entries; its keys are pairwise distinct ([dict_wf]). *)
Section dict.
Context {V : Type}.

Fixpoint dict_get (k : string) (d : list (string * V)) : option V :=
  match d with
  | [] => None
  | (k', v) :: d' => if decide (k' = k) then Some v else dict_get k d'
  end.

(** [d[k] = v]: an existing key keeps its position. *)
Fixpoint dict_set (k : string) (v : V) (d : list (string * V)) : list (string * V) :=
  match d with
  | [] => [(k, v)]
  | (k', v') :: d' =>
      if decide (k' = k) then (k, v) :: d' else (k', v') :: dict_set k v d'
  end.

(** [del d[k]] *)
Definition dict_del (k : string) (d : list (string * V)) : list (string * V) :=
  filter (λ kv, kv.1 ≠ k) d.

Definition dict_keys (d : list (string * V)) : list string := d.*1.
Definition dict_values (d : list (string * V)) : list V := d.*2.

(** [k in d] *)
Definition dict_in (k : string) (d : list (string * V)) : bool :=
  bool_decide (k ∈ dict_keys d).

Definition dict_wf (d : list (string * V)) : Prop := NoDup (dict_keys d).
End dict.

(** A loop body that may [return True] from inside a [for]: the first
    element on which [f] answers [true] ends the loop. [None] is passed on
    (it is the out-of-fuel answer of the depth-first search below). *)
Fixpoint for_any {A : Type} (f : A → option bool) (l : list A) : option bool :=
  match l with
  | [] => Some false
  | x :: l' =>
      match f x with
      | Some true => Some true
      | Some false => for_any f l'
      | None => None
      end
  end.

(** ** TaskStatus *)
Inductive TaskStatus := PENDING | RUNNING | COMPLETED | FAILED | SKIPPED.

#[global] Instance TaskStatus_eq_dec : EqDecision TaskStatus.
Proof. solve_decision. Defined.

(** [status.value] *)
Definition TaskStatus_value (s : TaskStatus) : string :=
  match s with
  | PENDING => "pending"
  | RUNNING => "running"
  | COMPLETED => "completed"
  | FAILED => "failed"
  | SKIPPED => "skipped"
  end.

(** [for status in TaskStatus]: the members in definition order. *)
Definition TaskStatus_members : list TaskStatus :=
  [PENDING; RUNNING; COMPLETED; FAILED; SKIPPED].

(** ** Task *)
Module Task.

Record Task := {
  name : string;
  func : Ctx → Ctx * Completion Value;
  description : string;
  dependencies : list string;
  metadata : gmap string Value;
  status : TaskStatus;
  result : Value;
  error : option string;
  started_at : option string;
  completed_at : option string
}.

(** [Task.__init__] *)
Definition init (name : string) (func : Ctx → Ctx * Completion Value)
    (description : string) (dependencies : option (list string))
    (metadata : option (gmap string Value)) : Task :=
  {| name := name;
     func := func;
     description := description;
     dependencies := default [] dependencies;
     metadata := default ∅ metadata;
     status := PENDING;
     result := VNone;
     error := None;
     started_at := None;
     completed_at := None |}.

(** Attribute assignments. *)
Definition set_status (s : TaskStatus) (t : Task) : Task :=
  {| name := name t; func := func t; description := description t;
     dependencies := dependencies t; metadata := metadata t;
     status := s; result := result t; error := error t;
     started_at := started_at t; completed_at := completed_at t |}.

Definition set_result (v : Value) (t : Task) : Task :=
  {| name := name t; func := func t; description := description t;
     dependencies := dependencies t; metadata := metadata t;
     status := status t; result := v; error := error t;
     started_at := started_at t; completed_at := completed_at t |}.

Definition set_error (e : option string) (t : Task) : Task :=
  {| name := name t; func := func t; description := description t;
     dependencies := dependencies t; metadata := metadata t;
     status := status t; result := result t; error := e;
     started_at := started_at t; completed_at := completed_at t |}.

Definition set_started_at (ts : option string) (t : Task) : Task :=
  {| name := name t; func := func t; description := description t;
     dependencies := dependencies t; metadata := metadata t;
     status := status t; result := result t; error := error t;
     started_at := ts; completed_at := completed_at t |}.

Definition set_completed_at (ts : option string) (t : Task) : Task :=
  {| name := name t; func := func t; description := description t;
     dependencies := dependencies t; metadata := metadata t;
     status := status t; result := result t; error := error t;
     started_at := started_at t; completed_at := ts |}.

(** [all(dep in completed_tasks for dep in self.dependencies)] *)
Definition can_run (self : Task) (completed_tasks : list string) : bool :=
  forallb (λ dep, bool_decide (dep ∈ completed_tasks)) (dependencies self).

(** [Task.execute].  The [finally] clause runs on the three ways out of
    the [try]: the [return], the [raise] of the handler, and a raise that
    the handler does not match. *)
Definition execute (self : Task) (context : Ctx) (env : Env)
    : Task * Ctx * Env * Completion Value :=
  let self := set_status RUNNING self in
  let '(now, env) := datetime_now env in
  let self := set_started_at (Some now) self in
  let env := log_call (name self) env in
  let '(context, outcome) := func self context in
  match outcome with
  | Return v =>
      let self := set_result v self in
      let self := set_status COMPLETED self in
      let '(now, env) := datetime_now env in
      (set_completed_at (Some now) self, context, env, Return v)
  | Raise e =>
      if exc_is_Exception e then
        let self := set_status FAILED self in
        let self := set_error (Some (exc_str e)) self in
        let '(now, env) := datetime_now env in
        (set_completed_at (Some now) self, context, env, Raise e)
      else
        let '(now, env) := datetime_now env in
        (set_completed_at (Some now) self, context, env, Raise e)
  end.

End Task.

(** The dictionary [Task.to_dict] returns. *)
Module TaskDict.

Record TaskDict := {
  name : string;
  description : string;
  dependencies : list string;
  status : string;
  result : Value;
  error : option string;
  started_at : option string;
  completed_at : option string;
  metadata : gmap string Value
}.

End TaskDict.

(** [Task.to_dict] *)
Definition Task_to_dict (self : Task.Task) : TaskDict.TaskDict :=
  {| TaskDict.name := Task.name self;
     TaskDict.description := Task.description self;
     TaskDict.dependencies := Task.dependencies self;
     TaskDict.status := TaskStatus_value (Task.status self);
     TaskDict.result := Task.result self;
     TaskDict.error := Task.error self;
     TaskDict.started_at := Task.started_at self;
     TaskDict.completed_at := Task.completed_at self;
     TaskDict.metadata := Task.metadata self |}.

(** A dictionary comprehension [{key(x): value(x) for x in xs}]: the
    entries are stored one after the other, a key met again keeps its
    position and takes the later value. *)
Definition dict_comprehension {A V : Type} (key : A → string) (value : A → V)
    (xs : list A) : list (string * V) :=
  foldl (λ d x, dict_set (key x) (value x) d) [] xs.

(** ** The dictionary [execute] and [execute_pipeline] return

    One field per key the module ever puts in it; an absent key is [None]. *)
Module Result.

Record Result := {
  success : bool;
  errors : option (list string);
  completed_tasks : option (list string);
  failed_tasks : option (list string);
  execution_order : option (list string);
  context : option Ctx;
  error : option string
}.

End Result.

(** ** Pipeline *)
Module Pipeline.

Record Pipeline := {
  name : string;
  description : string;
  tasks : list (string * Task.Task);
  execution_order : list string;
  context : Ctx
}.

(** [Pipeline.__init__] *)
Definition init (name description : string) : Pipeline :=
  {| name := name; description := description;
     tasks := []; execution_order := []; context := ∅ |}.

Definition set_tasks (ts : list (string * Task.Task)) (p : Pipeline) : Pipeline :=
  {| name := name p; description := description p;
     tasks := ts; execution_order := execution_order p; context := context p |}.

Definition set_execution_order (o : list string) (p : Pipeline) : Pipeline :=
  {| name := name p; description := description p;
     tasks := tasks p; execution_order := o; context := context p |}.

Definition set_context (c : Ctx) (p : Pipeline) : Pipeline :=
  {| name := name p; description := description p;
     tasks := tasks p; execution_order := execution_order p; context := c |}.

(** [self.tasks[task.name] = task] *)
Definition add_task (task : Task.Task) (self : Pipeline) : Pipeline :=
  set_tasks (dict_set (Task.name task) task (tasks self)) self.

Definition remove_task (name : string) (self : Pipeline) : Pipeline :=
  if dict_in name (tasks self) then set_tasks (dict_del name (tasks self)) self
  else self.

(** [_has_circular_dependency] with its recursion depth bounded by
    [fuel]; [None] is the answer of a search that ran out of it.  Every
    recursive call receives its own copy of [visited], so [visited] holds
    the names on the path from the starting task to [task_name]. *)
Fixpoint has_circular_dependency_fuel (fuel : nat)
    (tasks : list (string * Task.Task)) (task_name : string)
    (visited : gset string) : option bool :=
  match fuel with
  | 0 => None
  | S fuel =>
      if decide (task_name ∈ visited) then Some true
      else
        let visited := {[task_name]} ∪ visited in
        match dict_get task_name tasks with
        | None => Some false
        | Some task =>
            for_any
              (λ dep, has_circular_dependency_fuel fuel tasks dep visited)
              (Task.dependencies task)
        end
  end.

(** [self._has_circular_dependency(task_name)], [visited] left to its
    default.  The path of a search never repeats a name and holds task
    names only, but for its last element: one more level than there are
    tasks is all the depth a search can use
    ([has_circular_dependency_fuel_enough] below), and the first branch of
    the [match] is never taken. *)
Definition _has_circular_dependency (self : Pipeline) (task_name : string) : bool :=
  match has_circular_dependency_fuel (S (length (tasks self))) (tasks self) task_name ∅ with
  | None => false
  | Some b => b
  end.

Definition circular_message (task_name : string) : string :=
  "Circular dependency detected for task: " +:+ task_name.

Definition missing_message (task_name dep : string) : string :=
  "Task '" +:+ task_name +:+ "' depends on missing task '" +:+ dep +:+ "'".

(** The two loops of [validate], each appending to [errors] in
    iteration order. *)
Definition circular_errors (self : Pipeline) : list string :=
  kt ← tasks self;
  if _has_circular_dependency self kt.1 then [circular_message kt.1] else [].

Definition missing_errors (self : Pipeline) : list string :=
  kt ← tasks self;
  dep ← Task.dependencies kt.2;
  if dict_in dep (tasks self) then [] else [missing_message kt.1 dep].

Definition validate (self : Pipeline) : list string :=
  circular_errors self ++ missing_errors self.

(** The state of a run: the pipeline, the world, and the two local
    lists of [execute]. *)
Record Run := {
  pipeline : Pipeline;
  env : Env;
  completed : list string;
  failed : list string
}.

(** The body of [for task in runnable_tasks], for the task object in slot
    [kt.1]: [kt.2] is the object as it was when the round was computed,
    which is as it is now, since a task of a round changes no task but
    itself.  [None]: the loop goes on; [Some e]: [e] is not an [Exception],
    no handler matches, and it leaves [execute]. *)
Definition run_task (kt : string * Task.Task) (st : Run) : Run * option PyExc :=
  let '(task, context, env, outcome) :=
    Task.execute kt.2 (context (pipeline st)) (env st) in
  let p := set_context context (set_tasks (dict_set kt.1 task (tasks (pipeline st))) (pipeline st)) in
  match outcome with
  | Return _ =>
      ({| pipeline := set_execution_order (execution_order p ++ [Task.name task]) p;
          env := env;
          completed := completed st ++ [Task.name task];
          failed := failed st |}, None)
  | Raise e =>
      if exc_is_Exception e then
        ({| pipeline := p; env := env;
            completed := completed st;
            failed := failed st ++ [Task.name task] |}, None)
      else
        ({| pipeline := p; env := env;
            completed := completed st; failed := failed st |}, Some e)
  end.

Fixpoint run_tasks (runnable_tasks : list (string * Task.Task)) (st : Run)
    : Run * option PyExc :=
  match runnable_tasks with
  | [] => (st, None)
  | kt :: rest =>
      match run_task kt st with
      | (st, None) => run_tasks rest st
      | (st, Some e) => (st, Some e)
      end
  end.

Definition runnable (completed_tasks : list string) (kt : string * Task.Task) : Prop :=
  Task.status kt.2 = PENDING ∧ Task.can_run kt.2 completed_tasks = true.

#[global] Instance runnable_dec completed_tasks kt : Decision (runnable completed_tasks kt).
Proof. unfold runnable. apply _. Defined.

(** [for task in pending_tasks: task.status = TaskStatus.SKIPPED] *)
Definition skip_pending (ts : list (string * Task.Task)) : list (string * Task.Task) :=
  (λ kt : string * Task.Task,
     if decide (Task.status kt.2 = PENDING)
     then (kt.1, Task.set_status SKIPPED kt.2) else kt) <$> ts.

(** The [while] loop of [execute]; [fuel] bounds the number of times its
    condition is evaluated, [None] is a loop that used it up. *)
Fixpoint schedule (fuel : nat) (st : Run) : option (Run * option PyExc) :=
  match fuel with
  | 0 => None
  | S fuel =>
      if decide (length (completed st) + length (failed st)
                 < length (tasks (pipeline st)))
      then
        match filter (runnable (completed st)) (tasks (pipeline st)) with
        | [] =>
            Some ({| pipeline := set_tasks (skip_pending (tasks (pipeline st))) (pipeline st);
                     env := env st;
                     completed := completed st;
                     failed := failed st |}, None)
        | runnable_tasks =>
            match run_tasks runnable_tasks st with
            | (st, None) => schedule fuel st
            | (st, Some e) => Some (st, Some e)
            end
        end
      else Some (st, None)
  end.

(** The dictionary of the early [return]. *)
Definition validation_failure (errs : list string) : Result.Result :=
  {| Result.success := false;
     Result.errors := Some errs;
     Result.completed_tasks := Some [];
     Result.failed_tasks := Some [];
     Result.execution_order := None;
     Result.context := None;
     Result.error := None |}.

(** The dictionary of the final [return]. *)
Definition run_result (st : Run) : Result.Result :=
  {| Result.success := bool_decide (length (failed st) = 0);
     Result.errors := None;
     Result.completed_tasks := Some (completed st);
     Result.failed_tasks := Some (failed st);
     Result.execution_order := Some (execution_order (pipeline st));
     Result.context := Some (context (pipeline st));
     Result.error := None |}.

(** [Pipeline.execute].  The loop body runs at most once per task, so
    one evaluation of the condition more than there are tasks is all a run
    can use ([schedule_returns] below): [None] never is the answer. *)
Definition execute (self : Pipeline) (initial_context : option Ctx) (env : Env)
    : option (Pipeline * Env * Completion Result.Result) :=
  let self := set_context (or_empty initial_context) self in
  let errors := validate self in
  if decide (errors ≠ []) then
    Some (self, env, Return (validation_failure errors))
  else
    match schedule (S (length (tasks self)))
            {| pipeline := self; env := env; completed := []; failed := [] |} with
    | None => None
    | Some (st, Some e) => Some (pipeline st, Pipeline.env st, Raise e)
    | Some (st, None) => Some (pipeline st, Pipeline.env st, Return (run_result st))
    end.

(** The dictionary [Pipeline.get_status] returns. *)
Record Status := {
  status_name : string;
  status_description : string;
  total_tasks : nat;
  status_counts : list (string * nat);
  status_execution_order : list string;
  status_tasks : list (string * TaskDict.TaskDict)
}.

(** [status_counts[status] += 1] on the dictionary keyed by the members
    of [TaskStatus]; every member is a key of it, the lookup never fails. *)
Definition count_status (s : TaskStatus) (counts : list (TaskStatus * nat))
    : list (TaskStatus * nat) :=
  (λ kv : TaskStatus * nat, if decide (kv.1 = s) then (kv.1, S kv.2) else kv) <$> counts.

(** The first half of [get_status]: the counts, keyed by status. *)
Definition count_statuses (ts : list (string * Task.Task)) : list (TaskStatus * nat) :=
  foldl (λ counts kt, count_status (Task.status kt.2) counts)
    ((λ s, (s, 0)) <$> TaskStatus_members) ts.

Definition get_status (self : Pipeline) : Status :=
  let status_counts := count_statuses (tasks self) in
  {| status_name := name self;
     status_description := description self;
     total_tasks := length (tasks self);
     status_counts :=
       dict_comprehension (λ kv, TaskStatus_value kv.1) snd status_counts;
     status_execution_order := execution_order self;
     status_tasks :=
       dict_comprehension fst (λ kt, Task_to_dict kt.2) (tasks self) |}.

End Pipeline.

(** ** PipelineManager *)
Module PipelineManager.

(** A [Component] with the registry of pipelines. *)
Record PipelineManager := {
  name : string;
  config : gmap string Value;
  _initialized : bool;
  _enabled : bool;
  pipelines : list (string * Pipeline.Pipeline)
}.

Definition init (name : option string) (config : option (gmap string Value))
    : PipelineManager :=
  {| name := default "pipeline" name;
     config := default ∅ config;
     _initialized := false;
     _enabled := true;
     pipelines := [] |}.

Definition set_pipelines (ps : list (string * Pipeline.Pipeline))
    (m : PipelineManager) : PipelineManager :=
  {| name := name m; config := config m; _initialized := _initialized m;
     _enabled := _enabled m; pipelines := ps |}.

Definition create_pipeline (name description : string) (self : PipelineManager)
    : PipelineManager * Pipeline.Pipeline :=
  let pipeline := Pipeline.init name description in
  (set_pipelines (dict_set name pipeline (pipelines self)) self, pipeline).

Definition get_pipeline (self : PipelineManager) (name : string)
    : option Pipeline.Pipeline :=
  dict_get name (pipelines self).

Definition delete_pipeline (name : string) (self : PipelineManager)
    : PipelineManager * bool :=
  if dict_in name (pipelines self)
  then (set_pipelines (dict_del name (pipelines self)) self, true)
  else (self, false).

Definition not_found (name : string) : Result.Result :=
  {| Result.success := false;
     Result.errors := None;
     Result.completed_tasks := None;
     Result.failed_tasks := None;
     Result.execution_order := None;
     Result.context := None;
     Result.error := Some ("Pipeline not found: " +:+ name) |}.

(** [execute_pipeline]: the pipeline object found is run in place, in its
    slot of the registry. *)
Definition execute_pipeline (self : PipelineManager) (name : string)
    (context : option Ctx) (env : Env)
    : option (PipelineManager * Env * Completion Result.Result) :=
  match get_pipeline self name with
  | None => Some (self, env, Return (not_found name))
  | Some pipeline =>
      match Pipeline.execute pipeline context env with
      | None => None
      | Some (pipeline, env, outcome) =>
          Some (set_pipelines (dict_set name pipeline (pipelines self)) self,
                env, outcome)
      end
  end.

Definition list_pipelines (self : PipelineManager) : list string :=
  dict_keys (pipelines self).

(** [Component.enable], [disable], [is_enabled], [is_initialized] *)
Definition enable (self : PipelineManager) : PipelineManager :=
  {| name := name self; config := config self; _initialized := _initialized self;
     _enabled := true; pipelines := pipelines self |}.

Definition disable (self : PipelineManager) : PipelineManager :=
  {| name := name self; config := config self; _initialized := _initialized self;
     _enabled := false; pipelines := pipelines self |}.

Definition is_enabled (self : PipelineManager) : bool := _enabled self.

Definition is_initialized (self : PipelineManager) : bool := _initialized self.

(** [initialize]: the manager afterwards, and the value returned. *)
Definition initialize (self : PipelineManager) : PipelineManager * bool :=
  ({| name := name self; config := config self; _initialized := true;
      _enabled := _enabled self; pipelines := pipelines self |}, true).

(** [PipelineManager.validate]: the loop returns [False] at the first
    pipeline with errors. *)
Fixpoint validate_pipelines (ps : list (string * Pipeline.Pipeline)) : bool :=
  match ps with
  | [] => true
  | (_, pipeline) :: ps' =>
      if decide (Pipeline.validate pipeline ≠ []) then false
      else validate_pipelines ps'
  end.

Definition validate (self : PipelineManager) : bool :=
  validate_pipelines (pipelines self).

(** The dictionary [PipelineManager.get_status] returns. *)
Record Status := {
  enabled : bool;
  initialized : bool;
  pipelines_count : nat;
  status_pipelines : list (string * Pipeline.Status)
}.

Definition get_status (self : PipelineManager) : Status :=
  {| enabled := is_enabled self;
     initialized := is_initialized self;
     pipelines_count := length (pipelines self);
     status_pipelines :=
       dict_comprehension fst (λ np, Pipeline.get_status np.2) (pipelines self) |}.

End PipelineManager.

(** ** The notions the statements are written in *)

(** An entry of the task mapping that holds a task under its own name. *)
Definition named (kt : string * Task.Task) : Prop := Task.name kt.2 = kt.1.

(** The pipelines [Pipeline.__init__], [add_task], [remove_task] and
    [execute] build ([wf_init], [wf_add_task], [wf_remove_task] and
    [wf_execute] below): the keys of the task mapping are pairwise distinct
    (it is a [dict]) and every task is stored under its own name
    ([add_task] does [self.tasks[task.name] = task]). *)
Definition wf (self : Pipeline.Pipeline) : Prop :=
  dict_wf (Pipeline.tasks self) ∧ Forall named (Pipeline.tasks self).

#[global] Instance wf_dec self : Decision (wf self).
Proof. unfold wf, dict_wf, named. apply _. Defined.

(** No work function of [ts] ever raises past the handlers of the module. *)
Definition only_Exceptions (ts : list (string * Task.Task)) : Prop :=
  ∀ k t context context' e,
    (k, t) ∈ ts →
    Task.func t context = (context', Raise e) →
    exc_is_Exception e = true.

(** A work function that raises, or returns, whatever the context. *)
Definition always_raises (f : Ctx → Ctx * Completion Value) : Prop :=
  ∀ context, ∃ context' e, f context = (context', Raise e).

Definition always_returns (f : Ctx → Ctx * Completion Value) : Prop :=
  ∀ context, ∃ context' v, f context = (context', Return v).

(** [run_calls st st']: from [st] to the later state [st'] of the run, the
    two local lists were appended to, and if no task failed in between, the
    work functions invoked are those of the tasks that completed, in that
    order. *)
Definition run_calls (st st' : Pipeline.Run) : Prop :=
  ∃ l lf,
    Pipeline.completed st' = Pipeline.completed st ++ l ∧
    Pipeline.failed st' = Pipeline.failed st ++ lf ∧
    (lf = [] → calls (Pipeline.env st') = calls (Pipeline.env st) ++ l).

(** [depends_on ts a b]: the task of name [a] lists [b] as a dependency. *)
Definition depends_on (ts : list (string * Task.Task)) (a b : string) : Prop :=
  ∃ t, dict_get a ts = Some t ∧ b ∈ Task.dependencies t.

(** Every listed dependency names a task of the mapping. *)
Definition no_missing_dependency (ts : list (string * Task.Task)) : Prop :=
  ∀ a b, depends_on ts a b → b ∈ dict_keys ts.

(** The dependency graph has a cycle: a name from which following
    dependencies, at least once, leads back to it. *)
Definition has_cycle (ts : list (string * Task.Task)) : Prop :=
  ∃ a, tc (depends_on ts) a a.

(** [msg] mentions [s]: [s] occurs in it. *)
Definition mentions (s msg : string) : Prop :=
  ∃ before after, msg = before +:+ s +:+ after.

(** The status of the task of name [k], if there is one. *)
Definition status_of (ts : list (string * Task.Task)) (k : string) : option TaskStatus :=
  Task.status <$> dict_get k ts.

(** What [Task.execute] never changes of a task. *)
Definition same_task (t t' : Task.Task) : Prop :=
  Task.name t' = Task.name t ∧
  Task.dependencies t' = Task.dependencies t ∧
  Task.func t' = Task.func t.

(** The three ways the body of the [for] loop ends: the task completed, it
    failed and the failure was caught, or it raised past the handler. *)
Inductive run_task_ends (k : string) (t : Task.Task) (st : Pipeline.Run)
  : Pipeline.Run * option PyExc → Prop :=
| ends_completed t' context' env' :
    (∃ v, Task.func t (Pipeline.context (Pipeline.pipeline st)) = (context', Return v)) →
    calls env' = calls (Pipeline.env st) ++ [Task.name t] →
    same_task t t' →
    Task.status t' = COMPLETED →
    run_task_ends k t st
      ({| Pipeline.pipeline :=
            Pipeline.set_execution_order
              (Pipeline.execution_order (Pipeline.pipeline st) ++ [Task.name t])
              (Pipeline.set_context context'
                 (Pipeline.set_tasks
                    (dict_set k t' (Pipeline.tasks (Pipeline.pipeline st)))
                    (Pipeline.pipeline st)));
          Pipeline.env := env';
          Pipeline.completed := Pipeline.completed st ++ [Task.name t];
          Pipeline.failed := Pipeline.failed st |}, None)
| ends_failed t' context' env' :
    (∃ e, Task.func t (Pipeline.context (Pipeline.pipeline st)) = (context', Raise e) ∧
          exc_is_Exception e = true) →
    calls env' = calls (Pipeline.env st) ++ [Task.name t] →
    same_task t t' →
    Task.status t' = FAILED →
    run_task_ends k t st
      ({| Pipeline.pipeline :=
            Pipeline.set_context context'
              (Pipeline.set_tasks
                 (dict_set k t' (Pipeline.tasks (Pipeline.pipeline st)))
                 (Pipeline.pipeline st));
          Pipeline.env := env';
          Pipeline.completed := Pipeline.completed st;
          Pipeline.failed := Pipeline.failed st ++ [Task.name t] |}, None)
| ends_raised t' context' env' e :
    Task.func t (Pipeline.context (Pipeline.pipeline st)) = (context', Raise e) →
    same_task t t' →
    Task.status t' = RUNNING →
    exc_is_Exception e = false →
    run_task_ends k t st
      ({| Pipeline.pipeline :=
            Pipeline.set_context context'
              (Pipeline.set_tasks
                 (dict_set k t' (Pipeline.tasks (Pipeline.pipeline st)))
                 (Pipeline.pipeline st));
          Pipeline.env := env';
          Pipeline.completed := Pipeline.completed st;
          Pipeline.failed := Pipeline.failed st |}, Some e).

(** [run_extends st st']: [st'] is a later state of the run [st] is a
    state of.  The task mapping has kept its keys, and the names completed
    in between were appended to the local list and to [execution_order]
    alike. *)
Definition run_extends (st st' : Pipeline.Run) : Prop :=
  dict_keys (Pipeline.tasks (Pipeline.pipeline st')) =
    dict_keys (Pipeline.tasks (Pipeline.pipeline st)) ∧
  ∃ l, Pipeline.completed st' = Pipeline.completed st ++ l ∧
       Pipeline.execution_order (Pipeline.pipeline st') =
         Pipeline.execution_order (Pipeline.pipeline st) ++ l.

(** The number of tasks a run has executed and recorded. *)
Definition recorded (st : Pipeline.Run) : nat :=
  length (Pipeline.completed st) + length (Pipeline.failed st).

(** The state a run leaves through the [break] of the scheduling loop. *)
Definition swept (st : Pipeline.Run) : Pipeline.Run :=
  {| Pipeline.pipeline :=
       Pipeline.set_tasks
         (Pipeline.skip_pending (Pipeline.tasks (Pipeline.pipeline st)))
         (Pipeline.pipeline st);
     Pipeline.env := Pipeline.env st;
     Pipeline.completed := Pipeline.completed st;
     Pipeline.failed := Pipeline.failed st |}.

(** The state a run starts in. *)
Definition start (self : Pipeline.Pipeline) (env : Env) : Pipeline.Run :=
  {| Pipeline.pipeline := self; Pipeline.env := env;
     Pipeline.completed := []; Pipeline.failed := [] |}.

(** What holds of the state [st] of a run of the pipeline [self], between
    two tasks: the mapping has the keys it had; a task the run has not
    executed is untouched; a task it has executed was PENDING, is recorded
    once, in the list that matches its status, and had all its dependencies
    in the completed list by then. *)
Record run_inv (self : Pipeline.Pipeline) (st : Pipeline.Run) : Prop := {
  inv_keys :
    dict_keys (Pipeline.tasks (Pipeline.pipeline st)) = dict_keys (Pipeline.tasks self);
  inv_tasks : ∀ k t0,
    dict_get k (Pipeline.tasks self) = Some t0 →
    ∃ t, dict_get k (Pipeline.tasks (Pipeline.pipeline st)) = Some t ∧
         same_task t0 t ∧
         (k ∈ Pipeline.completed st → Task.status t = COMPLETED) ∧
         (k ∈ Pipeline.failed st → Task.status t = FAILED) ∧
         (k ∉ Pipeline.completed st → k ∉ Pipeline.failed st → t = t0);
  inv_once : NoDup (Pipeline.completed st ++ Pipeline.failed st);
  inv_ran : ∀ k,
    k ∈ Pipeline.completed st ++ Pipeline.failed st →
    ∃ t0, dict_get k (Pipeline.tasks self) = Some t0 ∧
          Task.status t0 = PENDING ∧
          ∀ dep, dep ∈ Task.dependencies t0 → dep ∈ Pipeline.completed st;
  inv_order : ∀ before k after,
    Pipeline.completed st = before ++ k :: after →
    ∃ t0, dict_get k (Pipeline.tasks self) = Some t0 ∧
          ∀ dep, dep ∈ Task.dependencies t0 → dep ∈ before;
  inv_returned : ∀ k,
    k ∈ Pipeline.completed st →
    ∃ t0 context context' v,
      dict_get k (Pipeline.tasks self) = Some t0 ∧
      Task.func t0 context = (context', Return v);
  inv_raised : ∀ k,
    k ∈ Pipeline.failed st →
    ∃ t0 context context' e,
      dict_get k (Pipeline.tasks self) = Some t0 ∧
      Task.func t0 context = (context', Raise e) ∧
      exc_is_Exception e = true
}.

(** What a run of [self] that returns leaves behind: the pipeline [self']
    and the two lists of the dictionary it returns. *)
Record run_post (self self' : Pipeline.Pipeline) (completed failed : list string)
  : Prop := {
  post_execution_order :
    Pipeline.execution_order self' = Pipeline.execution_order self ++ completed;
  post_keys : dict_keys (Pipeline.tasks self') = dict_keys (Pipeline.tasks self);
  post_once : NoDup (completed ++ failed);
  post_ran : ∀ k,
    k ∈ completed ++ failed →
    ∃ t0, dict_get k (Pipeline.tasks self) = Some t0 ∧
          Task.status t0 = PENDING ∧
          ∀ dep, dep ∈ Task.dependencies t0 → dep ∈ completed;
  post_order : ∀ before k after,
    completed = before ++ k :: after →
    ∃ t0, dict_get k (Pipeline.tasks self) = Some t0 ∧
          ∀ dep, dep ∈ Task.dependencies t0 → dep ∈ before;
  post_returned : ∀ k,
    k ∈ completed →
    ∃ t0 context context' v,
      dict_get k (Pipeline.tasks self) = Some t0 ∧
      Task.func t0 context = (context', Return v);
  post_raised : ∀ k,
    k ∈ failed →
    ∃ t0 context context' e,
      dict_get k (Pipeline.tasks self) = Some t0 ∧
      Task.func t0 context = (context', Raise e) ∧
      exc_is_Exception e = true;
  post_tasks : ∀ k t0,
    dict_get k (Pipeline.tasks self) = Some t0 →
    ∃ t, dict_get k (Pipeline.tasks self') = Some t ∧
         same_task t0 t ∧
         (k ∈ completed → Task.status t = COMPLETED) ∧
         (k ∈ failed → Task.status t = FAILED) ∧
         (k ∉ completed → k ∉ failed →
          Task.status t =
            if decide (Task.status t0 = PENDING) then SKIPPED else Task.status t0);
  post_live : ∀ k t0,
    dict_get k (Pipeline.tasks self) = Some t0 →
    Task.status t0 = PENDING →
    (∀ dep, dep ∈ Task.dependencies t0 → dep ∈ completed) →
    k ∈ completed ++ failed
}.

(** The mapping [ts] holds, under the name [k], a task that has not run
    yet, with the dependency list [deps] and the work function [f]. *)
Definition pending_task (ts : list (string * Task.Task)) (k : string)
    (deps : list string) (f : Ctx → Ctx * Completion Value) : Prop :=
  ∃ t, dict_get k ts = Some t ∧
       Task.status t = PENDING ∧
       Task.dependencies t = deps ∧
       Task.func t = f.

(** The dependency graph of a task mapping: each key with the dependency
    list of its task.  It is all [validate] reads of the mapping. *)
Definition dependency_graph (ts : list (string * Task.Task))
    : list (string * list string) :=
  (λ kt : string * Task.Task, (kt.1, Task.dependencies kt.2)) <$> ts.

(** [reaches_cycle ts k]: following dependencies from [k], zero times or
    more, leads to a name that is on a cycle. *)
Definition reaches_cycle (ts : list (string * Task.Task)) (k : string) : Prop :=
  ∃ c, rtc (depends_on ts) k c ∧ tc (depends_on ts) c c.

(** [run_function ts context k]: the context the work function of the
    task of name [k] leaves, called on [context]. *)
Definition run_function (ts : list (string * Task.Task)) (context : Ctx) (k : string)
    : Ctx :=
  match dict_get k ts with
  | Some t => (Task.func t context).1
  | None => context
  end.

(** [run_trace self env0 st order]: the state [st] of a run of [self]
    that started in the world [env0] has invoked the work functions of
    [order], in that order and no other, each on the context the one before
    left; [order] holds the names recorded in the two lists; the clock was
    read twice for each. *)
Definition run_trace (self : Pipeline.Pipeline) (env0 : Env) (st : Pipeline.Run)
    (order : list string) : Prop :=
  calls (Pipeline.env st) = calls env0 ++ order ∧
  order ≡ₚ Pipeline.completed st ++ Pipeline.failed st ∧
  ticks (Pipeline.env st) = ticks env0 + 2 * length order ∧
  isoformat (Pipeline.env st) = isoformat env0 ∧
  Pipeline.context (Pipeline.pipeline st) =
    foldl (run_function (Pipeline.tasks self)) (Pipeline.context self) order.

(** The number of tasks of [ts] that have the status [s]. *)
Definition count_of (s : TaskStatus) (ts : list (string * Task.Task)) : nat :=
  length (filter (λ kt : string * Task.Task, Task.status kt.2 = s) ts).

(** ** Concrete tasks and pipelines

    The inputs at which the statements below are evaluated. *)
Module Examples.

(** A work function that stores its value under [key] and returns it. *)
Definition returns (key : string) (v : Value) : Ctx → Ctx * Completion Value :=
  λ context, (<[key := v]> context, Return v).

(** [raise ValueError(msg)] *)
Definition raises_ValueError (msg : string) : Ctx → Ctx * Completion Value :=
  λ context, (context, Raise {| exc_is_Exception := true; exc_str := msg |}).

(** [sys.exit(msg)], that is [raise SystemExit(msg)] *)
Definition raises_SystemExit (msg : string) : Ctx → Ctx * Completion Value :=
  λ context, (context, Raise {| exc_is_Exception := false; exc_str := msg |}).

Definition env0 : Env :=
  {| isoformat := λ n, String.concat "" (replicate n "+") +:+ "T";
     ticks := 0; calls := [] |}.

Definition task (name : string) (func : Ctx → Ctx * Completion Value)
    (dependencies : list string) : Task.Task :=
  Task.init name func "" (Some dependencies) None.

Definition pipeline_of (ts : list Task.Task) : Pipeline.Pipeline :=
  foldl (λ p t, Pipeline.add_task t p) (Pipeline.init "p" "") ts.

(** A (fails) <- B, and the independent C. *)
Definition isolation : Pipeline.Pipeline :=
  pipeline_of [task "A" (raises_ValueError "boom") [];
               task "B" (returns "b" (VInt 2)) ["A"];
               task "C" (returns "c" (VInt 3)) []].

(** The same, with a work function that leaves through [sys.exit]. *)
Definition exiting : Pipeline.Pipeline :=
  pipeline_of [task "A" (raises_SystemExit "bye") [];
               task "B" (returns "b" (VInt 2)) ["A"];
               task "C" (returns "c" (VInt 3)) []].

(** A <- B <- C, added in the reverse order. *)
Definition chain : Pipeline.Pipeline :=
  pipeline_of [task "C" (returns "c" (VInt 3)) ["B"];
               task "B" (returns "b" (VInt 2)) ["A"];
               task "A" (returns "a" (VInt 1)) []].

(** A task that names a task the pipeline does not hold. *)
Definition dangling : Pipeline.Pipeline :=
  pipeline_of [task "A" (returns "a" (VInt 1)) [];
               task "B" (returns "b" (VInt 2)) ["A"; "nope"]].

(** A -> B -> A *)
Definition cyclic : Pipeline.Pipeline :=
  pipeline_of [task "A" (returns "a" (VInt 1)) ["B"];
               task "B" (returns "b" (VInt 2)) ["A"]].

Definition manager : PipelineManager.PipelineManager :=
  (PipelineManager.create_pipeline "build" ""
     (PipelineManager.init None None)).1.

(** The pipeline a call of [execute] leaves. *)
Definition after_execute (p : Pipeline.Pipeline) : Pipeline.Pipeline :=
  match Pipeline.execute p None env0 with
  | Some (p', _, _) => p'
  | None => p
  end.

Definition env_after_execute (p : Pipeline.Pipeline) : Env :=
  match Pipeline.execute p None env0 with
  | Some (_, env', _) => env'
  | None => env0
  end.

(** The dictionary it returns. *)
Definition result_of_execute (p : Pipeline.Pipeline) : Result.Result :=
  match Pipeline.execute p None env0 with
  | Some (_, _, Return r) => r
  | _ => Pipeline.validation_failure []
  end.

(** A <- B runs to completion; then a new task A, whose work function
    raises, replaces the first one. *)
Definition replaced : Pipeline.Pipeline :=
  Pipeline.add_task (task "A" (raises_ValueError "boom") [])
    (after_execute
       (pipeline_of [task "A" (returns "a" (VInt 1)) [];
                     task "B" (returns "b" (VInt 2)) ["A"]])).

(** A <- B runs to completion; then C, which depends on A, is added. *)
Definition extended : Pipeline.Pipeline :=
  Pipeline.add_task (task "C" (returns "c" (VInt 3)) ["A"])
    (after_execute
       (pipeline_of [task "A" (returns "a" (VInt 1)) [];
                     task "B" (returns "b" (VInt 2)) ["A"]])).

End Examples.

(** A manager with the pipelines [Examples.isolation] and [Examples.chain]
    registered, and the manager a call of [execute_pipeline] for the first
    leaves. *)
Definition registry_example : PipelineManager.PipelineManager :=
  PipelineManager.set_pipelines
    [("iso", Examples.isolation); ("chain", Examples.chain)]
    (PipelineManager.init None None).

Definition registry_after_execute : PipelineManager.PipelineManager :=
  PipelineManager.set_pipelines
    [("iso", Examples.after_execute Examples.isolation); ("chain", Examples.chain)]
    (PipelineManager.init None None).

(** * Properties *)

(** ** Dictionaries *)
Section dict_facts.
Context {V : Type}.
Implicit Types (d : list (string * V)) (k : string) (v : V).

Lemma dict_get_Some_elem d k v : dict_get k d = Some v → (k, v) ∈ d.
Proof.
  induction d as [|[k' v'] d IH]; simpl; [done|].
  case_decide; intros; simplify_eq; [left | right; auto].
Qed.

Lemma dict_get_None d k : dict_get k d = None ↔ k ∉ dict_keys d.
Proof.
  unfold dict_keys. induction d as [|[k' v'] d IH]; simpl.
  - split; [intros _; apply not_elem_of_nil | done].
  - rewrite not_elem_of_cons. case_decide; subst; [naive_solver|].
    rewrite IH. naive_solver.
Qed.

Lemma dict_get_is_Some d k : is_Some (dict_get k d) ↔ k ∈ dict_keys d.
Proof.
  rewrite <- not_eq_None_Some, dict_get_None.
  split; [apply dec_stable | auto].
Qed.

Lemma dict_get_elem_wf d k v : dict_wf d → (k, v) ∈ d → dict_get k d = Some v.
Proof.
  unfold dict_wf, dict_keys. induction d as [|[k' v'] d IH]; simpl.
  - intros _ H. by apply elem_of_nil in H.
  - rewrite NoDup_cons. intros [Hk Hd] [H|H]%elem_of_cons.
    + simplify_eq. by rewrite decide_True.
    + rewrite decide_False; [auto|].
      intros ->. apply Hk. apply list_elem_of_fmap. by exists (k, v).
Qed.

Lemma dict_get_set_eq d k v : dict_get k (dict_set k v d) = Some v.
Proof.
  induction d as [|[k' v'] d IH]; simpl.
  - by rewrite decide_True.
  - case_decide; simpl; [by rewrite decide_True | by rewrite decide_False].
Qed.

Lemma dict_get_set_ne d k k' v : k ≠ k' → dict_get k' (dict_set k v d) = dict_get k' d.
Proof.
  intros Hne. induction d as [|[k0 v0] d IH]; simpl.
  - by rewrite decide_False.
  - destruct (decide (k0 = k)) as [->|]; simpl.
    + by rewrite !decide_False.
    + by rewrite IH.
Qed.

Lemma dict_keys_set_elem d k v : k ∈ dict_keys d → dict_keys (dict_set k v d) = dict_keys d.
Proof.
  unfold dict_keys. induction d as [|[k0 v0] d IH]; simpl.
  - intros H. by apply elem_of_nil in H.
  - intros H. destruct (decide (k0 = k)) as [->|Hne]; simpl; [done|].
    f_equal. apply IH. apply elem_of_cons in H as [?|?]; [congruence | done].
Qed.

Lemma dict_keys_set_new d k v : k ∉ dict_keys d → dict_keys (dict_set k v d) = dict_keys d ++ [k].
Proof.
  unfold dict_keys. induction d as [|[k0 v0] d IH]; simpl; [done|].
  rewrite not_elem_of_cons. intros [Hne H].
  rewrite decide_False by done. simpl. f_equal. auto.
Qed.

Lemma dict_set_length d k v : k ∈ dict_keys d → length (dict_set k v d) = length d.
Proof.
  intros H. rewrite <- (length_fmap fst (dict_set k v d)), <- (length_fmap fst d).
  f_equal. by apply dict_keys_set_elem.
Qed.

Lemma dict_elem_key d k v : (k, v) ∈ d → k ∈ dict_keys d.
Proof. intros H. apply list_elem_of_fmap. by exists (k, v). Qed.

Lemma dict_in_true d k : dict_in k d = true ↔ k ∈ dict_keys d.
Proof. unfold dict_in. apply bool_decide_eq_true. Qed.

Lemma dict_in_false d k : dict_in k d = false ↔ k ∉ dict_keys d.
Proof. unfold dict_in. apply bool_decide_eq_false. Qed.
End dict_facts.

(** ** Task.execute *)

(** C5, as the code has it.  [Task.execute] records the completion timestamp
    (the second reading of the clock) on every way out.  When the work
    function returns [v], the task stores [v] as its result, becomes
    COMPLETED and [execute] returns [v].  When it raises [e], [execute]
    raises [e] again; if [e] is an instance of [Exception] the task becomes
    FAILED and its error field holds [str(e)]; if it is not, no handler
    matches: the task stays RUNNING and its error field is left as it was. *)
Theorem Task_execute_outcome (self : Task.Task) (context : Ctx) (env : Env) :
  let '(self', _, _, outcome) := Task.execute self context env in
  Task.completed_at self' = Some (isoformat env (S (ticks env))) ∧
  match (Task.func self context).2 with
  | Return v =>
      Task.result self' = v ∧ Task.status self' = COMPLETED ∧ outcome = Return v
  | Raise e =>
      outcome = Raise e ∧
      if exc_is_Exception e
      then Task.status self' = FAILED ∧ Task.error self' = Some (exc_str e)
      else Task.status self' = RUNNING ∧ Task.error self' = Task.error self
  end.
Proof.
  unfold Task.execute. simpl.
  destruct (Task.func self context) as [context' [v|e]]; simpl; [done|].
  destruct (exc_is_Exception e); done.
Qed.

(** C5 fails as stated: the work function of this task raises, and
    [Task.execute] leaves the task RUNNING with no error recorded. *)
Lemma Task_execute_SystemExit_not_failed :
  let self := Examples.task "A" (Examples.raises_SystemExit "bye") [] in
  let '(self', _, _, outcome) := Task.execute self ∅ Examples.env0 in
  (∃ e, (Task.func self ∅).2 = Raise e ∧ outcome = Raise e) ∧
  Task.status self' = RUNNING ∧ Task.status self' ≠ FAILED ∧
  Task.error self' = None.
Proof. simpl. split; [eauto | done]. Qed.

(** ** Pipeline.validate *)

Lemma for_any_Some_true {A} (f : A → option bool) l :
  for_any f l = Some true → ∃ x, x ∈ l ∧ f x = Some true.
Proof.
  induction l as [|x l IH]; simpl; [done|].
  destruct (f x) as [[]|] eqn:Hx; [|intros H; apply IH in H as (y & ? & ?)|done].
  - exists x. split; [left | done].
  - exists y. split; [by right | done].
Qed.

Lemma for_any_Some_false {A} (f : A → option bool) l :
  for_any f l = Some false ↔ ∀ x, x ∈ l → f x = Some false.
Proof.
  induction l as [|x l IH]; simpl.
  - split; [intros _ x Hx; by apply elem_of_nil in Hx | done].
  - destruct (f x) as [[]|] eqn:Hx.
    + split; [done|]. intros H. specialize (H x). rewrite Hx in H.
      apply H. left.
    + rewrite IH. split.
      * intros H y [->|Hy]%elem_of_cons; auto.
      * intros H y Hy. apply H. by right.
    + split; [done|]. intros H. specialize (H x). rewrite Hx in H.
      apply H. left.
Qed.

Lemma for_any_is_Some {A} (f : A → option bool) l :
  (∀ x, x ∈ l → is_Some (f x)) → is_Some (for_any f l).
Proof.
  induction l as [|x l IH]; simpl; [eauto|].
  intros H. destruct (H x) as [[] Hx]; [left| |]; rewrite Hx; [eauto|].
  apply IH. intros y Hy. apply H. by right.
Qed.

Section search.
Variable ts : list (string * Task.Task).
Abbreviation search := (λ fuel, Pipeline.has_circular_dependency_fuel fuel ts).

(** A search that answers [true] has closed a cycle, when [visited] is
    made of names that lead to the name it is at. *)
Lemma search_true_cycle fuel k (visited : gset string) :
  search fuel k visited = Some true →
  (∀ v, v ∈ visited → tc (depends_on ts) v k) →
  has_cycle ts.
Proof.
  revert k visited. induction fuel as [|fuel IH]; intros k visited; simpl; [done|].
  case_decide as Hk.
  { intros _ Hpath. exists k. by apply Hpath. }
  destruct (dict_get k ts) as [t|] eqn:Ht; [|done].
  intros (dep & Hdep & Hsearch)%for_any_Some_true Hpath.
  apply IH in Hsearch; [done|].
  assert (depends_on ts k dep) by (by exists t).
  intros v [->%elem_of_singleton|Hv]%elem_of_union.
  - by apply tc_once.
  - eapply tc_r; eauto.
Qed.

Lemma search_false_fresh fuel k (visited : gset string) :
  search fuel k visited = Some false → k ∉ visited.
Proof. destruct fuel; simpl; [done|]. by case_decide. Qed.

Lemma search_false_step fuel k dep (visited : gset string) :
  search fuel k visited = Some false →
  depends_on ts k dep →
  search (pred fuel) dep ({[k]} ∪ visited) = Some false.
Proof.
  destruct fuel as [|fuel]; simpl; [done|].
  case_decide; [done|]. intros Hs (t & Ht & Hdep). rewrite Ht in Hs.
  by eapply for_any_Some_false in Hs.
Qed.

(** A search that answers [false] has answered [false] at every name it
    can reach, with a larger [visited]. *)
Lemma search_false_reach k m :
  rtc (depends_on ts) k m →
  ∀ fuel (visited : gset string),
    search fuel k visited = Some false →
    ∃ fuel' (visited' : gset string),
      visited ⊆ visited' ∧ search fuel' m visited' = Some false.
Proof.
  induction 1 as [k|k d m Hkd _ IH]; intros fuel visited Hs.
  - by exists fuel, visited.
  - eapply search_false_step in Hs; [|done].
    apply IH in Hs as (fuel' & visited' & Hsub & Hs).
    exists fuel', visited'. split; [set_solver | done].
Qed.

Lemma search_false_no_cycle_through fuel k :
  search fuel k ∅ = Some false → ¬ tc (depends_on ts) k k.
Proof.
  intros Hs Hcycle.
  assert (∃ d, depends_on ts k d ∧ rtc (depends_on ts) d k) as (d & Hkd & Hdk).
  { inversion Hcycle as [|? d ? ? Htc]; subst; [by exists k|].
    exists d. split; [done | by apply tc_rtc]. }
  eapply search_false_step in Hs; [|done].
  eapply search_false_reach in Hs as (fuel' & visited' & Hsub & Hs); [|done].
  apply search_false_fresh in Hs. set_solver.
Qed.

(** The depth a search can use: one level per task name not yet on its
    path, and one more. *)
Lemma search_fuel_enough fuel k (visited : gset string) :
  size (list_to_set (C := gset string) (dict_keys ts) ∖ visited) < fuel →
  is_Some (search fuel k visited).
Proof.
  revert k visited. induction fuel as [|fuel IH]; intros k visited Hsize; simpl; [lia|].
  case_decide as Hk; [eauto|].
  destruct (dict_get k ts) as [t|] eqn:Ht; [|eauto].
  apply for_any_is_Some. intros dep _. apply IH.
  assert (k ∈ dict_keys ts) by (apply dict_get_is_Some; eauto).
  assert (list_to_set (C := gset string) (dict_keys ts) ∖ ({[k]} ∪ visited)
          ⊂ list_to_set (dict_keys ts) ∖ visited) as Hlt%subset_size; [|lia].
  apply strict_spec_alt. split; [set_solver|].
  intros Heq. assert (k ∈ list_to_set (C := gset string) (dict_keys ts) ∖ visited) as Hin
    by (apply elem_of_difference; split; [by apply elem_of_list_to_set | done]).
  rewrite <- Heq in Hin. set_solver.
Qed.

Lemma size_list_to_set_le (l : list string) :
  size (list_to_set (C := gset string) l) ≤ length l.
Proof.
  induction l as [|x l IH]; [by rewrite list_to_set_nil, size_empty|].
  rewrite list_to_set_cons, size_union_alt, size_singleton. simpl.
  assert (size (list_to_set (C := gset string) l ∖ {[x]}) ≤ size (list_to_set (C := gset string) l))
    by (apply subseteq_size; set_solver).
  lia.
Qed.

Lemma has_circular_dependency_fuel_enough k :
  is_Some (search (S (length ts)) k ∅).
Proof.
  apply search_fuel_enough.
  rewrite difference_empty_L.
  pose proof (size_list_to_set_le (dict_keys ts)) as Hle.
  unfold dict_keys in *. rewrite length_fmap in Hle. lia.
Qed.
End search.

(** [_has_circular_dependency] answers [true] exactly on the pipelines
    whose graph has a cycle, for one of the names on the cycle at least. *)
Lemma has_circular_dependency_cycle (self : Pipeline.Pipeline) k :
  Pipeline._has_circular_dependency self k = true → has_cycle (Pipeline.tasks self).
Proof.
  unfold Pipeline._has_circular_dependency.
  destruct (Pipeline.has_circular_dependency_fuel _ _ _ _) as [[]|] eqn:Hs; [|done..].
  intros _. eapply search_true_cycle; [done|]. set_solver.
Qed.

Lemma has_circular_dependency_on_cycle (self : Pipeline.Pipeline) k :
  tc (depends_on (Pipeline.tasks self)) k k →
  Pipeline._has_circular_dependency self k = true.
Proof.
  intros Hcycle. unfold Pipeline._has_circular_dependency.
  destruct (has_circular_dependency_fuel_enough (Pipeline.tasks self) k) as [b Hs].
  rewrite Hs. destruct b; [done|].
  by apply search_false_no_cycle_through in Hs.
Qed.

Lemma string_append_assoc (s1 s2 s3 : string) :
  (s1 +:+ s2) +:+ s3 = s1 +:+ s2 +:+ s3.
Proof.
  induction s1 as [|c s1 IH]; [done|].
  change (String c ((s1 +:+ s2) +:+ s3) = String c (s1 +:+ s2 +:+ s3)).
  by f_equal.
Qed.

Lemma bind_eq_nil {A B} (f : A → list B) (l : list A) :
  l ≫= f = [] ↔ ∀ x, x ∈ l → f x = [].
Proof.
  induction l as [|x l IH]; simpl.
  - split; [intros _ x Hx; by apply elem_of_nil in Hx | done].
  - rewrite app_nil, IH. split.
    + intros [Hx Hl] y [->|Hy]%elem_of_cons; auto.
    + intros H. split; [apply H; left | intros y Hy; apply H; by right].
Qed.

Lemma circular_errors_nil (self : Pipeline.Pipeline) :
  Pipeline.circular_errors self = [] ↔
  ∀ k, k ∈ dict_keys (Pipeline.tasks self) → Pipeline._has_circular_dependency self k = false.
Proof.
  unfold Pipeline.circular_errors. rewrite bind_eq_nil. split.
  - intros H k ([k' t] & -> & Hkt)%list_elem_of_fmap.
    specialize (H _ Hkt). simpl in *.
    by destruct (Pipeline._has_circular_dependency self k').
  - intros H [k t] Hkt. simpl. rewrite H; [done|]. by eapply dict_elem_key.
Qed.

Lemma missing_errors_nil (self : Pipeline.Pipeline) :
  Pipeline.missing_errors self = [] ↔
  ∀ k t dep, (k, t) ∈ Pipeline.tasks self → dep ∈ Task.dependencies t →
             dep ∈ dict_keys (Pipeline.tasks self).
Proof.
  unfold Pipeline.missing_errors. rewrite bind_eq_nil. split.
  - intros H k t dep Hkt Hdep. specialize (H _ Hkt). simpl in H.
    rewrite bind_eq_nil in H. specialize (H _ Hdep).
    apply dict_in_true. by destruct (dict_in dep (Pipeline.tasks self)).
  - intros H [k t] Hkt. simpl. apply bind_eq_nil. intros dep Hdep.
    by erewrite (proj2 (dict_in_true _ _)) by eauto.
Qed.

Lemma missing_errors_elem (self : Pipeline.Pipeline) k t dep :
  (k, t) ∈ Pipeline.tasks self → dep ∈ Task.dependencies t →
  dep ∉ dict_keys (Pipeline.tasks self) →
  Pipeline.missing_message k dep ∈ Pipeline.missing_errors self.
Proof.
  intros Hkt Hdep Hmiss. unfold Pipeline.missing_errors.
  apply list_elem_of_bind. exists (k, t). split; [|done]. simpl.
  apply list_elem_of_bind. exists dep. split; [|done].
  rewrite (proj2 (dict_in_false _ _)) by done. left.
Qed.

Lemma validate_nil_iff (self : Pipeline.Pipeline) :
  dict_wf (Pipeline.tasks self) →
  Pipeline.validate self = [] ↔
  no_missing_dependency (Pipeline.tasks self) ∧ ¬ has_cycle (Pipeline.tasks self).
Proof.
  intros Hwf. unfold Pipeline.validate.
  rewrite app_nil, circular_errors_nil, missing_errors_nil. split.
  - intros [Hcirc Hmiss]. split.
    + intros a b (t & Ht & Hb). eapply Hmiss; [|done]. by apply dict_get_Some_elem.
    + intros [a Ha].
      assert (a ∈ dict_keys (Pipeline.tasks self)) as Hkey.
      { apply dict_get_is_Some.
        inversion Ha as [? ? (t & Ht & _)|? ? ? (t & Ht & _)]; eauto. }
      apply Hcirc in Hkey.
      by rewrite has_circular_dependency_on_cycle in Hkey.
  - intros [Hmiss Hcycle]. split.
    + intros k _.
      destruct (Pipeline._has_circular_dependency self k) eqn:Hk; [|done].
      by apply has_circular_dependency_cycle in Hk.
    + intros k t dep Hkt Hdep. apply (Hmiss k). exists t.
      split; [by apply dict_get_elem_wf | done].
Qed.

(** C2.  On a pipeline, [validate] returns the empty list exactly when every
    listed dependency names a task of the mapping and the dependency graph
    has no cycle; and a task that lists a name the mapping does not hold
    gets a message that mentions the task's name and the missing name. *)
Theorem validate_empty_iff_dag (self : Pipeline.Pipeline) :
  wf self →
  (Pipeline.validate self = [] ↔
   no_missing_dependency (Pipeline.tasks self) ∧ ¬ has_cycle (Pipeline.tasks self)) ∧
  (∀ k t dep,
     (k, t) ∈ Pipeline.tasks self →
     dep ∈ Task.dependencies t →
     dep ∉ dict_keys (Pipeline.tasks self) →
     ∃ msg, msg ∈ Pipeline.validate self ∧
            mentions (Task.name t) msg ∧ mentions dep msg).
Proof.
  intros [Hwf Hname]. split; [by apply validate_nil_iff|].
  intros k t dep Hkt Hdep Hmiss.
  exists (Pipeline.missing_message k dep). split; [|split].
  - unfold Pipeline.validate. apply elem_of_app. right.
    by eapply missing_errors_elem.
  - pose proof (proj1 (Forall_forall _ _) Hname (k, t) Hkt) as Hk.
    unfold named in Hk. simpl in Hk.
    rewrite Hk. by eexists "Task '", _.
  - exists ("Task '" +:+ k +:+ "' depends on missing task '"), "'".
    unfold Pipeline.missing_message. by rewrite !string_append_assoc.
Qed.

(** ** One task of a round *)

Lemma Task_execute_cases (t : Task.Task) (context : Ctx) (env : Env) :
  ∃ t' context' env' outcome,
    Task.execute t context env = (t', context', env', outcome) ∧
    Task.func t context = (context', outcome) ∧
    Task.name t' = Task.name t ∧
    Task.dependencies t' = Task.dependencies t ∧
    Task.func t' = Task.func t ∧
    calls env' = calls env ++ [Task.name t] ∧
    match outcome with
    | Return _ => Task.status t' = COMPLETED
    | Raise e =>
        if exc_is_Exception e then Task.status t' = FAILED
        else Task.status t' = RUNNING
    end.
Proof.
  unfold Task.execute. simpl.
  destruct (Task.func t context) as [context' [v|e]]; simpl.
  - by eexists _, _, _, _.
  - destruct (exc_is_Exception e) eqn:He; eexists _, _, _, _;
      (split; [done|]); simpl; by rewrite ?He.
Qed.

Lemma run_task_cases k t st : run_task_ends k t st (Pipeline.run_task (k, t) st).
Proof.
  unfold Pipeline.run_task. simpl.
  destruct (Task_execute_cases t (Pipeline.context (Pipeline.pipeline st)) (Pipeline.env st))
    as (t' & context' & env' & outcome & -> & Hout & Hname & Hdeps & Hfunc & Hcalls & Hstatus).
  destruct outcome as [v|e]; [|destruct (exc_is_Exception e) eqn:He];
    rewrite ?Hname.
  - apply ends_completed; by eauto.
  - apply ends_failed; by eauto.
  - by apply ends_raised.
Qed.

(** ** The scheduling loop: what holds of every run *)

Lemma skip_pending_keys ts : dict_keys (Pipeline.skip_pending ts) = dict_keys ts.
Proof.
  unfold dict_keys, Pipeline.skip_pending. rewrite <- list_fmap_compose.
  apply list_fmap_ext. intros _ [k t] _. simpl. by case_decide.
Qed.

Lemma skip_pending_get ts k :
  dict_get k (Pipeline.skip_pending ts) =
  (λ t, if decide (Task.status t = PENDING) then Task.set_status SKIPPED t else t)
    <$> dict_get k ts.
Proof.
  induction ts as [|[k' t] ts IH]; simpl; [done|].
  destruct (decide (Task.status t = PENDING)) as [Hp|Hp]; simpl;
    destruct (decide (k' = k)); simpl; [|done| |done].
  - by rewrite decide_True.
  - by rewrite decide_False.
Qed.

Lemma run_extends_refl st : run_extends st st.
Proof. split; [done|]. exists []. by rewrite !app_nil_r. Qed.

Lemma run_extends_trans st1 st2 st3 :
  run_extends st1 st2 → run_extends st2 st3 → run_extends st1 st3.
Proof.
  intros [Hk1 (l1 & Hc1 & Ho1)] [Hk2 (l2 & Hc2 & Ho2)]. split; [congruence|].
  exists (l1 ++ l2). rewrite Hc2, Ho2, Hc1, Ho1. by rewrite !(assoc_L (++)).
Qed.

Lemma run_extends_swept st : run_extends st (swept st).
Proof.
  split; [apply skip_pending_keys|]. exists []. by rewrite !app_nil_r.
Qed.

Lemma run_task_extends k t st :
  k ∈ dict_keys (Pipeline.tasks (Pipeline.pipeline st)) →
  run_extends st (Pipeline.run_task (k, t) st).1.
Proof.
  intros Hk. destruct (run_task_cases k t st); simpl;
    (split; [by apply dict_keys_set_elem|]);
    [by eexists | exists []; by rewrite !app_nil_r..].
Qed.

Lemma run_task_recorded k t st st' :
  Pipeline.run_task (k, t) st = (st', None) → recorded st' = S (recorded st).
Proof.
  destruct (run_task_cases k t st); intros; simplify_eq; unfold recorded; simpl;
    rewrite length_app; simpl; lia.
Qed.

Lemma run_task_raised k t st st' e :
  Pipeline.run_task (k, t) st = (st', Some e) → exc_is_Exception e = false.
Proof. destruct (run_task_cases k t st); intros; by simplify_eq. Qed.

Lemma run_tasks_extends rs st :
  (∀ kt, kt ∈ rs → kt.1 ∈ dict_keys (Pipeline.tasks (Pipeline.pipeline st))) →
  run_extends st (Pipeline.run_tasks rs st).1.
Proof.
  revert st. induction rs as [|[k t] rs IH]; intros st Hkeys; simpl.
  { apply run_extends_refl. }
  pose proof (run_task_extends k t st) as Hext.
  destruct (Pipeline.run_task (k, t) st) as [st1 [e|]] eqn:Hrun; simpl in *.
  - apply Hext. apply (Hkeys (k, t)). left.
  - assert (run_extends st st1) as Hext1 by (apply Hext, (Hkeys (k, t)); left).
    eapply run_extends_trans; [done|]. apply IH.
    intros kt Hkt. destruct Hext1 as [-> _]. apply Hkeys. by right.
Qed.

Lemma run_tasks_recorded rs st st' :
  Pipeline.run_tasks rs st = (st', None) → recorded st' = recorded st + length rs.
Proof.
  revert st. induction rs as [|[k t] rs IH]; intros st; simpl.
  { intros; simplify_eq. lia. }
  destruct (Pipeline.run_task (k, t) st) as [st1 [e|]] eqn:Hrun; [done|].
  intros ->%IH. apply run_task_recorded in Hrun. lia.
Qed.

Lemma run_tasks_raised rs st st' e :
  Pipeline.run_tasks rs st = (st', Some e) → exc_is_Exception e = false.
Proof.
  revert st. induction rs as [|[k t] rs IH]; intros st; simpl; [done|].
  destruct (Pipeline.run_task (k, t) st) as [st1 [e1|]] eqn:Hrun.
  - intros; simplify_eq. by eapply run_task_raised.
  - apply IH.
Qed.

Lemma runnable_keys (completed : list string) ts kt :
  kt ∈ filter (Pipeline.runnable completed) ts → kt.1 ∈ dict_keys ts.
Proof.
  intros [_ Hkt]%list_elem_of_filter. destruct kt. by eapply dict_elem_key.
Qed.

(** One evaluation of the loop condition and what follows it. *)
Lemma schedule_S fuel st :
  Pipeline.schedule (S fuel) st =
  if decide (recorded st < length (Pipeline.tasks (Pipeline.pipeline st))) then
    let rs := filter (Pipeline.runnable (Pipeline.completed st))
                (Pipeline.tasks (Pipeline.pipeline st)) in
    if decide (rs = []) then Some (swept st, None)
    else
      match Pipeline.run_tasks rs st with
      | (st', None) => Pipeline.schedule fuel st'
      | (st', Some e) => Some (st', Some e)
      end
  else Some (st, None).
Proof.
  unfold recorded. cbn [Pipeline.schedule]. case_decide; [|done].
  cbv zeta. by destruct (filter _ _).
Qed.

Lemma schedule_extends fuel st st' r :
  Pipeline.schedule fuel st = Some (st', r) → run_extends st st'.
Proof.
  revert st. induction fuel as [|fuel IH]; intros st; [done|].
  rewrite schedule_S. cbv zeta.
  case_decide; [|intros; simplify_eq; apply run_extends_refl].
  case_decide. { intros; simplify_eq. apply run_extends_swept. }
  pose proof (run_tasks_extends _ st (runnable_keys (Pipeline.completed st) _)) as Hext.
  destruct (Pipeline.run_tasks _ st) as [st1 [e|]] eqn:Hrun; simpl in Hext.
  - by intros; simplify_eq.
  - intros Hs%IH. by eapply run_extends_trans.
Qed.

(** The loop condition is evaluated once more than the body runs, and the
    body runs at most once per task not yet recorded. *)
Lemma schedule_fuel_enough fuel st :
  length (Pipeline.tasks (Pipeline.pipeline st)) - recorded st < fuel →
  is_Some (Pipeline.schedule fuel st).
Proof.
  revert st. induction fuel as [|fuel IH]; intros st Hfuel; [lia|].
  rewrite schedule_S. cbv zeta.
  case_decide as Hcond; [|eauto].
  case_decide as Hrs; [eauto|].
  pose proof (run_tasks_extends _ st (runnable_keys (Pipeline.completed st) _)) as [Hkeys _].
  destruct (Pipeline.run_tasks _ st) as [st1 [e|]] eqn:Hrun; [eauto|].
  apply IH. apply run_tasks_recorded in Hrun.
  simpl in Hkeys. unfold dict_keys in Hkeys.
  apply (f_equal length) in Hkeys. rewrite !length_fmap in Hkeys.
  destruct (filter _ _); [done|]. simpl in *. lia.
Qed.

Lemma schedule_returns (self : Pipeline.Pipeline) (env : Env) :
  is_Some (Pipeline.schedule (S (length (Pipeline.tasks self))) (start self env)).
Proof. apply schedule_fuel_enough. unfold recorded. simpl. lia. Qed.

Lemma validate_set_context c self :
  Pipeline.validate (Pipeline.set_context c self) = Pipeline.validate self.
Proof. done. Qed.

(** The two ways out of [execute]. *)
Lemma execute_invalid self initial_context env :
  Pipeline.validate self ≠ [] →
  Pipeline.execute self initial_context env =
  Some (Pipeline.set_context (or_empty initial_context) self, env,
        Return (Pipeline.validation_failure (Pipeline.validate self))).
Proof.
  intros Herr. unfold Pipeline.execute. rewrite validate_set_context.
  by rewrite decide_True.
Qed.

Lemma execute_valid self initial_context env :
  Pipeline.validate self = [] →
  ∃ st r,
    Pipeline.schedule (S (length (Pipeline.tasks self)))
      (start (Pipeline.set_context (or_empty initial_context) self) env) = Some (st, r) ∧
    Pipeline.execute self initial_context env =
    Some (Pipeline.pipeline st, Pipeline.env st,
          match r with
          | Some e => Raise e
          | None => Return (Pipeline.run_result st)
          end).
Proof.
  intros Hok. unfold Pipeline.execute. rewrite validate_set_context, Hok.
  rewrite decide_False by (by intros ?).
  destruct (schedule_returns (Pipeline.set_context (or_empty initial_context) self) env)
    as [[st r] Hs].
  exists st, r. split; [done|].
  unfold start in Hs. simpl in *. rewrite Hs. by destruct r.
Qed.



(** ** The pipelines the module builds are well formed *)

Lemma Forall_dict_set {V} (P : string * V → Prop) d k v :
  Forall P d → P (k, v) → Forall P (dict_set k v d).
Proof.
  intros Hd Hkv. induction Hd as [|[k' v'] d Hx Hd IH]; simpl.
  - by constructor.
  - case_decide; by constructor.
Qed.

Lemma Forall_filter_sub {A} (P Q : A → Prop) `{∀ x, Decision (Q x)} (l : list A) :
  Forall P l → Forall P (filter Q l).
Proof.
  rewrite !Forall_forall. intros Hl x [_ Hx]%list_elem_of_filter. auto.
Qed.

Lemma wf_init name description : wf (Pipeline.init name description).
Proof. split; simpl; constructor. Qed.

Lemma wf_add_task task self : wf self → wf (Pipeline.add_task task self).
Proof.
  intros [Hkeys Hnames]. split; simpl.
  - unfold dict_wf in *.
    destruct (decide (Task.name task ∈ dict_keys (Pipeline.tasks self))) as [Hin|Hnin].
    + by rewrite dict_keys_set_elem.
    + rewrite dict_keys_set_new by done. apply NoDup_app.
      split_and!; [done| |apply NoDup_singleton].
      intros k Hk ->%list_elem_of_singleton. done.
  - by apply Forall_dict_set.
Qed.

Lemma wf_remove_task name self : wf self → wf (Pipeline.remove_task name self).
Proof.
  intros [Hkeys Hnames]. unfold Pipeline.remove_task.
  destruct (dict_in name (Pipeline.tasks self)); [|done]. split; simpl.
  - eapply sublist_NoDup; [exact Hkeys|]. apply fmap_sublist, sublist_filter.
  - unfold dict_del. by apply Forall_filter_sub.
Qed.

Lemma run_task_named k t st :
  Forall named (Pipeline.tasks (Pipeline.pipeline st)) →
  Task.name t = k →
  Forall named (Pipeline.tasks (Pipeline.pipeline (Pipeline.run_task (k, t) st).1)).
Proof.
  intros Hst Hname.
  destruct (run_task_cases k t st) as [t' ? ? _ _ [Hn _]|t' ? ? _ _ [Hn _]|t' ? ? ? _ [Hn _]];
    simpl; apply Forall_dict_set; try done; unfold named; simpl; congruence.
Qed.

Lemma run_tasks_named rs st :
  Forall named (Pipeline.tasks (Pipeline.pipeline st)) →
  Forall named rs →
  Forall named (Pipeline.tasks (Pipeline.pipeline (Pipeline.run_tasks rs st).1)).
Proof.
  revert st. induction rs as [|[k t] rs IH]; intros st Hst Hrs; simpl; [done|].
  apply Forall_cons in Hrs as [Hkt Hrs].
  pose proof (run_task_named k t st Hst Hkt) as Hst1.
  destruct (Pipeline.run_task (k, t) st) as [st1 [e|]]; [done|]. by apply IH.
Qed.

Lemma skip_pending_named ts : Forall named ts → Forall named (Pipeline.skip_pending ts).
Proof.
  intros Hts. unfold Pipeline.skip_pending. apply Forall_fmap.
  eapply Forall_impl; [done|]. intros [k t] Hkt. simpl. by case_decide.
Qed.

Lemma schedule_named fuel st st' r :
  Forall named (Pipeline.tasks (Pipeline.pipeline st)) →
  Pipeline.schedule fuel st = Some (st', r) →
  Forall named (Pipeline.tasks (Pipeline.pipeline st')).
Proof.
  revert st. induction fuel as [|fuel IH]; intros st Hst; [done|].
  rewrite schedule_S. cbv zeta.
  case_decide; [|by intros; simplify_eq].
  case_decide. { intros; simplify_eq. simpl. by apply skip_pending_named. }
  pose proof (run_tasks_named
                (filter (Pipeline.runnable (Pipeline.completed st))
                   (Pipeline.tasks (Pipeline.pipeline st))) st Hst) as Hst1.
  destruct (Pipeline.run_tasks _ st) as [st1 [e|]]; simpl in Hst1.
  - intros; simplify_eq. by apply Hst1, Forall_filter_sub.
  - apply IH. by apply Hst1, Forall_filter_sub.
Qed.

(** Whatever way [execute] ends, it leaves a well-formed pipeline. *)
Lemma wf_execute self initial_context env self' env' outcome :
  wf self →
  Pipeline.execute self initial_context env = Some (self', env', outcome) →
  wf self'.
Proof.
  intros [Hkeys Hnames] Hexec.
  destruct (decide (Pipeline.validate self = [])) as [Hvalid|Herr].
  - destruct (execute_valid self initial_context env Hvalid) as (st & r & Hs & Hexec').
    rewrite Hexec in Hexec'. simplify_eq. split.
    + apply schedule_extends in Hs as [Hk _]. unfold dict_wf. by rewrite Hk.
    + exact (schedule_named _ (start (Pipeline.set_context _ self) env) _ _ Hnames Hs).
  - rewrite execute_invalid in Hexec by done. by simplify_eq.
Qed.

(** ** The scheduling loop on the pipelines [add_task] builds *)

Lemma wf_name self k t :
  wf self → dict_get k (Pipeline.tasks self) = Some t → Task.name t = k.
Proof.
  intros [_ Hname] Hk%dict_get_Some_elem.
  by apply (proj1 (Forall_forall _ _) Hname (k, t)).
Qed.

Lemma run_inv_start self env : run_inv self (start self env).
Proof.
  split; simpl.
  - done.
  - intros k t0 Ht0. exists t0. split; [done|]. split; [done|].
    split; [by intros ?%elem_of_nil|]. split; [by intros ?%elem_of_nil | done].
  - constructor.
  - by intros k ?%elem_of_nil.
  - intros [|??] ? ? ?; simplify_eq.
  - by intros k ?%elem_of_nil.
  - by intros k ?%elem_of_nil.
Qed.

Lemma can_run_true (t : Task.Task) (completed : list string) :
  Task.can_run t completed = true ↔ ∀ dep, dep ∈ Task.dependencies t → dep ∈ completed.
Proof.
  unfold Task.can_run. rewrite forallb_forall. split; intros H dep Hdep.
  - apply list_elem_of_In, H in Hdep. by apply bool_decide_eq_true in Hdep.
  - apply bool_decide_eq_true, H. by apply list_elem_of_In.
Qed.

(** A task of the round keeps the invariant when it ends without raising
    past the handler. *)
Lemma snoc_eq_split {A} (l before after : list A) (x y : A) :
  l ++ [x] = before ++ y :: after →
  (after = [] ∧ before = l ∧ y = x) ∨
  (∃ after', after = after' ++ [x] ∧ l = before ++ y :: after').
Proof.
  destruct after as [|z after _] using rev_ind.
  - intros [-> ->]%app_inj_tail. by left.
  - rewrite app_comm_cons, (assoc_L (++)). intros [-> ->]%app_inj_tail.
    right. by eexists.
Qed.

Lemma run_task_inv self k t st st' :
  wf self → run_inv self st →
  dict_get k (Pipeline.tasks (Pipeline.pipeline st)) = Some t →
  Task.status t = PENDING →
  (∀ dep, dep ∈ Task.dependencies t → dep ∈ Pipeline.completed st) →
  Pipeline.run_task (k, t) st = (st', None) →
  run_inv self st'.
Proof.
  intros Hwf [Hkeys Htasks Honce Hran Horder Hret Hrai] Hk Hpending Hdeps Hrun.
  assert (k ∈ dict_keys (Pipeline.tasks self)) as Hkey
    by (rewrite <- Hkeys; apply dict_get_is_Some; eauto).
  apply dict_get_is_Some in Hkey as [t0 Ht0].
  destruct (Htasks _ _ Ht0) as (t1 & Ht1 & _ & Hc & Hf & Hsame).
  assert (t1 = t) as -> by congruence.
  assert (k ∉ Pipeline.completed st) as Hkc by (intros ?%Hc; congruence).
  assert (k ∉ Pipeline.failed st) as Hkf by (intros ?%Hf; congruence).
  assert (t = t0) as -> by auto.
  assert (Task.name t0 = k) as Hname by (by eapply wf_name).
  assert (k ∈ dict_keys (Pipeline.tasks (Pipeline.pipeline st))) as Hkey'
    by (apply dict_get_is_Some; eauto).
  apply NoDup_app in Honce as (Hndc & Hdisj & Hndf).
  destruct (run_task_cases k t0 st) as
    [t' context' env' Hfun _ Hsame' Hstatus
    |t' context' env' Hfun _ Hsame' Hstatus|];
    [injection Hrun as <-..|discriminate].
  - (* the task completed *)
    split; simpl; rewrite ?Hname.
    + by rewrite dict_keys_set_elem.
    + intros k1 t1 Hk1. destruct (decide (k = k1)) as [<-|Hne].
      * rewrite dict_get_set_eq. exists t'. assert (t1 = t0) as -> by congruence.
        split; [done|]. split; [done|]. split; [done|]. split.
        -- by intros ?.
        -- intros H. exfalso. apply H, elem_of_app. right. left.
      * rewrite dict_get_set_ne by done.
        destruct (Htasks _ _ Hk1) as (t & ? & ? & Hc1 & Hf1 & Hs1).
        exists t. split; [done|]. split; [done|]. split; [|split; [done|]].
        -- intros [?|?%list_elem_of_singleton]%elem_of_app; [auto | congruence].
        -- intros H1 H2. apply Hs1; [|done]. intros ?. apply H1, elem_of_app. by left.
    + apply NoDup_app. split_and!; [|set_solver|done].
      apply NoDup_app. split_and!; [done|set_solver|apply NoDup_singleton].
    + intros k1 [[Hk1| ->%list_elem_of_singleton]%elem_of_app|Hk1]%elem_of_app.
      * destruct (Hran k1) as (t & ? & ? & Hd); [set_solver|].
        exists t. split_and!; [done..|]. intros dep ?%Hd. set_solver.
      * exists t0. split_and!; [done..|]. intros dep ?%Hdeps. set_solver.
      * destruct (Hran k1) as (t & ? & ? & Hd); [set_solver|].
        exists t. split_and!; [done..|]. intros dep ?%Hd. set_solver.
    + intros before k1 after [(-> & -> & ->)|(after' & -> & Heq)]%snoc_eq_split.
      * by exists t0.
      * by eapply Horder.
    + intros k1 [Hk1| ->%list_elem_of_singleton]%elem_of_app; [auto|].
      destruct Hfun as [v Hv]. by eexists t0, _, _, _.
    + done.
  - (* the task failed *)
    split; simpl; rewrite ?Hname.
    + by rewrite dict_keys_set_elem.
    + intros k1 t1 Hk1. destruct (decide (k = k1)) as [<-|Hne].
      * rewrite dict_get_set_eq. exists t'. assert (t1 = t0) as -> by congruence.
        split; [done|]. split; [done|]. split; [done|]. split; [done|].
        intros _ H. exfalso. apply H, elem_of_app. right. left.
      * rewrite dict_get_set_ne by done.
        destruct (Htasks _ _ Hk1) as (t & ? & ? & Hc1 & Hf1 & Hs1).
        exists t. split; [done|]. split; [done|]. split; [done|]. split.
        -- intros [?|?%list_elem_of_singleton]%elem_of_app; [auto | congruence].
        -- intros H1 H2. apply Hs1; [done|]. intros ?. apply H2, elem_of_app. by left.
    + rewrite (assoc_L (++)). apply NoDup_app.
      split_and!; [|set_solver|apply NoDup_singleton].
      apply NoDup_app. by split_and!.
    + intros k1 [Hk1|[Hk1| ->%list_elem_of_singleton]%elem_of_app]%elem_of_app.
      * destruct (Hran k1) as (t & ? & ? & Hd); [set_solver|]. by exists t.
      * destruct (Hran k1) as (t & ? & ? & Hd); [set_solver|]. by exists t.
      * by exists t0.
    + done.
    + done.
    + intros k1 [Hk1| ->%list_elem_of_singleton]%elem_of_app; [auto|].
      destruct Hfun as (e & He & Hexc). by eexists t0, _, _, e.
Qed.

Lemma run_task_other k t st k' :
  k ≠ k' →
  dict_get k' (Pipeline.tasks (Pipeline.pipeline (Pipeline.run_task (k, t) st).1)) =
  dict_get k' (Pipeline.tasks (Pipeline.pipeline st)).
Proof.
  intros Hne. destruct (run_task_cases k t st); simpl; by rewrite dict_get_set_ne.
Qed.

Lemma run_extends_completed st st' k :
  run_extends st st' → k ∈ Pipeline.completed st → k ∈ Pipeline.completed st'.
Proof. intros [_ (l & -> & _)] Hk. apply elem_of_app. by left. Qed.

Lemma run_tasks_inv self rs st st' :
  wf self → run_inv self st →
  NoDup rs.*1 →
  (∀ k t, (k, t) ∈ rs →
     dict_get k (Pipeline.tasks (Pipeline.pipeline st)) = Some t ∧
     Task.status t = PENDING ∧
     ∀ dep, dep ∈ Task.dependencies t → dep ∈ Pipeline.completed st) →
  Pipeline.run_tasks rs st = (st', None) →
  run_inv self st'.
Proof.
  intros Hwf. revert st. induction rs as [|[k t] rs IH]; intros st Hinv Hnd Hrs; simpl.
  { intros; by simplify_eq. }
  apply NoDup_cons in Hnd as [Hk Hnd].
  destruct (Hrs k t) as (Hget & Hpending & Hdeps); [left|].
  pose proof (run_task_other k t st) as Hother.
  pose proof (run_task_extends k t st) as Hext.
  destruct (Pipeline.run_task (k, t) st) as [st1 [e|]] eqn:Hrun; [done|].
  simpl in *. apply IH; [by eapply run_task_inv|done|].
  intros k' t' Hin. destruct (Hrs k' t') as (Hget' & Hpending' & Hdeps'); [by right|].
  split; [|split; [done|]].
  - rewrite Hother; [done|]. intros ->. apply Hk.
    apply list_elem_of_fmap. by exists (k', t').
  - intros dep ?%Hdeps'. eapply run_extends_completed; [|done].
    apply Hext. apply dict_get_is_Some. eauto.
Qed.

(** The tasks of a round, as the invariant needs them. *)
Lemma runnable_tasks_ready self st :
  wf self → run_inv self st →
  let rs := filter (Pipeline.runnable (Pipeline.completed st))
              (Pipeline.tasks (Pipeline.pipeline st)) in
  NoDup rs.*1 ∧
  ∀ k t, (k, t) ∈ rs →
    dict_get k (Pipeline.tasks (Pipeline.pipeline st)) = Some t ∧
    Task.status t = PENDING ∧
    ∀ dep, dep ∈ Task.dependencies t → dep ∈ Pipeline.completed st.
Proof.
  intros [Hwf _] Hinv rs.
  assert (dict_wf (Pipeline.tasks (Pipeline.pipeline st))) as Hwf'
    by (unfold dict_wf; by rewrite (inv_keys _ _ Hinv)).
  split.
  - eapply sublist_NoDup; [exact Hwf'|]. apply fmap_sublist, sublist_filter.
  - intros k t [[Hpending Hrun] Hin]%list_elem_of_filter. simpl in *.
    split; [by apply dict_get_elem_wf|]. split; [done|]. by apply can_run_true.
Qed.

(** A run that leaves the loop without a raise leaves it from a state
    [st2] that satisfies the invariant: either by its condition, or by the
    [break], after the sweep of the PENDING tasks. *)
Lemma schedule_inv self fuel st st' :
  wf self → run_inv self st →
  Pipeline.schedule fuel st = Some (st', None) →
  ∃ st2, run_inv self st2 ∧
    ((¬ recorded st2 < length (Pipeline.tasks (Pipeline.pipeline st2)) ∧ st' = st2) ∨
     (recorded st2 < length (Pipeline.tasks (Pipeline.pipeline st2)) ∧
      filter (Pipeline.runnable (Pipeline.completed st2))
        (Pipeline.tasks (Pipeline.pipeline st2)) = [] ∧
      st' = swept st2)).
Proof.
  intros Hwf. revert st. induction fuel as [|fuel IH]; intros st Hinv; [done|].
  rewrite schedule_S. cbv zeta.
  case_decide as Hcond.
  2: { intros; simplify_eq. exists st'. split; [done|]. by left. }
  case_decide as Hrs.
  { intros; simplify_eq. exists st. split; [done|]. by right. }
  destruct (runnable_tasks_ready self st Hwf Hinv) as [Hnd Hready].
  destruct (Pipeline.run_tasks _ st) as [st1 [e|]] eqn:Hrun; [done|].
  apply IH. by eapply run_tasks_inv.
Qed.


(** ** What a run that returns leaves behind *)

Lemma length_lt_missing (l keys : list string) k :
  NoDup l → (∀ x, x ∈ l → x ∈ keys) → k ∈ keys → k ∉ l → length l < length keys.
Proof.
  intros Hnd Hsub Hk Hnk.
  assert (l ⊆+ filter (λ x, x ≠ k) keys) as Hle%submseteq_length.
  { apply NoDup_submseteq; [done|]. intros x Hx. apply list_elem_of_filter.
    split; [by intros -> | auto]. }
  assert (length (filter (λ x, x ≠ k) keys) < length keys); [|lia].
  eapply length_filter_lt; [done|]. by intros ?.
Qed.

(** The pipeline [self'] and the dictionary [r] that a run of [self] leaves:
    the tasks recorded in [completed] and [failed] were PENDING, are
    recorded once, ran after their dependencies had completed, and are now
    COMPLETED and FAILED; all the other tasks are as they were, but for the
    PENDING ones, which are now SKIPPED; and no PENDING task whose
    dependencies all completed was left out. *)
Lemma execute_returns_post self initial_context env self' env' r :
  wf self →
  Pipeline.validate self = [] →
  Pipeline.execute self initial_context env = Some (self', env', Return r) →
  ∃ completed failed,
    r = {| Result.success := bool_decide (length failed = 0);
           Result.errors := None;
           Result.completed_tasks := Some completed;
           Result.failed_tasks := Some failed;
           Result.execution_order := Some (Pipeline.execution_order self');
           Result.context := Some (Pipeline.context self');
           Result.error := None |} ∧
    run_post self self' completed failed.
Proof.
  intros Hwf Hvalid Hexec.
  destruct (execute_valid self initial_context env Hvalid) as (st & r0 & Hs & Hexec').
  rewrite Hexec in Hexec'. destruct r0 as [e|]; simplify_eq.
  set (self0 := Pipeline.set_context (or_empty initial_context) self) in *.
  assert (wf self0) as Hwf0 by done.
  pose proof (schedule_extends _ _ _ _ Hs) as [_ (l & Hl & Horder)].
  simpl in Hl, Horder.
  destruct (schedule_inv self0 _ _ _ Hwf0 (run_inv_start self0 env) Hs)
    as (st2 & [Hkeys Htasks Honce Hran Hbefore Hret Hrai] & Hexit).
  exists (Pipeline.completed st), (Pipeline.failed st).
  split; [reflexivity|].
  assert (∀ x, x ∈ Pipeline.completed st2 ++ Pipeline.failed st2 →
               x ∈ (Pipeline.tasks (Pipeline.pipeline st2)).*1) as Hsub.
  { intros x (t1 & Hx & _)%Hran.
    fold (dict_keys (Pipeline.tasks (Pipeline.pipeline st2))).
    rewrite Hkeys. apply dict_get_is_Some. eauto. }
  assert (∀ k, k ∈ dict_keys (Pipeline.tasks self) →
               ¬ recorded st2 < length (Pipeline.tasks (Pipeline.pipeline st2)) →
               k ∈ Pipeline.completed st2 ++ Pipeline.failed st2) as Hall.
  { intros k Hk Hcond.
    destruct (decide (k ∈ Pipeline.completed st2 ++ Pipeline.failed st2)) as [|Hnk]; [done|].
    exfalso. apply Hcond. unfold recorded. rewrite <- length_app.
    rewrite <- (length_fmap fst (Pipeline.tasks _)).
    eapply (length_lt_missing _ _ k); [done..| |done].
    fold (dict_keys (Pipeline.tasks (Pipeline.pipeline st2))). by rewrite Hkeys. }
  destruct Hexit as [[Hcond ->]|(Hcond & Hrs & ->)];
    unfold swept in *;
    cbn [Pipeline.completed Pipeline.failed Pipeline.pipeline Pipeline.tasks
         Pipeline.set_tasks Pipeline.execution_order] in *.
  - split; [by rewrite Hl|done..| |].
    + intros k t0 Ht0. destruct (Htasks _ _ Ht0) as (t & ? & ? & ? & ? & Hsame).
      exists t. split_and!; [done..|]. intros Hkc Hkf.
      assert (k ∈ Pipeline.completed st2 ++ Pipeline.failed st2) as [?|?]%elem_of_app
        by (apply Hall; [apply dict_get_is_Some; eauto|done]); done.
    + intros k t0 Ht0 _ _. apply Hall; [|done]. apply dict_get_is_Some; eauto.
  - split; [by rewrite Hl|etrans; [apply skip_pending_keys|exact Hkeys]|done..| |].
    + intros k t0 Ht0. destruct (Htasks _ _ Ht0) as (t & Ht & Hsame & Hc & Hf & Hrest).
      unfold Pipeline.set_tasks. cbn [Pipeline.tasks].
      rewrite skip_pending_get, Ht. simpl. eexists. split; [done|].
      destruct (decide (Task.status t = PENDING)) as [Hp|Hp].
      * split_and!; simpl; try apply Hsame.
        -- intros ?%Hc. congruence.
        -- intros ?%Hf. congruence.
        -- intros Hkc Hkf. rewrite <- (Hrest Hkc Hkf). by rewrite decide_True.
      * split_and!; try apply Hsame; [done..|].
        intros Hkc Hkf. rewrite <- (Hrest Hkc Hkf). by rewrite decide_False.
    + intros k t0 Ht0 Hpending Hdeps.
      destruct (decide (k ∈ Pipeline.completed st2 ++ Pipeline.failed st2)) as [|Hnk]; [done|].
      apply not_elem_of_app in Hnk as [Hkc Hkf].
      destruct (Htasks _ _ Ht0) as (t & Ht & _ & _ & _ & Hrest).
      rewrite (Hrest Hkc Hkf) in Ht.
      exfalso. eapply (filter_nil_not_elem_of _ _ (k, t0)); [exact Hrs| |].
      * split; [done|]. by apply can_run_true.
      * by apply dict_get_Some_elem.
Qed.

(** ** Work functions that raise nothing but [Exception]s *)

Lemma dict_set_elem {V} (d : list (string * V)) k v k1 v1 :
  (k1, v1) ∈ dict_set k v d → (k1, v1) ∈ d ∨ (k1 = k ∧ v1 = v).
Proof.
  induction d as [|[k0 v0] d IH]; simpl.
  - intros ?%list_elem_of_singleton. simplify_eq. by right.
  - case_decide; subst.
    + intros [?|?]%elem_of_cons; simplify_eq; [by right | left; by right].
    + intros [?|[?|?]%IH]%elem_of_cons; simplify_eq;
        [left; left | left; by right | by right].
Qed.

Lemma only_Exceptions_same ts k t t' :
  only_Exceptions ts → only_Exceptions [(k, t)] → same_task t t' →
  only_Exceptions (dict_set k t' ts).
Proof.
  intros Hts Ht (_ & _ & Hfunc) k1 t1 context context' e [Hin|[-> ->]]%dict_set_elem Hraise.
  - by eapply Hts.
  - rewrite Hfunc in Hraise. eapply (Ht k t); [left | done].
Qed.

Lemma run_task_only_Exceptions k t st :
  only_Exceptions (Pipeline.tasks (Pipeline.pipeline st)) →
  only_Exceptions [(k, t)] →
  ∃ st', Pipeline.run_task (k, t) st = (st', None) ∧
         only_Exceptions (Pipeline.tasks (Pipeline.pipeline st')).
Proof.
  intros Hts Ht.
  destruct (run_task_cases k t st) as [| |t' context' env' e Hraise];
    [eexists; split; [done|]; simpl; by apply (only_Exceptions_same _ _ t)..|].
  assert (exc_is_Exception e = true) by (eapply (Ht k t); [left | done]).
  congruence.
Qed.

Lemma run_tasks_only_Exceptions rs st :
  only_Exceptions (Pipeline.tasks (Pipeline.pipeline st)) →
  only_Exceptions rs →
  ∃ st', Pipeline.run_tasks rs st = (st', None) ∧
         only_Exceptions (Pipeline.tasks (Pipeline.pipeline st')).
Proof.
  revert st. induction rs as [|[k t] rs IH]; intros st Hts Hrs; simpl; [eauto|].
  destruct (run_task_only_Exceptions k t st) as (st1 & -> & Hts1); [done| |].
  { intros k1 t1 ? ? ? [= -> ->]%list_elem_of_singleton ?. eapply Hrs; [left|done]. }
  apply IH; [done|]. intros k1 t1 ? ? ? Hin ?. eapply Hrs; [by right|done].
Qed.

Lemma schedule_only_Exceptions fuel st st' r :
  only_Exceptions (Pipeline.tasks (Pipeline.pipeline st)) →
  Pipeline.schedule fuel st = Some (st', r) → r = None.
Proof.
  revert st. induction fuel as [|fuel IH]; intros st Hts; [done|].
  rewrite schedule_S. cbv zeta.
  case_decide; [|by intros; simplify_eq].
  case_decide; [by intros; simplify_eq|].
  destruct (run_tasks_only_Exceptions
              (filter (Pipeline.runnable (Pipeline.completed st))
                 (Pipeline.tasks (Pipeline.pipeline st))) st) as (st1 & -> & Hts1);
    [done| |by apply IH].
  intros k t ? ? ? [_ Hin]%list_elem_of_filter ?. by eapply Hts.
Qed.

(** On a valid pipeline whose work functions raise nothing but
    [Exception]s, [execute] returns its dictionary. *)
Lemma execute_returns self initial_context env :
  Pipeline.validate self = [] →
  only_Exceptions (Pipeline.tasks self) →
  ∃ self' env' r,
    Pipeline.execute self initial_context env = Some (self', env', Return r).
Proof.
  intros Hvalid Hexc.
  destruct (execute_valid self initial_context env Hvalid) as (st & r & Hs & ->).
  apply schedule_only_Exceptions in Hs as ->; [eauto | done].
Qed.

(** ** The log of the work functions invoked *)

Lemma run_calls_refl st : run_calls st st.
Proof. exists [], []. by rewrite !app_nil_r. Qed.

Lemma run_calls_trans st1 st2 st3 :
  run_calls st1 st2 → run_calls st2 st3 → run_calls st1 st3.
Proof.
  intros (l1 & lf1 & Hc1 & Hf1 & Hcalls1) (l2 & lf2 & Hc2 & Hf2 & Hcalls2).
  exists (l1 ++ l2), (lf1 ++ lf2). rewrite Hc2, Hf2, Hc1, Hf1.
  split_and!; [by rewrite (assoc_L (++))..|].
  intros [-> ->]%app_nil. rewrite Hcalls2, Hcalls1 by done.
  by rewrite (assoc_L (++)).
Qed.

Lemma run_task_calls k t st st' :
  Pipeline.run_task (k, t) st = (st', None) → run_calls st st'.
Proof.
  destruct (run_task_cases k t st); intros; simplify_eq.
  - exists [Task.name t], []. by rewrite app_nil_r.
  - exists [], [Task.name t]. by rewrite app_nil_r.
Qed.

Lemma run_tasks_calls rs st st' :
  Pipeline.run_tasks rs st = (st', None) → run_calls st st'.
Proof.
  revert st. induction rs as [|[k t] rs IH]; intros st; simpl.
  { intros; simplify_eq. apply run_calls_refl. }
  destruct (Pipeline.run_task (k, t) st) as [st1 [e|]] eqn:Hrun; [done|].
  intros ?%IH. eapply run_calls_trans; [|done]. by eapply run_task_calls.
Qed.

Lemma schedule_calls fuel st st' :
  Pipeline.schedule fuel st = Some (st', None) → run_calls st st'.
Proof.
  revert st. induction fuel as [|fuel IH]; intros st; [done|].
  rewrite schedule_S. cbv zeta.
  case_decide; [|intros; simplify_eq; apply run_calls_refl].
  case_decide. { intros; simplify_eq. exists [], []. by rewrite !app_nil_r. }
  destruct (Pipeline.run_tasks _ st) as [st1 [e|]] eqn:Hrun; [done|].
  intros ?%IH. eapply run_calls_trans; [|done]. by eapply run_tasks_calls.
Qed.

(** A run in which no task failed invoked the work functions of the tasks
    it completed, in the order of the completed list, and no other. *)
Lemma execute_returns_calls self initial_context env self' env' r :
  Pipeline.validate self = [] →
  Pipeline.execute self initial_context env = Some (self', env', Return r) →
  Result.failed_tasks r = Some [] →
  ∃ completed, Result.completed_tasks r = Some completed ∧
               calls env' = calls env ++ completed.
Proof.
  intros Hvalid Hexec.
  destruct (execute_valid self initial_context env Hvalid) as (st & r0 & Hs & Hexec').
  rewrite Hexec in Hexec'. destruct r0 as [e|]; simplify_eq. simpl.
  intros [= Hfailed]. exists (Pipeline.completed st). split; [done|].
  apply schedule_calls in Hs as (l & lf & Hc & Hf & Hcalls). simpl in *.
  subst lf. rewrite Hc. by apply Hcalls.
Qed.

(** ** Consequences for the tasks of a run *)

Section post.
Context (self self' : Pipeline.Pipeline) (completed failed : list string).
Hypothesis Hwf : wf self.
Hypothesis Hpost : run_post self self' completed failed.

Lemma post_lookup k t :
  (k, t) ∈ Pipeline.tasks self' →
  ∃ t0, dict_get k (Pipeline.tasks self) = Some t0 ∧
        dict_get k (Pipeline.tasks self') = Some t ∧
        same_task t0 t.
Proof.
  intros Hin.
  assert (dict_get k (Pipeline.tasks self') = Some t) as Ht.
  { apply dict_get_elem_wf; [|done]. unfold dict_wf.
    rewrite (post_keys _ _ _ _ Hpost). apply Hwf. }
  assert (k ∈ dict_keys (Pipeline.tasks self)) as [t0 Ht0]%dict_get_is_Some.
  { rewrite <- (post_keys _ _ _ _ Hpost). by eapply dict_elem_key. }
  destruct (post_tasks _ _ _ _ Hpost _ _ Ht0) as (t1 & Ht1 & Hsame & _).
  exists t0. by simplify_eq.
Qed.

Lemma post_wf : wf self'.
Proof.
  split.
  - unfold dict_wf. rewrite (post_keys _ _ _ _ Hpost). apply Hwf.
  - apply Forall_forall. intros [k t] (t0 & Ht0 & _ & Hname & _)%post_lookup.
    unfold named. simpl. rewrite Hname. by eapply wf_name.
Qed.

Lemma post_depends_on a b :
  depends_on (Pipeline.tasks self') a b ↔ depends_on (Pipeline.tasks self) a b.
Proof.
  split.
  - intros (t & Ht & Hb). apply dict_get_Some_elem in Ht.
    apply post_lookup in Ht as (t0 & Ht0 & _ & _ & Hdeps & _).
    exists t0. by rewrite <- Hdeps.
  - intros (t0 & Ht0 & Hb).
    destruct (post_tasks _ _ _ _ Hpost _ _ Ht0) as (t & Ht & (_ & Hdeps & _) & _).
    exists t. by rewrite Hdeps.
Qed.

Lemma post_validate : Pipeline.validate self = [] → Pipeline.validate self' = [].
Proof.
  destruct post_wf as [Hwf' _]. destruct Hwf as [Hwf0 _].
  rewrite !validate_nil_iff by done. intros [Hmiss Hcycle]. split.
  - intros a b ?%post_depends_on. rewrite (post_keys _ _ _ _ Hpost). eauto.
  - intros [a Ha]. apply Hcycle. exists a.
    eapply tc_congruence with (f := id); [|done].
    intros x y. apply post_depends_on.
Qed.

(** A recorded task and all it depends on, directly or not, completed,
    but for the task itself when it failed. *)
Lemma post_ancestors b a :
  tc (depends_on (Pipeline.tasks self)) b a →
  b ∈ completed ++ failed → a ∈ completed.
Proof.
  induction 1 as [b a (t & Ht & Ha)|b d a (t & Ht & Hd) _ IH]; intros Hb;
    destruct (post_ran _ _ _ _ Hpost _ Hb) as (t0 & Ht0 & _ & Hdeps);
    simplify_eq; [by apply Hdeps|].
  apply IH, elem_of_app. left. by apply Hdeps.
Qed.

Lemma post_disjoint k : k ∈ completed → k ∈ failed → False.
Proof.
  intros Hc Hf. pose proof (post_once _ _ _ _ Hpost) as (_ & Hdisj & _)%NoDup_app.
  by eapply Hdisj.
Qed.

(** A task that was PENDING and has, among the tasks it depends on
    directly or not, one that did not complete, is SKIPPED and in neither
    list. *)
Lemma post_blocked b tb a :
  dict_get b (Pipeline.tasks self) = Some tb →
  Task.status tb = PENDING →
  tc (depends_on (Pipeline.tasks self)) b a →
  a ∉ completed →
  status_of (Pipeline.tasks self') b = Some SKIPPED ∧
  (b ∉ completed) ∧ (b ∉ failed).
Proof.
  intros Hb Hpending Hpath Ha.
  assert (b ∉ completed ++ failed) as [Hbc Hbf]%not_elem_of_app
    by (intros ?; by eapply Ha, post_ancestors).
  split; [|done].
  destruct (post_tasks _ _ _ _ Hpost _ _ Hb) as (t & Ht & _ & _ & _ & Hstatus).
  unfold status_of. rewrite Ht. simpl. rewrite Hstatus by done.
  by rewrite decide_True.
Qed.

(** A SKIPPED task is in neither list. *)
Lemma post_skipped k t :
  (k, t) ∈ Pipeline.tasks self' → Task.status t = SKIPPED →
  (Task.name t ∉ completed) ∧ (Task.name t ∉ failed).
Proof.
  intros Hin Hskipped.
  apply post_lookup in Hin as (t0 & Ht0 & Ht & Hname & _).
  rewrite Hname, (wf_name self k t0) by done.
  destruct (post_tasks _ _ _ _ Hpost _ _ Ht0) as (t1 & Ht1 & _ & Hc & Hf & _).
  simplify_eq. split; intros H; [apply Hc in H | apply Hf in H]; congruence.
Qed.

(** A task that was PENDING and whose dependencies all completed ran:
    it is in the list that matches the way its work function ends. *)
Lemma post_raises k t0 :
  dict_get k (Pipeline.tasks self) = Some t0 →
  Task.status t0 = PENDING →
  (∀ dep, dep ∈ Task.dependencies t0 → dep ∈ completed) →
  always_raises (Task.func t0) →
  k ∈ failed.
Proof.
  intros Ht0 Hpending Hdeps Hraises.
  pose proof (post_live _ _ _ _ Hpost _ _ Ht0 Hpending Hdeps) as Hk.
  apply elem_of_app in Hk as [Hk|Hk]; [|done].
  apply (post_returned _ _ _ _ Hpost) in Hk as (t & context & context' & v & Ht & Hv).
  simplify_eq. destruct (Hraises context) as (? & ? & ?). congruence.
Qed.

Lemma post_returns k t0 :
  dict_get k (Pipeline.tasks self) = Some t0 →
  Task.status t0 = PENDING →
  (∀ dep, dep ∈ Task.dependencies t0 → dep ∈ completed) →
  always_returns (Task.func t0) →
  k ∈ completed.
Proof.
  intros Ht0 Hpending Hdeps Hreturns.
  pose proof (post_live _ _ _ _ Hpost _ _ Ht0 Hpending Hdeps) as Hk.
  apply elem_of_app in Hk as [Hk|Hk]; [done|].
  apply (post_raised _ _ _ _ Hpost) in Hk as (t & context & context' & e & Ht & He & _).
  simplify_eq. destruct (Hreturns context) as (? & ? & ?). congruence.
Qed.
End post.

(** ** Pipeline.execute *)

(** C3, as the code has it.  On a pipeline that [validate] rejects,
    [execute] returns at once the dictionary with [success] false, the
    messages under [errors] and two empty task lists.  No work function is
    invoked and the clock is not read (the world [env] is returned as it
    was); the task mapping and [execution_order] are unchanged.  The
    [context] of the pipeline however was replaced, before [validate] ran,
    by [initial_context] (or by an empty mapping). *)
Theorem execute_rejects_invalid (self : Pipeline.Pipeline)
    (initial_context : option Ctx) (env : Env) :
  Pipeline.validate self ≠ [] →
  ∃ self' r,
    Pipeline.execute self initial_context env = Some (self', env, Return r) ∧
    Result.success r = false ∧
    Result.errors r = Some (Pipeline.validate self) ∧
    Result.completed_tasks r = Some [] ∧
    Result.failed_tasks r = Some [] ∧
    Pipeline.tasks self' = Pipeline.tasks self ∧
    Pipeline.execution_order self' = Pipeline.execution_order self ∧
    Pipeline.name self' = Pipeline.name self ∧
    Pipeline.description self' = Pipeline.description self ∧
    Pipeline.context self' = or_empty initial_context.
Proof.
  intros Herr. eexists _, _. split; [by apply execute_invalid|]. by split_and!.
Qed.

Lemma execute_rejects_invalid_witness :
  Pipeline.validate Examples.cyclic ≠ [] ∧
  ∃ self' r,
    Pipeline.execute Examples.cyclic None Examples.env0 =
      Some (self', Examples.env0, Return r) ∧
    Result.success r = false ∧
    Result.errors r = Some (Pipeline.validate Examples.cyclic) ∧
    Result.completed_tasks r = Some [] ∧
    Result.failed_tasks r = Some [] ∧
    Pipeline.tasks self' = Pipeline.tasks Examples.cyclic ∧
    Pipeline.execution_order self' = Pipeline.execution_order Examples.cyclic ∧
    Pipeline.name self' = Pipeline.name Examples.cyclic ∧
    Pipeline.description self' = Pipeline.description Examples.cyclic ∧
    Pipeline.context self' = or_empty None.
Proof.
  assert (Pipeline.validate Examples.cyclic ≠ []) as H by (vm_compute; discriminate).
  split; [exact H|].
  exact (execute_rejects_invalid Examples.cyclic None Examples.env0 H).
Defined.

(** C3 fails as stated: [validate] rejects this pipeline, and the call of
    [execute] has by then replaced its context. *)
Lemma execute_invalid_replaces_context :
  let self := Examples.dangling in
  let initial_context : Ctx := {["x" := VInt 1]} in
  Pipeline.validate self ≠ [] ∧
  ∃ self' r,
    Pipeline.execute self (Some initial_context) Examples.env0 =
      Some (self', Examples.env0, Return r) ∧
    Result.errors r = Some ["Task 'B' depends on missing task 'nope'"] ∧
    Pipeline.context self = ∅ ∧
    Pipeline.context self' = initial_context ∧
    Pipeline.context self' ≠ Pipeline.context self.
Proof.
  split; [vm_compute; discriminate|].
  eexists _, _. split; [apply execute_invalid; vm_compute; discriminate|].
  split; [by vm_compute|]. split; [done|]. split; [by vm_compute|].
  intros H. apply (f_equal (lookup "x")) in H. vm_compute in H. discriminate.
Qed.

(** C8.  For a name the registry does not hold, [execute_pipeline] returns
    (it does not raise) the dictionary with [success] false and the message
    under [error]; the dictionary has none of the other keys, which tells it
    from the one [execute] returns when validation fails; the manager and
    the world are unchanged. *)
Theorem execute_pipeline_not_found (self : PipelineManager.PipelineManager)
    (name : string) (context : option Ctx) (env : Env) :
  name ∉ PipelineManager.list_pipelines self →
  ∃ r,
    PipelineManager.execute_pipeline self name context env =
      Some (self, env, Return r) ∧
    Result.success r = false ∧
    Result.error r = Some ("Pipeline not found: " +:+ name) ∧
    Result.errors r = None ∧
    Result.completed_tasks r = None ∧
    Result.failed_tasks r = None ∧
    Result.execution_order r = None ∧
    Result.context r = None ∧
    ∀ errs, r ≠ Pipeline.validation_failure errs.
Proof.
  intros Hname%dict_get_None. unfold PipelineManager.execute_pipeline,
    PipelineManager.get_pipeline. rewrite Hname.
  eexists. split; [done|]. by split_and!.
Qed.

Lemma execute_pipeline_not_found_witness :
  ("nope" ∉ PipelineManager.list_pipelines Examples.manager) ∧
  ∃ r,
    PipelineManager.execute_pipeline Examples.manager "nope" None Examples.env0 =
      Some (Examples.manager, Examples.env0, Return r) ∧
    Result.success r = false ∧
    Result.error r = Some "Pipeline not found: nope" ∧
    Result.errors r = None ∧
    Result.completed_tasks r = None ∧
    Result.failed_tasks r = None ∧
    Result.execution_order r = None ∧
    Result.context r = None ∧
    ∀ errs, r ≠ Pipeline.validation_failure errs.
Proof.
  assert ("nope" ∉ PipelineManager.list_pipelines Examples.manager) as H
    by (apply (bool_decide_unpack _); vm_compute; exact I).
  split; [exact H|].
  exact (execute_pipeline_not_found Examples.manager "nope" None Examples.env0 H).
Defined.

(** C7.  [execute] never clears [execution_order]: when it returns, the
    list is what it was before the call followed by the names the call
    completed (none when validation fails), and it is the list returned
    under [execution_order]; when a raise leaves [execute], the list is
    what it was, followed by the names completed until then.  A second call
    on the same pipeline therefore appends to the history of the first. *)
Theorem execute_appends_to_execution_order (self : Pipeline.Pipeline)
    (initial_context : option Ctx) (env : Env) :
  ∃ self' env' outcome,
    Pipeline.execute self initial_context env = Some (self', env', outcome) ∧
    match outcome with
    | Return r =>
        ∃ completed,
          Result.completed_tasks r = Some completed ∧
          Pipeline.execution_order self' =
            Pipeline.execution_order self ++ completed ∧
          (Result.execution_order r = None ∨
           Result.execution_order r = Some (Pipeline.execution_order self'))
    | Raise _ =>
        ∃ completed,
          Pipeline.execution_order self' =
            Pipeline.execution_order self ++ completed
    end.
Proof.
  destruct (decide (Pipeline.validate self = [])) as [Hvalid|Herr].
  - destruct (execute_valid self initial_context env Hvalid) as (st & r & Hs & ->).
    apply schedule_extends in Hs as [_ (l & Hl & Horder)]. simpl in *.
    eexists _, _, _. split; [done|]. destruct r as [e|]; simpl.
    + by exists l.
    + exists l. split_and!; [by rewrite Hl | done | by right].
  - rewrite execute_invalid by done. eexists _, _, _. split; [done|].
    exists []. simpl. rewrite app_nil_r. split_and!; [done..|by left].
Qed.

(** A task of the round, once executed, is not PENDING any more, whatever
    the tasks executed after it. *)
Lemma run_task_not_pending k t st st' k0 :
  (k0 = k ∧ k ∈ dict_keys (Pipeline.tasks (Pipeline.pipeline st)) ∨
   ∃ t0, dict_get k0 (Pipeline.tasks (Pipeline.pipeline st)) = Some t0 ∧
         Task.status t0 ≠ PENDING) →
  Pipeline.run_task (k, t) st = (st', None) →
  ∃ t', dict_get k0 (Pipeline.tasks (Pipeline.pipeline st')) = Some t' ∧
        Task.status t' ≠ PENDING.
Proof.
  intros Hk0 Hrun. destruct (decide (k0 = k)) as [->|Hne].
  - destruct (run_task_cases k t st); simplify_eq; simpl;
      rewrite dict_get_set_eq; eexists; (split; [done|congruence]).
  - pose proof (run_task_other k t st k0) as Hother. rewrite Hrun in Hother.
    simpl in Hother. rewrite Hother by done. by destruct Hk0 as [[? _]|?].
Qed.

Lemma run_tasks_not_pending rs st st' :
  (∀ kt, kt ∈ rs → kt.1 ∈ dict_keys (Pipeline.tasks (Pipeline.pipeline st))) →
  Pipeline.run_tasks rs st = (st', None) →
  ∀ k0,
    (k0 ∈ rs.*1 ∨
     ∃ t0, dict_get k0 (Pipeline.tasks (Pipeline.pipeline st)) = Some t0 ∧
           Task.status t0 ≠ PENDING) →
    ∃ t', dict_get k0 (Pipeline.tasks (Pipeline.pipeline st')) = Some t' ∧
          Task.status t' ≠ PENDING.
Proof.
  revert st. induction rs as [|[k t] rs IH]; intros st Hkeys; simpl.
  { intros; simplify_eq. set_solver. }
  pose proof (run_task_extends k t st) as Hext.
  destruct (Pipeline.run_task (k, t) st) as [st1 [e|]] eqn:Hrun; [done|].
  intros Hrest k0 Hk0.
  assert (k ∈ dict_keys (Pipeline.tasks (Pipeline.pipeline st))) as Hk
    by (apply (Hkeys (k, t)); left).
  destruct (Hext Hk) as [Hkeys1 _]. simpl in Hkeys1.
  eapply IH; [|done|].
  - intros kt Hkt. rewrite Hkeys1. apply Hkeys. by right.
  - destruct (decide (k0 ∈ rs.*1)) as [|Hnin]; [by left|]. right.
    eapply run_task_not_pending; [|done].
    destruct Hk0 as [[->|?]%elem_of_cons|?]; [by left|done|by right].
Qed.

(** The task at which a round is cut short: the tasks before it in the
    round were executed and recorded, it raised, the tasks after it are not
    run. *)
Lemma run_tasks_cut_short rs st st' e :
  Pipeline.run_tasks rs st = (st', Some e) →
  ∃ rs1 k t rs2 st0,
    rs = rs1 ++ (k, t) :: rs2 ∧
    Pipeline.run_tasks rs1 st = (st0, None) ∧
    Pipeline.run_task (k, t) st0 = (st', Some e).
Proof.
  revert st. induction rs as [|[k t] rs IH]; intros st; simpl; [done|].
  destruct (Pipeline.run_task (k, t) st) as [st1 [e1|]] eqn:Hrun.
  - intros [= <- <-]. by exists [], k, t, rs, st.
  - intros (rs1 & k' & t' & rs2 & st0 & -> & Hrs1 & Hrun')%IH.
    exists ((k, t) :: rs1), k', t', rs2, st0. simpl. by rewrite Hrun.
Qed.

Lemma run_task_left_running k t st st' e :
  Pipeline.run_task (k, t) st = (st', Some e) →
  Task.func t (Pipeline.context (Pipeline.pipeline st)) =
    ((Task.func t (Pipeline.context (Pipeline.pipeline st))).1, Raise e) ∧
  status_of (Pipeline.tasks (Pipeline.pipeline st')) k = Some RUNNING ∧
  Pipeline.completed st' = Pipeline.completed st ∧
  Pipeline.failed st' = Pipeline.failed st.
Proof.
  intros Hrun. pose proof (run_task_cases k t st) as Hcases. rewrite Hrun in Hcases.
  inversion Hcases as [| |t' context' env' e' Hfun _ Hstatus He]; subst.
  rewrite Hfun. unfold status_of. simpl. rewrite dict_get_set_eq. simpl.
  by rewrite Hstatus.
Qed.

(** C9, as the code has it.  [execute] terminates: the bound on the
    evaluations of the loop condition that the embedding gives it is never
    reached.  An iteration of the scheduling loop that finds no runnable
    task leaves the loop.  One that finds some, all PENDING, executes them
    in turn, and either every one of them has then left the PENDING status
    and was appended to one of the two lists, whose combined length has
    grown by their number; or one of them raised something that is not an
    [Exception], which left [execute] at once: the tasks of the round before
    it were executed and recorded, it is left RUNNING and was appended to
    neither list, and the tasks after it are not run. *)
Theorem execute_terminates :
  (∀ self initial_context env,
     ∃ self' env' outcome,
       Pipeline.execute self initial_context env = Some (self', env', outcome)) ∧
  (∀ fuel st,
     recorded st < length (Pipeline.tasks (Pipeline.pipeline st)) →
     let rs := filter (Pipeline.runnable (Pipeline.completed st))
                 (Pipeline.tasks (Pipeline.pipeline st)) in
     if decide (rs = []) then
       Pipeline.schedule (S fuel) st = Some (swept st, None)
     else
       (∀ kt, kt ∈ rs → Task.status kt.2 = PENDING) ∧
       match Pipeline.run_tasks rs st with
       | (st', None) =>
           Pipeline.schedule (S fuel) st = Pipeline.schedule fuel st' ∧
           recorded st' = recorded st + length rs ∧
           recorded st < recorded st' ∧
           length (Pipeline.tasks (Pipeline.pipeline st')) =
             length (Pipeline.tasks (Pipeline.pipeline st)) ∧
           ∀ kt, kt ∈ rs →
             ∃ t', dict_get kt.1 (Pipeline.tasks (Pipeline.pipeline st')) = Some t' ∧
                   Task.status t' ≠ PENDING
       | (st', Some e) =>
           exc_is_Exception e = false ∧
           Pipeline.schedule (S fuel) st = Some (st', Some e) ∧
           ∃ rs1 k t rs2 st0,
             rs = rs1 ++ (k, t) :: rs2 ∧
             Pipeline.run_tasks rs1 st = (st0, None) ∧
             recorded st0 = recorded st + length rs1 ∧
             (∃ context',
                Task.func t (Pipeline.context (Pipeline.pipeline st0)) =
                  (context', Raise e)) ∧
             Pipeline.run_task (k, t) st0 = (st', Some e) ∧
             status_of (Pipeline.tasks (Pipeline.pipeline st')) k = Some RUNNING ∧
             Pipeline.completed st' = Pipeline.completed st0 ∧
             Pipeline.failed st' = Pipeline.failed st0
       end).
Proof.
  split.
  - intros self initial_context env.
    destruct (decide (Pipeline.validate self = [])) as [Hvalid|Herr].
    + destruct (execute_valid self initial_context env Hvalid) as (st & r & _ & ->).
      by eexists _, _, _.
    + rewrite execute_invalid by done. by eexists _, _, _.
  - intros fuel st Hcond rs. rewrite schedule_S.
    rewrite (decide_True (P := recorded st < _)) by done. cbv zeta.
    fold rs. case_decide as Hrs; [done|]. split.
    { by intros kt [[? _] _]%list_elem_of_filter. }
    pose proof (run_tasks_extends rs st (runnable_keys _ _)) as [Hkeys _].
    pose proof (run_tasks_not_pending rs st) as Hleft.
    destruct (Pipeline.run_tasks rs st) as [st' [e|]] eqn:Hrun.
    + split; [by eapply run_tasks_raised|]. split; [done|].
      apply run_tasks_cut_short in Hrun as (rs1 & k & t & rs2 & st0 & Hsplit & Hrs1 & Hrun).
      exists rs1, k, t, rs2, st0.
      destruct (run_task_left_running _ _ _ _ _ Hrun) as (Hfun & Hstatus & Hc & Hf).
      split_and!; [done|done|by apply run_tasks_recorded|eauto|done..].
    + apply run_tasks_recorded in Hrun as Hrec. split_and!; [done..| | |].
      * destruct rs; [done|]. simpl in Hrec. lia.
      * simpl in Hkeys. apply (f_equal length) in Hkeys.
        unfold dict_keys in Hkeys. by rewrite !length_fmap in Hkeys.
      * intros kt Hkt. eapply Hleft; [apply runnable_keys|done|].
        left. by apply list_elem_of_fmap_2.
Qed.

(** A run of a pipeline with no PENDING task ends before it has executed
    anything. *)
Lemma skip_pending_none ts :
  (∀ kt, kt ∈ ts → Task.status kt.2 ≠ PENDING) → Pipeline.skip_pending ts = ts.
Proof.
  intros H. unfold Pipeline.skip_pending. induction ts as [|[k t] ts IH]; [done|].
  rewrite fmap_cons. simpl. rewrite decide_False by (apply (H (k, t)); left).
  f_equal. apply IH. intros kt Hkt. apply H. by right.
Qed.

Lemma filter_none {A} (P : A → Prop) `{∀ x, Decision (P x)} (l : list A) :
  (∀ x, x ∈ l → ¬ P x) → filter P l = [].
Proof.
  induction l as [|x l IH]; intros Hl; [done|].
  rewrite filter_cons_False by (apply Hl; left). apply IH.
  intros y Hy. apply Hl. by right.
Qed.

Lemma schedule_none_pending fuel self env :
  (∀ kt, kt ∈ Pipeline.tasks self → Task.status kt.2 ≠ PENDING) →
  Pipeline.schedule (S fuel) (start self env) = Some (start self env, None).
Proof.
  intros Hnone. rewrite schedule_S. cbv zeta. case_decide; [|done].
  rewrite (decide_True (P := filter _ _ = [])).
  - unfold swept, start. simpl. rewrite skip_pending_none by done.
    by destruct self.
  - apply filter_none. intros kt Hkt [Hp _]. by eapply Hnone.
Qed.

Lemma validate_no_tasks self : Pipeline.tasks self = [] → Pipeline.validate self = [].
Proof.
  intros Hts. unfold Pipeline.validate, Pipeline.circular_errors, Pipeline.missing_errors.
  by rewrite Hts.
Qed.

(** C10.  After a call of [execute] that completed every task of the
    pipeline, every task has the status COMPLETED, and a second call, in
    the world the first call left, returns a dictionary with [success] true
    and two empty task lists.  It invokes no work function and does not
    read the clock (it returns the world as it was) and leaves the pipeline
    as it was but for its context; [execution_order], in the pipeline and
    in the dictionary, is the one the first call returned. *)
Theorem execute_again_after_completion (self : Pipeline.Pipeline)
    (initial_context : option Ctx) (env : Env)
    (self1 : Pipeline.Pipeline) (env1 : Env) (r1 : Result.Result)
    (initial_context2 : option Ctx) :
  wf self →
  Pipeline.execute self initial_context env = Some (self1, env1, Return r1) →
  (∃ completed,
     Result.completed_tasks r1 = Some completed ∧
     ∀ k, k ∈ dict_keys (Pipeline.tasks self) → k ∈ completed) →
  (∀ kt, kt ∈ Pipeline.tasks self1 → Task.status kt.2 = COMPLETED) ∧
  ∃ r2,
    Pipeline.execute self1 initial_context2 env1 =
      Some (Pipeline.set_context (or_empty initial_context2) self1, env1, Return r2) ∧
    Result.success r2 = true ∧
    Result.completed_tasks r2 = Some [] ∧
    Result.failed_tasks r2 = Some [] ∧
    Result.execution_order r2 = Some (Pipeline.execution_order self1) ∧
    Result.execution_order r2 = Result.execution_order r1.
Proof.
  intros Hwf Hexec (completed & Hcompleted & Hall).
  assert (Pipeline.validate self = []) as Hvalid.
  { destruct (decide (Pipeline.validate self = [])) as [|Herr]; [done|].
    rewrite execute_invalid in Hexec by done. simplify_eq. simpl in *. simplify_eq.
    apply validate_no_tasks. destruct (Pipeline.tasks self) as [|[k t] ts]; [done|].
    specialize (Hall k). simpl in Hall. set_solver. }
  destruct (execute_returns_post _ _ _ _ _ _ Hwf Hvalid Hexec)
    as (completed' & failed & -> & Hpost).
  simpl in Hcompleted. simplify_eq.
  assert (∀ kt, kt ∈ Pipeline.tasks self1 → Task.status kt.2 = COMPLETED) as Hdone.
  { intros [k t] Hkt. simpl.
    destruct (post_lookup _ _ _ _ Hwf Hpost _ _ Hkt) as (t0 & Ht0 & Ht & _).
    destruct (post_tasks _ _ _ _ Hpost _ _ Ht0) as (t1 & Ht1 & _ & Hc & _).
    simplify_eq. apply Hc, Hall, dict_get_is_Some. eauto. }
  split; [done|].
  pose proof (post_validate _ _ _ _ Hwf Hpost Hvalid) as Hvalid1.
  destruct (execute_valid self1 initial_context2 env1 Hvalid1) as (st & r & Hs & ->).
  rewrite schedule_none_pending in Hs.
  2: { intros kt Hkt. simpl in Hkt. rewrite (Hdone kt Hkt). done. }
  simplify_eq. eexists. split; [done|]. by split_and!.
Qed.

Lemma wf_example (self : Pipeline.Pipeline) : bool_decide (wf self) = true → wf self.
Proof. apply bool_decide_eq_true. Qed.

(** C4.  The dictionary that [execute] returns for a run has [success]
    true exactly when its [failed_tasks] is empty.  A task that the run
    leaves SKIPPED is in neither [completed_tasks] nor [failed_tasks]:
    SKIPPED tasks have no part in [success]. *)
Theorem execute_success_iff_none_failed (self : Pipeline.Pipeline)
    (initial_context : option Ctx) (env : Env)
    (self' : Pipeline.Pipeline) (env' : Env) (r : Result.Result) :
  wf self →
  Pipeline.validate self = [] →
  Pipeline.execute self initial_context env = Some (self', env', Return r) →
  ∃ completed failed,
    Result.completed_tasks r = Some completed ∧
    Result.failed_tasks r = Some failed ∧
    (Result.success r = true ↔ failed = []) ∧
    ∀ k t,
      (k, t) ∈ Pipeline.tasks self' →
      Task.status t = SKIPPED →
      (Task.name t ∉ completed) ∧ (Task.name t ∉ failed).
Proof.
  intros Hwf Hvalid Hexec.
  destruct (execute_returns_post _ _ _ _ _ _ Hwf Hvalid Hexec)
    as (completed & failed & -> & Hpost).
  exists completed, failed. split_and!; [done..| |by eapply post_skipped].
  simpl. rewrite bool_decide_eq_true. apply length_zero_iff_nil.
Qed.

(** ** Runs of three tasks *)

(** A graph whose dependencies all go down a rank has no cycle. *)
Lemma no_cycle_by_rank (ts : list (string * Task.Task)) (rank : string → nat) :
  (∀ a b, depends_on ts a b → rank b < rank a) → ¬ has_cycle ts.
Proof.
  intros Hrank [a Ha].
  assert (∀ x y, tc (depends_on ts) x y → rank y < rank x) as Hlt.
  { induction 1 as [x y Hxy|x y z Hxy _ IH]; [by apply Hrank|].
    apply Hrank in Hxy. lia. }
  apply Hlt in Ha. lia.
Qed.

Lemma pending_task_depends_on ts k deps f a b :
  pending_task ts k deps f → depends_on ts a b → a = k → b ∈ deps.
Proof. intros (t & Ht & _ & <- & _) (t' & Ht' & Hb) ->. by simplify_eq. Qed.

Lemma pending_task_key ts k deps f : pending_task ts k deps f → k ∈ dict_keys ts.
Proof. intros (t & Ht & _). apply dict_get_is_Some. eauto. Qed.

(** The names of a list in which [a] comes before [b] and [b] before [c],
    and that is no longer than three. *)
Lemma three_in_order (l : list string) a b c :
  c ∈ l →
  (∀ before after, l = before ++ c :: after → b ∈ before) →
  (∀ before after, l = before ++ b :: after → a ∈ before) →
  length l ≤ 3 →
  l = [a; b; c].
Proof.
  intros (l1 & l2 & ->)%list_elem_of_split Hb Ha Hlen.
  pose proof (Hb l1 l2 eq_refl) as (l3 & l4 & ->)%list_elem_of_split.
  assert (a ∈ l3) as (l5 & l6 & ->)%list_elem_of_split.
  { apply (Ha l3 (l4 ++ c :: l2)). by rewrite <- (assoc_L (++)). }
  destruct l5, l6, l4, l2; [done|exfalso..];
    repeat (rewrite ?length_app in Hlen; simpl in Hlen); lia.
Qed.

(** C6.  A pipeline that was never executed ([execution_order] is empty)
    and holds exactly three tasks that have not run, [a] with no
    dependency, [b] that depends on [a] and [c] that depends on [b], with
    work functions that return: [execute] invokes the three work functions
    in the order [a], [b], [c] and no other, and returns a dictionary whose
    [execution_order] is [[a; b; c]]. *)
Theorem execute_linear_chain (self : Pipeline.Pipeline)
    (initial_context : option Ctx) (env : Env) (a b c : string)
    (fa fb fc : Ctx → Ctx * Completion Value) :
  wf self →
  dict_keys (Pipeline.tasks self) ≡ₚ [a; b; c] →
  Pipeline.execution_order self = [] →
  pending_task (Pipeline.tasks self) a [] fa →
  pending_task (Pipeline.tasks self) b [a] fb →
  pending_task (Pipeline.tasks self) c [b] fc →
  always_returns fa → always_returns fb → always_returns fc →
  ∃ self' env' r,
    Pipeline.execute self initial_context env = Some (self', env', Return r) ∧
    calls env' = calls env ++ [a; b; c] ∧
    Result.execution_order r = Some [a; b; c] ∧
    Pipeline.execution_order self' = [a; b; c] ∧
    Result.completed_tasks r = Some [a; b; c] ∧
    Result.failed_tasks r = Some [] ∧
    Result.success r = true.
Proof.
  intros Hwf Hkeys Hfresh Ha Hb Hc Hfa Hfb Hfc.
  assert (NoDup [a; b; c]) as Hnd by (rewrite <- Hkeys; apply Hwf).
  assert (a ≠ b ∧ a ≠ c ∧ b ≠ c) as (Hab & Hac & Hbc).
  { apply NoDup_cons in Hnd as [Ha' [Hb' _]%NoDup_cons]. set_solver. }
  assert (∀ k, k ∈ dict_keys (Pipeline.tasks self) → k = a ∨ k = b ∨ k = c) as Hthree.
  { intros k. rewrite Hkeys. set_solver. }
  assert (∀ x y, depends_on (Pipeline.tasks self) x y →
                 (x = b ∧ y = a) ∨ (x = c ∧ y = b)) as Hedges.
  { intros x y Hxy.
    assert (x ∈ dict_keys (Pipeline.tasks self)) as [->|[->| ->]]%Hthree
      by (destruct Hxy as (t & Ht & _); apply dict_get_is_Some; eauto).
    - apply (pending_task_depends_on _ _ _ _ _ _ Ha) in Hxy; [|done].
      by apply elem_of_nil in Hxy.
    - apply (pending_task_depends_on _ _ _ _ _ _ Hb) in Hxy; [|done]. set_solver.
    - apply (pending_task_depends_on _ _ _ _ _ _ Hc) in Hxy; [|done]. set_solver. }
  assert (Pipeline.validate self = []) as Hvalid.
  { apply validate_nil_iff; [apply Hwf|]. split.
    - intros x y [[-> ->]|[-> ->]]%Hedges; by eapply pending_task_key.
    - apply (no_cycle_by_rank _
               (λ k, if decide (k = a) then 0 else if decide (k = b) then 1 else 2)).
      intros x y [[-> ->]|[-> ->]]%Hedges; repeat case_decide; done || lia. }
  assert (∀ k t, dict_get k (Pipeline.tasks self) = Some t →
                 always_returns (Task.func t)) as Hreturns.
  { intros k t Ht.
    assert (k ∈ dict_keys (Pipeline.tasks self)) as [->|[->| ->]]%Hthree
      by (apply dict_get_is_Some; eauto).
    - destruct Ha as (? & ? & _ & _ & <-). by simplify_eq.
    - destruct Hb as (? & ? & _ & _ & <-). by simplify_eq.
    - destruct Hc as (? & ? & _ & _ & <-). by simplify_eq. }
  assert (only_Exceptions (Pipeline.tasks self)) as Hexc.
  { intros k t context context' e Hkt Hraise.
    apply dict_get_elem_wf in Hkt; [|apply Hwf].
    destruct (Hreturns _ _ Hkt context) as (? & ? & ?). congruence. }
  destruct (execute_returns self initial_context env Hvalid Hexc)
    as (self' & env' & r & Hexec).
  destruct (execute_returns_post _ _ _ _ _ _ Hwf Hvalid Hexec)
    as (completed & failed & Hr & Hpost).
  assert (failed = []) as ->.
  { apply elem_of_nil_inv. intros k Hk.
    apply (post_raised _ _ _ _ Hpost) in Hk as (t & context & ? & ? & Ht & Hraise & _).
    destruct (Hreturns _ _ Ht context) as (? & ? & ?). congruence. }
  destruct Ha as (ta & Hta & Hpa & Hda & <-).
  destruct Hb as (tb & Htb & Hpb & Hdb & <-).
  destruct Hc as (tc & Htc & Hpc & Hdc & <-).
  assert (a ∈ completed) as Hina.
  { eapply post_returns; [done..| |done]. rewrite Hda. by intros ? ?%elem_of_nil. }
  assert (b ∈ completed) as Hinb.
  { eapply post_returns; [done..| |done]. rewrite Hdb. set_solver. }
  assert (c ∈ completed) as Hinc.
  { eapply post_returns; [done..| |done]. rewrite Hdc. set_solver. }
  assert (completed = [a; b; c]) as ->.
  { apply three_in_order; [done| | |].
    - intros before after Heq.
      destruct (post_order _ _ _ _ Hpost _ _ _ Heq) as (t & Ht & Hdeps).
      simplify_eq. apply Hdeps. rewrite Hdc. left.
    - intros before after Heq.
      destruct (post_order _ _ _ _ Hpost _ _ _ Heq) as (t & Ht & Hdeps).
      simplify_eq. apply Hdeps. rewrite Hdb. left.
    - pose proof (post_once _ _ _ _ Hpost) as Honce. rewrite app_nil_r in Honce.
      assert (completed ⊆+ dict_keys (Pipeline.tasks self)) as Hsub%submseteq_length.
      { apply NoDup_submseteq; [done|]. intros k Hk.
        destruct (post_ran _ _ _ _ Hpost k) as (t & Ht & _); [by rewrite app_nil_r|].
        apply dict_get_is_Some. eauto. }
      apply Permutation_length in Hkeys. simpl in Hkeys. lia. }
  exists self', env', r. split; [done|].
  destruct (execute_returns_calls _ _ _ _ _ _ Hvalid Hexec) as (l & Hl & Hcalls);
    [by rewrite Hr|].
  rewrite Hr in Hl. simpl in Hl. simplify_eq.
  pose proof (post_execution_order _ _ _ _ Hpost) as Horder.
  rewrite Hfresh in Horder. simpl in Horder.
  split_and!; [done|simpl; by rewrite Horder|done..].
Qed.

(** ** Failure isolation *)

(** C1, as the code has it.  On a pipeline that passes validation and
    whose work functions raise nothing but [Exception]s, [execute] returns
    its dictionary: no raise leaves it.  In the loop, a task whose work
    function raises an [Exception] is appended to the failed list, and the
    loop goes on; an iteration that finds no runnable task, tasks being
    left to record, sets every PENDING task to SKIPPED and leaves the loop.
    In the run, a task that was PENDING, had all its dependencies completed
    and whose work function raises is in [failed_tasks]; a task that was
    PENDING and depends, directly or not, on a task of [failed_tasks] is
    SKIPPED and is in neither list.  So for [a] whose work function raises,
    [b] that depends on [a] and [c] with no dependency whose work function
    returns, none of which has run: [a] is in [failed_tasks], [b] is
    SKIPPED, [c] is in [completed_tasks] and [success] is false. *)
Theorem execute_isolates_failures (self : Pipeline.Pipeline)
    (initial_context : option Ctx) (env : Env) :
  wf self →
  Pipeline.validate self = [] →
  only_Exceptions (Pipeline.tasks self) →
  ∃ self' env' r completed failed,
    Pipeline.execute self initial_context env = Some (self', env', Return r) ∧
    Result.completed_tasks r = Some completed ∧
    Result.failed_tasks r = Some failed ∧
    Result.success r = bool_decide (failed = []) ∧
    (∀ k t st context' e,
       Task.func t (Pipeline.context (Pipeline.pipeline st)) = (context', Raise e) →
       exc_is_Exception e = true →
       ∃ st',
         Pipeline.run_task (k, t) st = (st', None) ∧
         Pipeline.failed st' = Pipeline.failed st ++ [Task.name t] ∧
         Pipeline.completed st' = Pipeline.completed st) ∧
    (∀ fuel st,
       recorded st < length (Pipeline.tasks (Pipeline.pipeline st)) →
       filter (Pipeline.runnable (Pipeline.completed st))
         (Pipeline.tasks (Pipeline.pipeline st)) = [] →
       Pipeline.schedule (S fuel) st = Some (swept st, None) ∧
       ∀ k t,
         dict_get k (Pipeline.tasks (Pipeline.pipeline st)) = Some t →
         Task.status t = PENDING →
         status_of (Pipeline.tasks (Pipeline.pipeline (swept st))) k = Some SKIPPED) ∧
    (∀ k t,
       dict_get k (Pipeline.tasks self) = Some t →
       Task.status t = PENDING →
       (∀ dep, dep ∈ Task.dependencies t → dep ∈ completed) →
       always_raises (Task.func t) →
       k ∈ failed) ∧
    (∀ b tb a,
       dict_get b (Pipeline.tasks self) = Some tb →
       Task.status tb = PENDING →
       tc (depends_on (Pipeline.tasks self)) b a →
       a ∈ failed →
       status_of (Pipeline.tasks self') b = Some SKIPPED ∧
       (b ∉ completed) ∧ (b ∉ failed)) ∧
    (∀ a b c fa fb fc,
       pending_task (Pipeline.tasks self) a [] fa →
       pending_task (Pipeline.tasks self) b [a] fb →
       pending_task (Pipeline.tasks self) c [] fc →
       always_raises fa →
       always_returns fc →
       a ∈ failed ∧
       status_of (Pipeline.tasks self') b = Some SKIPPED ∧
       (b ∉ completed) ∧ (b ∉ failed) ∧
       c ∈ completed ∧
       Result.success r = false).
Proof.
  intros Hwf Hvalid Hexc.
  destruct (execute_returns self initial_context env Hvalid Hexc)
    as (self' & env' & r & Hexec).
  destruct (execute_returns_post _ _ _ _ _ _ Hwf Hvalid Hexec)
    as (completed & failed & -> & Hpost).
  eexists self', env', _, completed, failed.
  assert (∀ b tb a,
            dict_get b (Pipeline.tasks self) = Some tb →
            Task.status tb = PENDING →
            tc (depends_on (Pipeline.tasks self)) b a →
            a ∈ failed →
            status_of (Pipeline.tasks self') b = Some SKIPPED ∧
            (b ∉ completed) ∧ (b ∉ failed)) as Hblocked.
  { intros b tb a Hb Hpending Hpath Ha.
    eapply (post_blocked _ _ _ _ Hpost); [done..|].
    intros Hc. by eapply (post_disjoint _ _ _ _ Hpost). }
  split_and!; [done..| | | | |done|].
  - simpl. apply bool_decide_ext, length_zero_iff_nil.
  - intros k t st context' e Hraise He.
    unfold Pipeline.run_task, Task.execute. simpl. rewrite Hraise. simpl.
    rewrite He. simpl. rewrite He. eexists. split; [reflexivity|]. done.
  - intros fuel st Hcond Hrs. split.
    + rewrite schedule_S. cbv zeta.
      rewrite (decide_True (P := recorded st < _)) by done.
      by rewrite (decide_True (P := filter _ _ = [])).
    + intros k t Ht Hpending. unfold status_of, swept. simpl.
      rewrite skip_pending_get, Ht. simpl. by rewrite decide_True.
  - intros k t. by apply (post_raises _ _ _ _ Hpost).
  - intros a b c fa fb fc (ta & Hta & Hpa & Hda & <-) (tb & Htb & Hpb & Hdb & <-)
      (tc & Htc & Hpc & Hdc & <-) Hraises Hreturns.
    assert (a ∈ failed) as Ha.
    { eapply (post_raises _ _ _ _ Hpost); [done..| |done].
      rewrite Hda. by intros ? ?%elem_of_nil. }
    destruct (Hblocked b tb a) as (Hb & ? & ?); [done..| |done|].
    { apply tc_once. exists tb. split; [done|]. rewrite Hdb. left. }
    split_and!; [done..| |].
    + eapply (post_returns _ _ _ _ Hpost); [done..| |done].
      rewrite Hdc. by intros ? ?%elem_of_nil.
    + simpl. apply bool_decide_eq_false. destruct failed; [|done].
      by apply elem_of_nil in Ha.
Qed.

(** ** The statements at concrete pipelines *)

Lemma only_Exceptions_nil : only_Exceptions [].
Proof. by intros k t ? ? ? ?%elem_of_nil. Qed.

Lemma only_Exceptions_cons k t ts :
  (∀ context context' e,
     Task.func t context = (context', Raise e) → exc_is_Exception e = true) →
  only_Exceptions ts →
  only_Exceptions ((k, t) :: ts).
Proof.
  intros Ht Hts k1 t1 context context' e [[= -> ->]|Hin]%elem_of_cons Hraise.
  - by eapply Ht.
  - by eapply Hts.
Qed.

Lemma execute_isolates_failures_witness :
  let self := Examples.isolation in
  wf self ∧
  Pipeline.validate self = [] ∧
  only_Exceptions (Pipeline.tasks self) ∧
  ∃ self' env' r completed failed,
    Pipeline.execute self None Examples.env0 = Some (self', env', Return r) ∧
    Result.completed_tasks r = Some completed ∧
    Result.failed_tasks r = Some failed ∧
    "A" ∈ failed ∧
    status_of (Pipeline.tasks self') "B" = Some SKIPPED ∧
    ("B" ∉ completed) ∧ ("B" ∉ failed) ∧
    "C" ∈ completed ∧
    Result.success r = false.
Proof.
  cbv zeta.
  assert (wf Examples.isolation) as Hwf by (apply wf_example; vm_compute; reflexivity).
  assert (Pipeline.validate Examples.isolation = []) as Hvalid
    by (vm_compute; reflexivity).
  assert (only_Exceptions (Pipeline.tasks Examples.isolation)) as Hexc.
  { assert (Pipeline.tasks Examples.isolation =
            [("A", Examples.task "A" (Examples.raises_ValueError "boom") []);
             ("B", Examples.task "B" (Examples.returns "b" (VInt 2)) ["A"]);
             ("C", Examples.task "C" (Examples.returns "c" (VInt 3)) [])]) as ->
      by (vm_compute; reflexivity).
    repeat apply only_Exceptions_cons; try apply only_Exceptions_nil;
      intros context context' e [= _ <-]; reflexivity. }
  split; [exact Hwf|]. split; [exact Hvalid|]. split; [exact Hexc|].
  destruct (execute_isolates_failures Examples.isolation None Examples.env0
              Hwf Hvalid Hexc)
    as (self' & env' & r & completed & failed & Hexec & Hc & Hf & _ & _ & _ & _ & _ & Habc).
  exists self', env', r, completed, failed.
  split; [exact Hexec|]. split; [exact Hc|]. split; [exact Hf|].
  apply (Habc "A" "B" "C" (Examples.raises_ValueError "boom")
           (Examples.returns "b" (VInt 2)) (Examples.returns "c" (VInt 3))).
  - exists (Examples.task "A" (Examples.raises_ValueError "boom") []).
    split; [vm_compute; reflexivity|]. repeat split.
  - exists (Examples.task "B" (Examples.returns "b" (VInt 2)) ["A"]).
    split; [vm_compute; reflexivity|]. repeat split.
  - exists (Examples.task "C" (Examples.returns "c" (VInt 3)) []).
    split; [vm_compute; reflexivity|]. repeat split.
  - intros context. eexists _, _. reflexivity.
  - intros context. eexists _, _. reflexivity.
Defined.

(** C1 fails as stated, twice.  The first pipeline passes validation, the
    work function of its task A raises, and the raise leaves [execute]: no
    dictionary is returned and A is in no list.  The second passes
    validation too; its task A fails and is in [failed_tasks]; its task B,
    which depends on A and had completed before A was replaced, is not
    SKIPPED by the run. *)
Lemma execute_does_not_isolate :
  (Pipeline.validate Examples.exiting = [] ∧
   Pipeline.execute Examples.exiting None Examples.env0 =
     Some (Examples.after_execute Examples.exiting,
           Examples.env_after_execute Examples.exiting,
           Raise {| exc_is_Exception := false; exc_str := "bye" |}) ∧
   status_of (Pipeline.tasks (Examples.after_execute Examples.exiting)) "A" =
     Some RUNNING) ∧
  (Pipeline.validate Examples.replaced = [] ∧
   Pipeline.execute Examples.replaced None Examples.env0 =
     Some (Examples.after_execute Examples.replaced,
           Examples.env_after_execute Examples.replaced,
           Return (Examples.result_of_execute Examples.replaced)) ∧
   Result.failed_tasks (Examples.result_of_execute Examples.replaced) = Some ["A"] ∧
   depends_on (Pipeline.tasks Examples.replaced) "B" "A" ∧
   status_of (Pipeline.tasks Examples.replaced) "B" = Some COMPLETED ∧
   status_of (Pipeline.tasks (Examples.after_execute Examples.replaced)) "B" =
     Some COMPLETED).
Proof.
  split.
  - split_and!; vm_compute; reflexivity.
  - split; [vm_compute; reflexivity|]. split; [vm_compute; reflexivity|].
    split; [vm_compute; reflexivity|]. split; [|split; vm_compute; reflexivity].
    eexists.
    split; [vm_compute; reflexivity|].
    apply (bool_decide_unpack _). vm_compute. exact I.
Qed.

Lemma validate_empty_iff_dag_witness :
  let self := Examples.dangling in
  wf self ∧
  (Pipeline.validate self = [] ↔
   no_missing_dependency (Pipeline.tasks self) ∧ ¬ has_cycle (Pipeline.tasks self)) ∧
  ∃ msg, msg ∈ Pipeline.validate self ∧ mentions "B" msg ∧ mentions "nope" msg.
Proof.
  cbv zeta.
  assert (wf Examples.dangling) as Hwf by (apply wf_example; vm_compute; reflexivity).
  destruct (validate_empty_iff_dag Examples.dangling Hwf) as [Hiff Hmsg].
  split; [exact Hwf|]. split; [exact Hiff|].
  apply (Hmsg "B" (Examples.task "B" (Examples.returns "b" (VInt 2)) ["A"; "nope"]) "nope").
  - apply dict_get_Some_elem. vm_compute. reflexivity.
  - apply (bool_decide_unpack _). vm_compute. exact I.
  - apply (bool_decide_unpack _). vm_compute. exact I.
Defined.

Lemma execute_linear_chain_witness :
  let self := Examples.chain in
  wf self ∧
  dict_keys (Pipeline.tasks self) ≡ₚ ["A"; "B"; "C"] ∧
  Pipeline.execution_order self = [] ∧
  ∃ self' env' r,
    Pipeline.execute self None Examples.env0 = Some (self', env', Return r) ∧
    calls env' = ["A"; "B"; "C"] ∧
    Result.execution_order r = Some ["A"; "B"; "C"] ∧
    Pipeline.execution_order self' = ["A"; "B"; "C"] ∧
    Result.completed_tasks r = Some ["A"; "B"; "C"] ∧
    Result.failed_tasks r = Some [] ∧
    Result.success r = true.
Proof.
  cbv zeta.
  assert (wf Examples.chain) as Hwf by (apply wf_example; vm_compute; reflexivity).
  assert (dict_keys (Pipeline.tasks Examples.chain) ≡ₚ ["A"; "B"; "C"]) as Hkeys
    by (apply (bool_decide_unpack _); vm_compute; exact I).
  split; [exact Hwf|]. split; [exact Hkeys|]. split; [reflexivity|].
  apply (execute_linear_chain Examples.chain None Examples.env0 "A" "B" "C"
           (Examples.returns "a" (VInt 1)) (Examples.returns "b" (VInt 2))
           (Examples.returns "c" (VInt 3)) Hwf Hkeys eq_refl).
  - exists (Examples.task "A" (Examples.returns "a" (VInt 1)) []).
    split; [vm_compute; reflexivity|]. repeat split.
  - exists (Examples.task "B" (Examples.returns "b" (VInt 2)) ["A"]).
    split; [vm_compute; reflexivity|]. repeat split.
  - exists (Examples.task "C" (Examples.returns "c" (VInt 3)) ["B"]).
    split; [vm_compute; reflexivity|]. repeat split.
  - intros context. eexists _, _. reflexivity.
  - intros context. eexists _, _. reflexivity.
  - intros context. eexists _, _. reflexivity.
Defined.

Lemma execute_again_after_completion_witness :
  let self := Examples.chain in
  let self1 := Examples.after_execute self in
  let env1 := Examples.env_after_execute self in
  let r1 := Examples.result_of_execute self in
  wf self ∧
  Pipeline.execute self None Examples.env0 = Some (self1, env1, Return r1) ∧
  Result.completed_tasks r1 = Some ["A"; "B"; "C"] ∧
  (∀ kt, kt ∈ Pipeline.tasks self1 → Task.status kt.2 = COMPLETED) ∧
  ∃ r2,
    Pipeline.execute self1 None env1 =
      Some (Pipeline.set_context (or_empty None) self1, env1, Return r2) ∧
    Result.success r2 = true ∧
    Result.completed_tasks r2 = Some [] ∧
    Result.failed_tasks r2 = Some [] ∧
    Result.execution_order r2 = Some (Pipeline.execution_order self1) ∧
    Result.execution_order r2 = Result.execution_order r1.
Proof.
  cbv zeta.
  assert (wf Examples.chain) as Hwf by (apply wf_example; vm_compute; reflexivity).
  assert (∀ k, k ∈ dict_keys (Pipeline.tasks Examples.chain) → k ∈ ["A"; "B"; "C"])
    as Hall by (apply Forall_forall, (bool_decide_unpack _); vm_compute; exact I).
  assert (Pipeline.execute Examples.chain None Examples.env0 =
          Some (Examples.after_execute Examples.chain,
                Examples.env_after_execute Examples.chain,
                Return (Examples.result_of_execute Examples.chain))) as Hexec
    by (vm_compute; reflexivity).
  assert (Result.completed_tasks (Examples.result_of_execute Examples.chain) =
          Some ["A"; "B"; "C"]) as Hcompleted by (vm_compute; reflexivity).
  split; [exact Hwf|]. split; [exact Hexec|]. split; [exact Hcompleted|].
  apply (execute_again_after_completion
           Examples.chain None Examples.env0 _ _ _ None Hwf Hexec).
  exists ["A"; "B"; "C"]. split; [exact Hcompleted | exact Hall].
Defined.

(** This run has a SKIPPED task and is a success. *)
Lemma execute_success_iff_none_failed_witness :
  let self := Examples.extended in
  let self' := Examples.after_execute self in
  let r := Examples.result_of_execute self in
  wf self ∧
  Pipeline.validate self = [] ∧
  Pipeline.execute self None Examples.env0 =
    Some (self', Examples.env_after_execute self, Return r) ∧
  status_of (Pipeline.tasks self') "C" = Some SKIPPED ∧
  Result.success r = true ∧
  ∃ completed failed,
    Result.completed_tasks r = Some completed ∧
    Result.failed_tasks r = Some failed ∧
    (Result.success r = true ↔ failed = []) ∧
    ∀ k t,
      (k, t) ∈ Pipeline.tasks self' →
      Task.status t = SKIPPED →
      (Task.name t ∉ completed) ∧ (Task.name t ∉ failed).
Proof.
  cbv zeta.
  assert (wf Examples.extended) as Hwf by (apply wf_example; vm_compute; reflexivity).
  assert (Pipeline.validate Examples.extended = []) as Hvalid by (vm_compute; reflexivity).
  assert (Pipeline.execute Examples.extended None Examples.env0 =
          Some (Examples.after_execute Examples.extended,
                Examples.env_after_execute Examples.extended,
                Return (Examples.result_of_execute Examples.extended))) as Hexec
    by (vm_compute; reflexivity).
  split; [exact Hwf|]. split; [exact Hvalid|]. split; [exact Hexec|].
  split; [vm_compute; reflexivity|]. split; [vm_compute; reflexivity|].
  exact (execute_success_iff_none_failed
           Examples.extended None Examples.env0 _ _ _ Hwf Hvalid Hexec).
Defined.

(** C9 fails as stated: the first iteration of this run finds two runnable
    tasks and executes the first, A, which leaves the PENDING status and is
    appended to neither list; the loop is left by the raise. *)
Lemma execute_exit_leaves_loop :
  let st := start Examples.exiting Examples.env0 in
  let rs := filter (Pipeline.runnable (Pipeline.completed st))
              (Pipeline.tasks (Pipeline.pipeline st)) in
  let st' := (Pipeline.run_tasks rs st).1 in
  let e := {| exc_is_Exception := false; exc_str := "bye" |} in
  Pipeline.validate Examples.exiting = [] ∧
  rs.*1 = ["A"; "C"] ∧
  (Pipeline.run_tasks rs st).2 = Some e ∧
  status_of (Pipeline.tasks (Pipeline.pipeline st')) "A" = Some RUNNING ∧
  Pipeline.completed st' = [] ∧
  Pipeline.failed st' = [] ∧
  Pipeline.execute Examples.exiting None Examples.env0 =
    Some (Pipeline.pipeline st', Pipeline.env st', Raise e).
Proof. cbv zeta. split_and!; vm_compute; reflexivity. Qed.

(** * Further properties of the module *)

(** The two pipelines the statements below are evaluated at. *)
Lemma isolation_wf : wf Examples.isolation.
Proof. apply wf_example. vm_compute. reflexivity. Qed.

Lemma isolation_valid : Pipeline.validate Examples.isolation = [].
Proof. vm_compute. reflexivity. Qed.

Lemma isolation_execute :
  Pipeline.execute Examples.isolation None Examples.env0 =
    Some (Examples.after_execute Examples.isolation,
          Examples.env_after_execute Examples.isolation,
          Return (Examples.result_of_execute Examples.isolation)).
Proof. vm_compute. reflexivity. Qed.

Lemma chain_wf : wf Examples.chain.
Proof. apply wf_example. vm_compute. reflexivity. Qed.

Lemma chain_valid : Pipeline.validate Examples.chain = [].
Proof. vm_compute. reflexivity. Qed.

Lemma chain_execute :
  Pipeline.execute Examples.chain None Examples.env0 =
    Some (Examples.after_execute Examples.chain,
          Examples.env_after_execute Examples.chain,
          Return (Examples.result_of_execute Examples.chain)).
Proof. vm_compute. reflexivity. Qed.


(** ** Task.can_run *)

(** X1.  [can_run] is monotone in the completed names and looks at
    nothing but which names the list holds: a task that can run with
    [completed] can run with any list that holds the same names or more,
    whatever their order and repetitions. *)
Theorem can_run_monotone (self : Task.Task) (completed completed' : list string) :
  (∀ k, k ∈ completed → k ∈ completed') →
  Task.can_run self completed = true →
  Task.can_run self completed' = true.
Proof. rewrite !can_run_true. auto. Qed.

Lemma can_run_monotone_witness :
  let self := Examples.task "D" (Examples.returns "d" VNone) ["B"; "C"] in
  (∀ k, k ∈ ["B"; "C"] → k ∈ ["C"; "A"; "B"; "C"]) ∧
  Task.can_run self ["B"; "C"] = true ∧
  Task.can_run self ["C"; "A"; "B"; "C"] = true.
Proof.
  cbv zeta.
  assert (∀ k, k ∈ ["B"; "C"] → k ∈ ["C"; "A"; "B"; "C"]) as Hsub
    by (apply Forall_forall, (bool_decide_unpack _); vm_compute; exact I).
  assert (Task.can_run (Examples.task "D" (Examples.returns "d" VNone) ["B"; "C"])
            ["B"; "C"] = true) as Hrun by (vm_compute; reflexivity).
  split; [exact Hsub|]. split; [exact Hrun|].
  exact (can_run_monotone _ _ _ Hsub Hrun).
Defined.

(** ** Pipeline.add_task and Pipeline.remove_task *)

Lemma dict_get_del {V} (d : list (string * V)) k k' :
  dict_get k' (dict_del k d) = if decide (k' = k) then None else dict_get k' d.
Proof.
  unfold dict_del. induction d as [|[k0 v0] d IH]; simpl.
  - by case_decide.
  - destruct (decide (k0 = k)) as [->|Hne].
    + rewrite filter_cons_False by (simpl; auto). rewrite IH.
      case_decide; [done|]. by rewrite decide_False.
    + rewrite filter_cons_True by done. simpl. rewrite IH.
      destruct (decide (k0 = k')) as [->|]; [by rewrite decide_False|done].
Qed.

Lemma dict_keys_del {V} (d : list (string * V)) k :
  dict_keys (dict_del k d) = filter (λ k', k' ≠ k) (dict_keys d).
Proof.
  unfold dict_del, dict_keys. induction d as [|[k0 v0] d IH]; [done|].
  rewrite fmap_cons. simpl. destruct (decide (k0 = k)) as [->|Hne].
  - rewrite !filter_cons_False by (simpl; auto). done.
  - rewrite !filter_cons_True by done. rewrite fmap_cons. simpl. by f_equal.
Qed.

Lemma dict_del_absent {V} (d : list (string * V)) k :
  k ∉ dict_keys d → dict_del k d = d.
Proof.
  unfold dict_del, dict_keys. induction d as [|[k0 v0] d IH]; [done|].
  rewrite fmap_cons, not_elem_of_cons. simpl. intros [Hne Hk].
  rewrite filter_cons_True by (simpl; congruence). f_equal. auto.
Qed.

Lemma dict_del_set_new {V} (d : list (string * V)) k v :
  k ∉ dict_keys d → dict_del k (dict_set k v d) = d.
Proof.
  unfold dict_del, dict_keys. induction d as [|[k0 v0] d IH]; simpl.
  - intros _. by rewrite filter_cons_False by (simpl; auto).
  - rewrite not_elem_of_cons. intros [Hne Hk].
    rewrite decide_False by done.
    rewrite filter_cons_True by (simpl; congruence). f_equal. auto.
Qed.

(** X2.  After [add_task task], looking up the name of [task] gives
    [task] and every other name gives what it gave before; a task of the
    same name is replaced where it stood (the keys, and so the order in
    which tasks are considered, are unchanged), a new name goes last; the
    execution order and the context of the pipeline are not touched. *)
Theorem add_task_lookup (task : Task.Task) (self : Pipeline.Pipeline) (k : string) :
  let self' := Pipeline.add_task task self in
  dict_get k (Pipeline.tasks self') =
    (if decide (k = Task.name task) then Some task
     else dict_get k (Pipeline.tasks self)) ∧
  dict_keys (Pipeline.tasks self') =
    (if decide (Task.name task ∈ dict_keys (Pipeline.tasks self))
     then dict_keys (Pipeline.tasks self)
     else dict_keys (Pipeline.tasks self) ++ [Task.name task]) ∧
  Pipeline.execution_order self' = Pipeline.execution_order self ∧
  Pipeline.context self' = Pipeline.context self.
Proof.
  simpl. split_and!; [| |done..].
  - case_decide as Hk; [subst; apply dict_get_set_eq|].
    by rewrite dict_get_set_ne.
  - case_decide; [by apply dict_keys_set_elem | by apply dict_keys_set_new].
Qed.

(** X3.  After [remove_task name], [name] is not a key any more, every
    other name gives what it gave before and the remaining keys keep their
    order; removing a name the pipeline does not hold changes nothing. *)
Theorem remove_task_lookup (name : string) (self : Pipeline.Pipeline) (k : string) :
  let self' := Pipeline.remove_task name self in
  dict_get k (Pipeline.tasks self') =
    (if decide (k = name) then None else dict_get k (Pipeline.tasks self)) ∧
  dict_keys (Pipeline.tasks self') =
    filter (λ k', k' ≠ name) (dict_keys (Pipeline.tasks self)) ∧
  (name ∉ dict_keys (Pipeline.tasks self) → self' = self) ∧
  Pipeline.execution_order self' = Pipeline.execution_order self ∧
  Pipeline.context self' = Pipeline.context self.
Proof.
  cbv zeta. unfold Pipeline.remove_task.
  destruct (dict_in name (Pipeline.tasks self)) eqn:Hin; simpl.
  - apply dict_in_true in Hin.
    split_and!; [apply dict_get_del|apply dict_keys_del|done..].
  - apply dict_in_false in Hin. split_and!; [| |done..].
    + case_decide; [subst; by apply dict_get_None|done].
    + rewrite <- dict_keys_del. by rewrite dict_del_absent.
Qed.

(** X4.  Adding a task under a new name and removing that name again
    gives back the pipeline as it was. *)
Theorem remove_task_add_task (task : Task.Task) (self : Pipeline.Pipeline) :
  Task.name task ∉ dict_keys (Pipeline.tasks self) →
  Pipeline.remove_task (Task.name task) (Pipeline.add_task task self) = self.
Proof.
  intros Hnew. unfold Pipeline.remove_task, Pipeline.add_task. simpl.
  rewrite (proj2 (dict_in_true _ _)).
  - unfold Pipeline.set_tasks. simpl. rewrite dict_del_set_new by done.
    by destruct self.
  - apply dict_get_is_Some. rewrite dict_get_set_eq. eauto.
Qed.

Lemma remove_task_add_task_witness :
  let task := Examples.task "D" (Examples.returns "d" VNone) ["C"] in
  (Task.name task ∉ dict_keys (Pipeline.tasks Examples.chain)) ∧
  Pipeline.remove_task "D" (Pipeline.add_task task Examples.chain) = Examples.chain.
Proof.
  cbv zeta.
  assert ("D" ∉ dict_keys (Pipeline.tasks Examples.chain)) as Hnew
    by (apply (bool_decide_unpack _); vm_compute; exact I).
  split; [exact Hnew|].
  exact (remove_task_add_task
           (Examples.task "D" (Examples.returns "d" VNone) ["C"]) Examples.chain Hnew).
Defined.

(** X5.  The pipelines the module builds keep their invariant: the keys
    of the task mapping are pairwise distinct and every task is stored under
    its own name.  A new pipeline has it, and [add_task], [remove_task] and
    [execute], whatever way it ends, keep it. *)
Theorem pipeline_invariant :
  (∀ name description, wf (Pipeline.init name description)) ∧
  (∀ task self, wf self → wf (Pipeline.add_task task self)) ∧
  (∀ name self, wf self → wf (Pipeline.remove_task name self)) ∧
  (∀ self initial_context env self' env' outcome,
     wf self →
     Pipeline.execute self initial_context env = Some (self', env', outcome) →
     wf self').
Proof.
  split_and!.
  - apply wf_init.
  - apply wf_add_task.
  - apply wf_remove_task.
  - apply wf_execute.
Qed.

(** ** More on Pipeline.validate *)

Lemma search_true_reaches_cycle ts fuel k (visited : gset string) :
  Pipeline.has_circular_dependency_fuel fuel ts k visited = Some true →
  (∀ v, v ∈ visited → tc (depends_on ts) v k) →
  reaches_cycle ts k.
Proof.
  revert k visited. induction fuel as [|fuel IH]; intros k visited; simpl; [done|].
  case_decide as Hk.
  { intros _ Hpath. exists k. split; [done | by apply Hpath]. }
  destruct (dict_get k ts) as [t|] eqn:Ht; [|done].
  intros (dep & Hdep & Hsearch)%for_any_Some_true Hpath.
  assert (depends_on ts k dep) as Hkd by (by exists t).
  apply IH in Hsearch as (c & Hreach & Hcycle).
  - exists c. split; [by eapply rtc_l | done].
  - intros v [->%elem_of_singleton|Hv]%elem_of_union.
    + by apply tc_once.
    + eapply tc_r; eauto.
Qed.

Lemma search_false_not_on_cycle ts fuel k (visited : gset string) :
  Pipeline.has_circular_dependency_fuel fuel ts k visited = Some false →
  ¬ tc (depends_on ts) k k.
Proof.
  intros Hs Hcycle.
  assert (∃ d, depends_on ts k d ∧ rtc (depends_on ts) d k) as (d & Hkd & Hdk).
  { inversion Hcycle as [|? d ? ? Htc]; subst; [by exists k|].
    exists d. split; [done | by apply tc_rtc]. }
  eapply search_false_step in Hs; [|done].
  eapply search_false_reach in Hs as (fuel' & visited' & Hsub & Hs); [|done].
  apply search_false_fresh in Hs. set_solver.
Qed.

Lemma has_circular_dependency_iff (self : Pipeline.Pipeline) k :
  Pipeline._has_circular_dependency self k = true ↔
  reaches_cycle (Pipeline.tasks self) k.
Proof.
  unfold Pipeline._has_circular_dependency.
  destruct (has_circular_dependency_fuel_enough (Pipeline.tasks self) k) as [b Hs].
  rewrite Hs. split.
  - intros ->. eapply search_true_reaches_cycle; [done|]. set_solver.
  - intros (c & Hreach & Hcycle). destruct b; [done|].
    eapply search_false_reach in Hs as (fuel' & visited' & _ & Hs); [|done].
    by apply search_false_not_on_cycle in Hs.
Qed.

Lemma string_app_inv_head (s a b : string) : s +:+ a = s +:+ b → a = b.
Proof.
  induction s as [|c s IH]; [done|].
  change (String c (s +:+ a) = String c (s +:+ b) → a = b).
  intros [=]. auto.
Qed.

Lemma circular_message_inj k k' :
  Pipeline.circular_message k = Pipeline.circular_message k' → k = k'.
Proof. apply string_app_inv_head. Qed.

Lemma circular_message_not_missing k a b :
  Pipeline.circular_message k ≠ Pipeline.missing_message a b.
Proof.
  intros H.
  apply (f_equal (λ s, match s with String c _ => Some c | EmptyString => None end)) in H.
  vm_compute in H. discriminate.
Qed.

(** X6.  [validate] reports a circular dependency for a task exactly
    when following dependencies from it leads to a cycle: for the tasks on
    a cycle, and for every task that depends on one of them, directly or
    not, though it is on no cycle itself. *)
Theorem validate_reports_cycles_reached (self : Pipeline.Pipeline) (k : string) :
  Pipeline.circular_message k ∈ Pipeline.validate self ↔
  k ∈ dict_keys (Pipeline.tasks self) ∧ reaches_cycle (Pipeline.tasks self) k.
Proof.
  unfold Pipeline.validate. rewrite elem_of_app. split.
  - intros [Hin|Hin].
    + apply list_elem_of_bind in Hin as ([k' t] & Hmsg & Hkt). simpl in Hmsg.
      destruct (Pipeline._has_circular_dependency self k') eqn:Hk';
        [|by apply elem_of_nil in Hmsg].
      apply list_elem_of_singleton, circular_message_inj in Hmsg as ->.
      split; [by eapply dict_elem_key | by apply has_circular_dependency_iff].
    + apply list_elem_of_bind in Hin as ([a t] & Hin & _). simpl in Hin.
      apply list_elem_of_bind in Hin as (b & Hin & _).
      destruct (dict_in b (Pipeline.tasks self)); [by apply elem_of_nil in Hin|].
      apply list_elem_of_singleton in Hin.
      by apply circular_message_not_missing in Hin.
  - intros [([k' t] & -> & Hkt)%list_elem_of_fmap Hreach]. left.
    apply list_elem_of_bind. exists (k', t). split; [|done]. cbn [fst] in *.
    apply has_circular_dependency_iff in Hreach. rewrite Hreach. left.
Qed.

Lemma dict_get_dependency_graph ts k :
  dict_get k (dependency_graph ts) = Task.dependencies <$> dict_get k ts.
Proof.
  induction ts as [|[k' t] ts IH]; simpl; [done|]. by case_decide.
Qed.

Lemma dict_keys_dependency_graph ts :
  dict_keys (dependency_graph ts) = dict_keys ts.
Proof.
  unfold dict_keys, dependency_graph. rewrite <- list_fmap_compose.
  by apply list_fmap_ext.
Qed.

Lemma dependency_graph_set ts k t :
  dependency_graph (dict_set k t ts) =
  dict_set k (Task.dependencies t) (dependency_graph ts).
Proof.
  induction ts as [|[k' t'] ts IH]; simpl; [done|].
  case_decide; simpl; [done | by f_equal].
Qed.

Lemma dict_set_same {V} (d : list (string * V)) k v :
  dict_get k d = Some v → dict_set k v d = d.
Proof.
  induction d as [|[k' v'] d IH]; simpl; [done|].
  case_decide; [intros [= ->]; by subst | intros; f_equal; auto].
Qed.

Lemma depends_on_graph ts ts' a b :
  dependency_graph ts = dependency_graph ts' →
  depends_on ts a b → depends_on ts' a b.
Proof.
  intros Hg (t & Ht & Hb).
  pose proof (dict_get_dependency_graph ts' a) as Ha.
  rewrite <- Hg, dict_get_dependency_graph, Ht in Ha. simpl in Ha.
  destruct (dict_get a ts') as [t'|] eqn:Ht'; simpl in Ha; [|done].
  injection Ha as Ha. exists t'. split; [done | by rewrite <- Ha].
Qed.

Lemma for_any_ext {A} (f g : A → option bool) l :
  (∀ x, f x = g x) → for_any f l = for_any g l.
Proof. intros H. induction l as [|x l IH]; simpl; [done|]. by rewrite H, IH. Qed.

Lemma search_graph ts ts' fuel k (visited : gset string) :
  dependency_graph ts = dependency_graph ts' →
  Pipeline.has_circular_dependency_fuel fuel ts k visited =
  Pipeline.has_circular_dependency_fuel fuel ts' k visited.
Proof.
  intros Hg. revert k visited.
  induction fuel as [|fuel IH]; intros k visited; simpl; [done|].
  case_decide; [done|].
  pose proof (dict_get_dependency_graph ts k) as Hk.
  rewrite Hg, dict_get_dependency_graph in Hk.
  destruct (dict_get k ts) as [t|], (dict_get k ts') as [t'|]; simpl in Hk; try done.
  injection Hk as Hk. rewrite Hk. by apply for_any_ext.
Qed.

Lemma bind_fmap_eq {A B C} (f : A → C) (h h' : A → list B) (l l' : list A) :
  f <$> l = f <$> l' →
  (∀ x x', f x = f x' → h x = h' x') →
  l ≫= h = l' ≫= h'.
Proof.
  intros Hl Hh. revert l' Hl.
  induction l as [|x l IH]; intros [|x' l']; simpl; try done.
  intros [= Hx Hl]. f_equal; auto.
Qed.

Lemma validate_dependency_graph (self self' : Pipeline.Pipeline) :
  dependency_graph (Pipeline.tasks self) = dependency_graph (Pipeline.tasks self') →
  Pipeline.validate self = Pipeline.validate self'.
Proof.
  intros Hg.
  assert (length (Pipeline.tasks self) = length (Pipeline.tasks self')) as Hlen.
  { apply (f_equal length) in Hg. unfold dependency_graph in Hg.
    by rewrite !length_fmap in Hg. }
  assert (∀ k, dict_in k (Pipeline.tasks self) = dict_in k (Pipeline.tasks self')) as Hin.
  { intros k. unfold dict_in.
    by rewrite <- (dict_keys_dependency_graph (Pipeline.tasks self)), Hg,
      dict_keys_dependency_graph. }
  unfold Pipeline.validate. f_equal.
  - unfold Pipeline.circular_errors. eapply bind_fmap_eq; [exact Hg|].
    intros [k t] [k' t'] [= -> _]. cbn [fst].
    unfold Pipeline._has_circular_dependency.
    by rewrite Hlen, (search_graph _ _ _ _ _ Hg).
  - unfold Pipeline.missing_errors. eapply bind_fmap_eq; [exact Hg|].
    intros [k t] [k' t'] [= -> Hdeps]. cbn [fst snd]. rewrite Hdeps.
    apply list_bind_ext; [|done]. intros dep. by rewrite Hin.
Qed.

(** X7.  [validate] reads the keys of the task mapping and the
    dependency lists, and nothing else: two pipelines with the same keys, in
    the same order, and the same dependencies get the same list of errors,
    whatever the statuses, work functions and results of their tasks, their
    contexts and their execution orders. *)
Theorem validate_reads_dependency_graph (self self' : Pipeline.Pipeline) :
  dependency_graph (Pipeline.tasks self) = dependency_graph (Pipeline.tasks self') →
  Pipeline.validate self = Pipeline.validate self'.
Proof. apply validate_dependency_graph. Qed.

Lemma validate_reads_dependency_graph_witness :
  dependency_graph (Pipeline.tasks Examples.dangling) =
    dependency_graph (Pipeline.tasks
      (Examples.pipeline_of
         [Examples.task "A" (Examples.raises_ValueError "boom") [];
          Task.set_status COMPLETED
            (Examples.task "B" (Examples.returns "z" VNone) ["A"; "nope"])])) ∧
  Pipeline.validate Examples.dangling =
    Pipeline.validate
      (Examples.pipeline_of
         [Examples.task "A" (Examples.raises_ValueError "boom") [];
          Task.set_status COMPLETED
            (Examples.task "B" (Examples.returns "z" VNone) ["A"; "nope"])]).
Proof.
  assert (dependency_graph (Pipeline.tasks Examples.dangling) =
    dependency_graph (Pipeline.tasks
      (Examples.pipeline_of
         [Examples.task "A" (Examples.raises_ValueError "boom") [];
          Task.set_status COMPLETED
            (Examples.task "B" (Examples.returns "z" VNone) ["A"; "nope"])]))) as Hg
    by (vm_compute; reflexivity).
  split; [exact Hg|].
  exact (validate_reads_dependency_graph _ _ Hg).
Defined.

(** *** [execute] and the dependency graph *)

Lemma run_task_graph kt st :
  dict_get kt.1 (dependency_graph (Pipeline.tasks (Pipeline.pipeline st))) =
    Some (Task.dependencies kt.2) →
  dependency_graph (Pipeline.tasks (Pipeline.pipeline (Pipeline.run_task kt st).1)) =
  dependency_graph (Pipeline.tasks (Pipeline.pipeline st)).
Proof.
  destruct kt as [k t]. cbn [fst snd]. intros Hk.
  destruct (run_task_cases k t st) as
    [t' c' e' _ _ Hsame _|t' c' e' _ _ Hsame _|t' c' e' e _ Hsame _ _];
    destruct Hsame as (_ & Hdeps & _);
    cbn [fst Pipeline.pipeline Pipeline.tasks Pipeline.set_execution_order
         Pipeline.set_context Pipeline.set_tasks];
    rewrite dependency_graph_set, Hdeps; by apply dict_set_same.
Qed.

Lemma run_tasks_graph rs st :
  (∀ kt, kt ∈ rs →
     dict_get kt.1 (dependency_graph (Pipeline.tasks (Pipeline.pipeline st))) =
       Some (Task.dependencies kt.2)) →
  dependency_graph (Pipeline.tasks (Pipeline.pipeline (Pipeline.run_tasks rs st).1)) =
  dependency_graph (Pipeline.tasks (Pipeline.pipeline st)).
Proof.
  revert st. induction rs as [|kt rs IH]; intros st Hrs; simpl; [done|].
  pose proof (run_task_graph kt st (Hrs kt ltac:(left))) as Hg.
  destruct (Pipeline.run_task kt st) as [st1 [e|]]; simpl in Hg; [done|].
  rewrite IH; [done|]. intros kt' Hkt'. rewrite Hg. apply Hrs. by right.
Qed.

Lemma skip_pending_graph ts :
  dependency_graph (Pipeline.skip_pending ts) = dependency_graph ts.
Proof.
  unfold dependency_graph, Pipeline.skip_pending. rewrite <- list_fmap_compose.
  apply list_fmap_ext. intros _ [k t] _. simpl. by case_decide.
Qed.

Lemma schedule_graph fuel st st' oe :
  dict_wf (Pipeline.tasks (Pipeline.pipeline st)) →
  Pipeline.schedule fuel st = Some (st', oe) →
  dependency_graph (Pipeline.tasks (Pipeline.pipeline st')) =
  dependency_graph (Pipeline.tasks (Pipeline.pipeline st)).
Proof.
  revert st. induction fuel as [|fuel IH]; intros st Hwf; [done|].
  rewrite schedule_S. cbv zeta. case_decide; [|by intros [= <- <-]].
  case_decide. { intros [= <- <-]. apply skip_pending_graph. }
  assert (dependency_graph (Pipeline.tasks (Pipeline.pipeline
            (Pipeline.run_tasks
               (filter (Pipeline.runnable (Pipeline.completed st))
                  (Pipeline.tasks (Pipeline.pipeline st))) st).1)) =
          dependency_graph (Pipeline.tasks (Pipeline.pipeline st))) as Hg.
  { apply run_tasks_graph. intros [k t] [_ Hkt]%list_elem_of_filter.
    rewrite dict_get_dependency_graph. cbn [fst snd].
    by rewrite (dict_get_elem_wf _ _ _ Hwf Hkt). }
  destruct (Pipeline.run_tasks _ st) as [st1 [e|]]; simpl in Hg.
  - by intros [= <- <-].
  - intros Hs. apply IH in Hs; [congruence|].
    unfold dict_wf. rewrite <- dict_keys_dependency_graph, Hg,
      dict_keys_dependency_graph. done.
Qed.

(** X8.  [execute] leaves the dependency graph as it found it, and so
    the answer of [validate]: whatever way a call ends (on a validation
    failure, on a result, or on an exception that leaves it), the pipeline
    reports after it the errors it reported before. *)
Theorem execute_keeps_validate (self : Pipeline.Pipeline)
    (initial_context : option Ctx) (env : Env)
    (self' : Pipeline.Pipeline) (env' : Env) (outcome : Completion Result.Result) :
  dict_wf (Pipeline.tasks self) →
  Pipeline.execute self initial_context env = Some (self', env', outcome) →
  dependency_graph (Pipeline.tasks self') = dependency_graph (Pipeline.tasks self) ∧
  Pipeline.validate self' = Pipeline.validate self.
Proof.
  intros Hwf Hexec.
  assert (dependency_graph (Pipeline.tasks self') =
          dependency_graph (Pipeline.tasks self)) as Hg;
    [|split; [done | by apply validate_dependency_graph]].
  unfold Pipeline.execute in Hexec. cbv zeta in Hexec.
  case_decide; [by simplify_eq|].
  destruct (Pipeline.schedule _ _) as [[st oe]|] eqn:Hs; [|done].
  apply schedule_graph in Hs; [|done].
  destruct oe; by simplify_eq.
Qed.

Lemma execute_keeps_validate_witness :
  dict_wf (Pipeline.tasks Examples.isolation) ∧
  Pipeline.execute Examples.isolation None Examples.env0 =
    Some (Examples.after_execute Examples.isolation,
          Examples.env_after_execute Examples.isolation,
          Return (Examples.result_of_execute Examples.isolation)) ∧
  Pipeline.validate (Examples.after_execute Examples.isolation) =
    Pipeline.validate Examples.isolation.
Proof.
  assert (dict_wf (Pipeline.tasks Examples.isolation)) as Hwf
    by (apply (bool_decide_unpack _); vm_compute; exact I).
  pose proof isolation_execute as Hexec.
  split; [exact Hwf|]. split; [exact Hexec|].
  exact (proj2 (execute_keeps_validate _ _ _ _ _ _ Hwf Hexec)).
Defined.

(** *** Building a valid pipeline *)

Lemma depends_on_add_task task self a b :
  depends_on (Pipeline.tasks (Pipeline.add_task task self)) a b ↔
  (a = Task.name task ∧ b ∈ Task.dependencies task) ∨
  (a ≠ Task.name task ∧ depends_on (Pipeline.tasks self) a b).
Proof.
  unfold depends_on. simpl. destruct (decide (a = Task.name task)) as [->|Hne].
  - rewrite dict_get_set_eq. naive_solver.
  - rewrite dict_get_set_ne by done. naive_solver.
Qed.

(** X9.  A valid pipeline stays valid when a task is added under a name
    it does not hold yet, with dependencies that it holds already: added in
    such an order, the tasks of an acyclic graph never make [validate]
    complain. *)
Theorem add_task_keeps_valid (task : Task.Task) (self : Pipeline.Pipeline) :
  dict_wf (Pipeline.tasks self) →
  Pipeline.validate self = [] →
  Task.name task ∉ dict_keys (Pipeline.tasks self) →
  (∀ dep, dep ∈ Task.dependencies task → dep ∈ dict_keys (Pipeline.tasks self)) →
  Pipeline.validate (Pipeline.add_task task self) = [].
Proof.
  intros Hwf Hvalid Hnew Hdeps.
  apply validate_nil_iff in Hvalid as [Hmiss Hcycle]; [|done].
  assert (dict_keys (Pipeline.tasks (Pipeline.add_task task self)) =
          dict_keys (Pipeline.tasks self) ++ [Task.name task]) as Hkeys
    by (by apply dict_keys_set_new).
  assert (∀ a, ¬ depends_on (Pipeline.tasks (Pipeline.add_task task self)) a
                   (Task.name task)) as Hin.
  { intros a [[_ Hself]|[_ Ha]]%depends_on_add_task; [by apply Hnew, Hdeps|].
    by apply Hnew, (Hmiss a). }
  apply validate_nil_iff.
  { unfold dict_wf. rewrite Hkeys. apply NoDup_app. split_and!; [done| |apply NoDup_singleton].
    intros k Hk ->%list_elem_of_singleton. done. }
  split.
  - intros a b Hab. rewrite Hkeys, elem_of_app. left.
    apply depends_on_add_task in Hab as [[_ Hb]|[_ Hab]]; [by apply Hdeps | by apply (Hmiss a)].
  - intros [a Ha]. apply Hcycle. exists a.
    assert (∀ x y, tc (depends_on (Pipeline.tasks (Pipeline.add_task task self))) x y →
                   y ≠ Task.name task ∧
                   (x ≠ Task.name task → tc (depends_on (Pipeline.tasks self)) x y)) as Hold.
    { induction 1 as [x y Hxy|x d y Hxd _ [Hy IH]].
      - split; [intros ->; by eapply Hin|].
        intros Hx. apply tc_once.
        apply depends_on_add_task in Hxy as [[? _]|[_ ?]]; done.
      - split; [done|]. intros Hx.
        assert (d ≠ Task.name task) as Hd by (intros ->; by eapply Hin).
        eapply tc_l; [|by apply IH].
        apply depends_on_add_task in Hxd as [[? _]|[_ ?]]; done. }
    destruct (Hold _ _ Ha) as [Hne Htc]. by apply Htc.
Qed.

Lemma add_task_keeps_valid_witness :
  let task := Examples.task "D" (Examples.returns "d" VNone) ["C"; "A"] in
  dict_wf (Pipeline.tasks Examples.chain) ∧
  Pipeline.validate Examples.chain = [] ∧
  (Task.name task ∉ dict_keys (Pipeline.tasks Examples.chain)) ∧
  (∀ dep, dep ∈ Task.dependencies task → dep ∈ dict_keys (Pipeline.tasks Examples.chain)) ∧
  Pipeline.validate (Pipeline.add_task task Examples.chain) = [].
Proof.
  cbv zeta.
  assert (dict_wf (Pipeline.tasks Examples.chain)) as Hwf
    by (apply (bool_decide_unpack _); vm_compute; exact I).
  pose proof chain_valid as Hvalid.
  assert ("D" ∉ dict_keys (Pipeline.tasks Examples.chain)) as Hnew
    by (apply (bool_decide_unpack _); vm_compute; exact I).
  assert (∀ dep, dep ∈ ["C"; "A"] → dep ∈ dict_keys (Pipeline.tasks Examples.chain)) as Hdeps
    by (apply Forall_forall, (bool_decide_unpack _); vm_compute; exact I).
  split_and!; [exact Hwf|exact Hvalid|exact Hnew|exact Hdeps|].
  exact (add_task_keeps_valid
           (Examples.task "D" (Examples.returns "d" VNone) ["C"; "A"])
           Examples.chain Hwf Hvalid Hnew Hdeps).
Defined.

Lemma depends_on_remove_task name self a b :
  depends_on (Pipeline.tasks (Pipeline.remove_task name self)) a b ↔
  a ≠ name ∧ depends_on (Pipeline.tasks self) a b.
Proof.
  unfold depends_on, Pipeline.remove_task.
  destruct (dict_in name (Pipeline.tasks self)) eqn:Hin; simpl.
  - rewrite dict_get_del. case_decide; naive_solver.
  - apply dict_in_false, dict_get_None in Hin. naive_solver.
Qed.

(** X10.  Removing a task from a valid pipeline leaves it valid exactly
    when no task lists the removed name as a dependency; otherwise
    [validate] reports the dependency as missing, and [execute] will refuse
    to run. *)
Theorem remove_task_keeps_valid (name : string) (self : Pipeline.Pipeline) :
  dict_wf (Pipeline.tasks self) →
  Pipeline.validate self = [] →
  Pipeline.validate (Pipeline.remove_task name self) = [] ↔
  ∀ a, ¬ depends_on (Pipeline.tasks self) a name.
Proof.
  intros Hwf Hvalid.
  apply validate_nil_iff in Hvalid as [Hmiss Hcycle]; [|done].
  assert (dict_keys (Pipeline.tasks (Pipeline.remove_task name self)) =
          filter (λ k, k ≠ name) (dict_keys (Pipeline.tasks self))) as Hkeys.
  { unfold Pipeline.remove_task.
    destruct (dict_in name (Pipeline.tasks self)) eqn:Hin; simpl.
    - apply dict_keys_del.
    - apply dict_in_false in Hin. rewrite <- dict_keys_del. by rewrite dict_del_absent. }
  rewrite validate_nil_iff
    by (unfold dict_wf; rewrite Hkeys; by apply NoDup_filter).
  split.
  - intros [Hmiss' _] a Ha.
    assert (a ≠ name) as Hne.
    { intros ->. apply Hcycle. exists name. by apply tc_once. }
    specialize (Hmiss' a name). rewrite depends_on_remove_task, Hkeys in Hmiss'.
    apply list_elem_of_filter in Hmiss' as [? _]; done.
  - intros Hfree. split.
    + intros a b [Hne Hab]%depends_on_remove_task.
      rewrite Hkeys. apply list_elem_of_filter. split; [|by apply (Hmiss a)].
      intros ->. by apply (Hfree a).
    + intros [a Ha]. apply Hcycle. exists a.
      eapply tc_congruence with (f := id); [|done].
      intros x y [_ ?]%depends_on_remove_task. done.
Qed.

Lemma remove_task_keeps_valid_witness :
  dict_wf (Pipeline.tasks Examples.chain) ∧
  Pipeline.validate Examples.chain = [] ∧
  (Pipeline.validate (Pipeline.remove_task "C" Examples.chain) = [] ↔
   ∀ a, ¬ depends_on (Pipeline.tasks Examples.chain) a "C").
Proof.
  assert (dict_wf (Pipeline.tasks Examples.chain)) as Hwf
    by (apply (bool_decide_unpack _); vm_compute; exact I).
  pose proof chain_valid as Hvalid.
  split_and!; [exact Hwf|exact Hvalid|].
  exact (remove_task_keeps_valid "C" Examples.chain Hwf Hvalid).
Defined.

(** ** More on Pipeline.execute *)

(** In a graph that [validate] accepts, following dependencies ends. *)
Lemma valid_sn (ts : list (string * Task.Task)) k :
  no_missing_dependency ts → ¬ has_cycle ts → sn (depends_on ts) k.
Proof.
  intros Hmiss Hcycle. apply tc_finite_sn.
  - intros a Ha. apply Hcycle. by exists a.
  - exists (dict_keys ts). intros y Hy.
    assert (∃ a, depends_on ts a y) as [a Ha]
      by (induction Hy; eauto).
    by apply (Hmiss a).
Qed.

Section unrecorded.
Context (self self' : Pipeline.Pipeline) (completed failed : list string).
Hypothesis Hwf : wf self.
Hypothesis Hvalid : Pipeline.validate self = [].
Hypothesis Hpost : run_post self self' completed failed.

(** A task that was PENDING and that the run did not execute depends,
    directly or not, on a task that failed or that was not PENDING. *)
Lemma post_unrecorded k t0 :
  dict_get k (Pipeline.tasks self) = Some t0 →
  Task.status t0 = PENDING →
  k ∉ completed → k ∉ failed →
  ∃ d, tc (depends_on (Pipeline.tasks self)) k d ∧
       (d ∈ failed ∨
        ∃ td, dict_get d (Pipeline.tasks self) = Some td ∧ Task.status td ≠ PENDING).
Proof.
  destruct Hwf as [Hdict _].
  apply validate_nil_iff in Hvalid as [Hmiss Hcycle]; [|done].
  revert t0. induction (valid_sn _ k Hmiss Hcycle) as [k _ IH].
  intros t0 Ht0 Hpending Hkc Hkf.
  destruct (decide (Forall (λ dep, dep ∈ completed) (Task.dependencies t0)))
    as [Hall|Hnall].
  { rewrite Forall_forall in Hall.
    pose proof (post_live _ _ _ _ Hpost _ _ Ht0 Hpending Hall) as Hk.
    apply elem_of_app in Hk as [?|?]; done. }
  apply not_Forall_Exists in Hnall; [|apply _].
  apply Exists_exists in Hnall as (dep & Hdep & Hnc). simpl in Hnc.
  assert (depends_on (Pipeline.tasks self) k dep) as Hkd by (by exists t0).
  assert (dep ∈ dict_keys (Pipeline.tasks self)) as [td Htd]%dict_get_is_Some
    by (by apply (Hmiss k)).
  destruct (decide (dep ∈ failed)) as [Hf|Hnf].
  { exists dep. split; [by apply tc_once | by left]. }
  destruct (decide (Task.status td = PENDING)) as [Hp|Hnp].
  - destruct (IH dep Hkd td Htd Hp Hnc Hnf) as (d & Hpath & Hd).
    exists d. split; [by eapply tc_l | done].
  - exists dep. split; [by apply tc_once | right; eauto].
Qed.

Lemma post_was_pending k :
  k ∈ completed ++ failed →
  ∃ t0, dict_get k (Pipeline.tasks self) = Some t0 ∧ Task.status t0 = PENDING.
Proof. intros (t0 & ? & ? & _)%(post_ran _ _ _ _ Hpost). eauto. Qed.

Lemma post_status k t0 :
  dict_get k (Pipeline.tasks self) = Some t0 →
  status_of (Pipeline.tasks self') k =
    Some (if decide (Task.status t0 = PENDING)
          then if decide (k ∈ completed) then COMPLETED
               else if decide (k ∈ failed) then FAILED else SKIPPED
          else Task.status t0) ∧
  (Task.status t0 ≠ PENDING → (k ∉ completed) ∧ (k ∉ failed)).
Proof.
  intros Ht0.
  assert (Task.status t0 ≠ PENDING → (k ∉ completed) ∧ (k ∉ failed)) as Hnp.
  { intros Hnp. split; intros Hk;
      (destruct (post_was_pending k) as (t & ? & ?);
       [apply elem_of_app; auto|congruence]). }
  split; [|done].
  destruct (post_tasks _ _ _ _ Hpost _ _ Ht0) as (t & Ht & _ & Hc & Hf & Hrest).
  unfold status_of. rewrite Ht. simpl. f_equal.
  destruct (decide (Task.status t0 = PENDING)) as [Hp|Hp].
  - destruct (decide (k ∈ completed)); [auto|].
    destruct (decide (k ∈ failed)); [auto|].
    by rewrite Hrest.
  - destruct (Hnp Hp). by rewrite Hrest.
Qed.
End unrecorded.

(** X11.  The tasks of the two lists that [execute] returns are tasks of
    the pipeline, each one listed once, in one list only.  [completed_tasks]
    is in dependency order: whatever a completed task depends on stands
    before it in the list; and all that a failed task depends on completed. *)
Theorem execute_runs_dependencies_first (self : Pipeline.Pipeline)
    (initial_context : option Ctx) (env : Env)
    (self' : Pipeline.Pipeline) (env' : Env) (r : Result.Result) :
  wf self →
  Pipeline.validate self = [] →
  Pipeline.execute self initial_context env = Some (self', env', Return r) →
  ∃ completed failed,
    Result.completed_tasks r = Some completed ∧
    Result.failed_tasks r = Some failed ∧
    NoDup (completed ++ failed) ∧
    (∀ k, k ∈ completed ++ failed → k ∈ dict_keys (Pipeline.tasks self)) ∧
    (∀ before k after dep,
       completed = before ++ k :: after →
       depends_on (Pipeline.tasks self) k dep → dep ∈ before) ∧
    (∀ k dep,
       k ∈ failed → depends_on (Pipeline.tasks self) k dep → dep ∈ completed).
Proof.
  intros Hwf Hvalid Hexec.
  destruct (execute_returns_post _ _ _ _ _ _ Hwf Hvalid Hexec)
    as (completed & failed & -> & Hpost).
  exists completed, failed. split_and!; [done|done|apply Hpost|..].
  - intros k (t0 & Ht0 & _)%(post_ran _ _ _ _ Hpost).
    apply dict_get_is_Some. eauto.
  - intros before k after dep Hsplit (t & Ht & Hdep).
    destruct (post_order _ _ _ _ Hpost _ _ _ Hsplit) as (t0 & Ht0 & Hdeps).
    simplify_eq. by apply Hdeps.
  - intros k dep Hk (t & Ht & Hdep).
    destruct (post_ran _ _ _ _ Hpost k) as (t0 & Ht0 & _ & Hdeps);
      [apply elem_of_app; by right|].
    simplify_eq. by apply Hdeps.
Qed.

Lemma execute_runs_dependencies_first_witness :
  wf Examples.chain ∧
  Pipeline.validate Examples.chain = [] ∧
  Pipeline.execute Examples.chain None Examples.env0 =
    Some (Examples.after_execute Examples.chain,
          Examples.env_after_execute Examples.chain,
          Return (Examples.result_of_execute Examples.chain)) ∧
  ∃ completed failed,
    Result.completed_tasks (Examples.result_of_execute Examples.chain) = Some completed ∧
    Result.failed_tasks (Examples.result_of_execute Examples.chain) = Some failed ∧
    NoDup (completed ++ failed) ∧
    (∀ k, k ∈ completed ++ failed → k ∈ dict_keys (Pipeline.tasks Examples.chain)) ∧
    (∀ before k after dep,
       completed = before ++ k :: after →
       depends_on (Pipeline.tasks Examples.chain) k dep → dep ∈ before) ∧
    (∀ k dep,
       k ∈ failed → depends_on (Pipeline.tasks Examples.chain) k dep → dep ∈ completed).
Proof.
  pose proof chain_wf as Hwf.
  pose proof chain_valid as Hvalid.
  pose proof chain_execute as Hexec.
  split_and!; [exact Hwf|exact Hvalid|exact Hexec|].
  exact (execute_runs_dependencies_first _ _ _ _ _ _ Hwf Hvalid Hexec).
Defined.

(** X12.  The status a run leaves a task in.  A task that is not PENDING
    when [execute] is called is not run and keeps its status.  A PENDING one
    ends COMPLETED, FAILED or SKIPPED, never PENDING or RUNNING, and the two
    lists returned tell which: COMPLETED if it is in [completed_tasks],
    FAILED if it is in [failed_tasks], SKIPPED if it is in neither. *)
Theorem execute_final_status (self : Pipeline.Pipeline)
    (initial_context : option Ctx) (env : Env)
    (self' : Pipeline.Pipeline) (env' : Env) (r : Result.Result)
    (k : string) (t0 : Task.Task) :
  wf self →
  Pipeline.validate self = [] →
  Pipeline.execute self initial_context env = Some (self', env', Return r) →
  dict_get k (Pipeline.tasks self) = Some t0 →
  ∃ completed failed,
    Result.completed_tasks r = Some completed ∧
    Result.failed_tasks r = Some failed ∧
    status_of (Pipeline.tasks self') k =
      Some (if decide (Task.status t0 = PENDING)
            then if decide (k ∈ completed) then COMPLETED
                 else if decide (k ∈ failed) then FAILED else SKIPPED
            else Task.status t0) ∧
    (Task.status t0 ≠ PENDING → (k ∉ completed) ∧ (k ∉ failed)).
Proof.
  intros Hwf Hvalid Hexec Ht0.
  destruct (execute_returns_post _ _ _ _ _ _ Hwf Hvalid Hexec)
    as (completed & failed & -> & Hpost).
  exists completed, failed. split; [done|]. split; [done|].
  exact (post_status _ _ _ _ Hpost k t0 Ht0).
Qed.

Lemma execute_final_status_witness :
  wf Examples.isolation ∧
  Pipeline.validate Examples.isolation = [] ∧
  Pipeline.execute Examples.isolation None Examples.env0 =
    Some (Examples.after_execute Examples.isolation,
          Examples.env_after_execute Examples.isolation,
          Return (Examples.result_of_execute Examples.isolation)) ∧
  dict_get "B" (Pipeline.tasks Examples.isolation) =
    Some (Examples.task "B" (Examples.returns "b" (VInt 2)) ["A"]) ∧
  ∃ completed failed,
    Result.completed_tasks (Examples.result_of_execute Examples.isolation) = Some completed ∧
    Result.failed_tasks (Examples.result_of_execute Examples.isolation) = Some failed ∧
    status_of (Pipeline.tasks (Examples.after_execute Examples.isolation)) "B" =
      Some (if decide (Task.status (Examples.task "B" (Examples.returns "b" (VInt 2)) ["A"])
                       = PENDING)
            then if decide ("B" ∈ completed) then COMPLETED
                 else if decide ("B" ∈ failed) then FAILED else SKIPPED
            else Task.status (Examples.task "B" (Examples.returns "b" (VInt 2)) ["A"])) ∧
    (Task.status (Examples.task "B" (Examples.returns "b" (VInt 2)) ["A"]) ≠ PENDING →
     ("B" ∉ completed) ∧ ("B" ∉ failed)).
Proof.
  pose proof isolation_wf as Hwf.
  pose proof isolation_valid as Hvalid.
  pose proof isolation_execute as Hexec.
  assert (dict_get "B" (Pipeline.tasks Examples.isolation) =
    Some (Examples.task "B" (Examples.returns "b" (VInt 2)) ["A"])) as Ht0
    by (vm_compute; reflexivity).
  split_and!; [exact Hwf|exact Hvalid|exact Hexec|exact Ht0|].
  exact (execute_final_status _ _ _ _ _ _ _ _ Hwf Hvalid Hexec Ht0).
Defined.

(** X13.  What a run skips.  A task that is PENDING when [execute] is
    called ends SKIPPED exactly when it depends, directly or not, on a task
    that failed in the run or that was not PENDING at the call (a task left
    COMPLETED by an earlier call is not in the list of this run's completed
    tasks, so it blocks what depends on it).  Every other PENDING task was
    run. *)
Theorem execute_skips_exactly_blocked (self : Pipeline.Pipeline)
    (initial_context : option Ctx) (env : Env)
    (self' : Pipeline.Pipeline) (env' : Env) (r : Result.Result)
    (k : string) (t0 : Task.Task) :
  wf self →
  Pipeline.validate self = [] →
  Pipeline.execute self initial_context env = Some (self', env', Return r) →
  dict_get k (Pipeline.tasks self) = Some t0 →
  Task.status t0 = PENDING →
  ∃ completed failed,
    Result.completed_tasks r = Some completed ∧
    Result.failed_tasks r = Some failed ∧
    (status_of (Pipeline.tasks self') k = Some SKIPPED ↔
     ∃ d, tc (depends_on (Pipeline.tasks self)) k d ∧
          (d ∈ failed ∨
           ∃ td, dict_get d (Pipeline.tasks self) = Some td ∧
                 Task.status td ≠ PENDING)) ∧
    (status_of (Pipeline.tasks self') k ≠ Some SKIPPED → k ∈ completed ++ failed).
Proof.
  intros Hwf Hvalid Hexec Ht0 Hpending.
  destruct (execute_returns_post _ _ _ _ _ _ Hwf Hvalid Hexec)
    as (completed & failed & -> & Hpost).
  exists completed, failed. split; [done|]. split; [done|].
  destruct (post_status _ _ _ _ Hpost k t0 Ht0) as [Hstatus _].
  rewrite decide_True in Hstatus by done.
  split; [split|].
  - intros Hskipped. rewrite Hskipped in Hstatus.
    destruct (decide (k ∈ completed)); [done|].
    destruct (decide (k ∈ failed)); [done|].
    by eapply post_unrecorded.
  - intros (d & Hpath & Hd).
    eapply (post_blocked _ _ _ _ Hpost); [done..|].
    destruct Hd as [Hf|(td & Htd & Hnp)]; intros Hc.
    + by eapply (post_disjoint _ _ _ _ Hpost).
    + destruct (post_was_pending _ _ _ _ Hpost d) as (td' & ? & ?);
        [apply elem_of_app; by left | congruence].
  - intros Hns. rewrite Hstatus in Hns. apply elem_of_app.
    destruct (decide (k ∈ completed)); [by left|].
    destruct (decide (k ∈ failed)); [by right | done].
Qed.

Lemma execute_skips_exactly_blocked_witness :
  wf Examples.isolation ∧
  Pipeline.validate Examples.isolation = [] ∧
  Pipeline.execute Examples.isolation None Examples.env0 =
    Some (Examples.after_execute Examples.isolation,
          Examples.env_after_execute Examples.isolation,
          Return (Examples.result_of_execute Examples.isolation)) ∧
  dict_get "B" (Pipeline.tasks Examples.isolation) =
    Some (Examples.task "B" (Examples.returns "b" (VInt 2)) ["A"]) ∧
  Task.status (Examples.task "B" (Examples.returns "b" (VInt 2)) ["A"]) = PENDING ∧
  ∃ completed failed,
    Result.completed_tasks (Examples.result_of_execute Examples.isolation) = Some completed ∧
    Result.failed_tasks (Examples.result_of_execute Examples.isolation) = Some failed ∧
    (status_of (Pipeline.tasks (Examples.after_execute Examples.isolation)) "B" = Some SKIPPED ↔
     ∃ d, tc (depends_on (Pipeline.tasks Examples.isolation)) "B" d ∧
          (d ∈ failed ∨
           ∃ td, dict_get d (Pipeline.tasks Examples.isolation) = Some td ∧
                 Task.status td ≠ PENDING)) ∧
    (status_of (Pipeline.tasks (Examples.after_execute Examples.isolation)) "B" ≠ Some SKIPPED →
     "B" ∈ completed ++ failed).
Proof.
  pose proof isolation_wf as Hwf.
  pose proof isolation_valid as Hvalid.
  pose proof isolation_execute as Hexec.
  assert (dict_get "B" (Pipeline.tasks Examples.isolation) =
    Some (Examples.task "B" (Examples.returns "b" (VInt 2)) ["A"])) as Ht0
    by (vm_compute; reflexivity).
  split_and!; [exact Hwf|exact Hvalid|exact Hexec|exact Ht0|reflexivity|].
  exact (execute_skips_exactly_blocked _ _ _ _ _ _ _ _ Hwf Hvalid Hexec Ht0 eq_refl).
Defined.

(** *** The work functions a run invokes, and the context they share *)

Lemma run_task_clock k t st st' :
  Pipeline.run_task (k, t) st = (st', None) →
  ticks (Pipeline.env st') = ticks (Pipeline.env st) + 2 ∧
  isoformat (Pipeline.env st') = isoformat (Pipeline.env st).
Proof.
  unfold Pipeline.run_task, Task.execute. simpl.
  destruct (Task.func t (Pipeline.context (Pipeline.pipeline st))) as [context' [v|e]];
    [|destruct (exc_is_Exception e) eqn:He]; simpl; rewrite ?He; simpl;
    intros; simplify_eq; simpl; (split; [lia|done]).
Qed.

Lemma run_task_trace self env0 k t st st' order :
  wf self → run_inv self st → run_trace self env0 st order →
  dict_get k (Pipeline.tasks (Pipeline.pipeline st)) = Some t →
  Pipeline.run_task (k, t) st = (st', None) →
  run_trace self env0 st' (order ++ [k]).
Proof.
  intros Hwf Hinv (Hcalls & Hperm & Hticks & Hiso & Hctx) Hk Hrun.
  assert (k ∈ dict_keys (Pipeline.tasks self)) as [t0 Ht0]%dict_get_is_Some
    by (rewrite <- (inv_keys _ _ Hinv); apply dict_get_is_Some; eauto).
  destruct (inv_tasks _ _ Hinv _ _ Ht0) as (t1 & Ht1 & (Hname & _ & Hfunc) & _).
  assert (t1 = t) as -> by congruence.
  rewrite (wf_name self k t0) in Hname by done.
  destruct (run_task_clock _ _ _ _ Hrun) as [Hticks' Hiso'].
  unfold run_trace. rewrite Hticks', Hiso', Hticks, Hiso, length_app, foldl_app.
  cbn [foldl length]. unfold run_function at 1. rewrite Ht0, <- Hfunc, <- Hctx.
  destruct (run_task_cases k t st) as
    [t' context' env' [v Hfun] Hcalls' _ _|t' context' env' (e & Hfun & _) Hcalls' _ _|];
    [injection Hrun as <-..|discriminate];
    cbn [Pipeline.env Pipeline.completed Pipeline.failed Pipeline.pipeline
         Pipeline.context Pipeline.set_execution_order Pipeline.set_context];
    rewrite Hcalls', Hcalls, Hname, Hfun, <- !(assoc_L (++));
    (split_and!; [done| |lia|done|done]); rewrite Hperm.
  - rewrite <- !(assoc_L (++)). apply Permutation_app_head, Permutation_app_comm.
  - by rewrite <- !(assoc_L (++)).
Qed.

Lemma run_tasks_trace self env0 rs st st' order :
  wf self → run_inv self st → run_trace self env0 st order →
  NoDup rs.*1 →
  (∀ k t, (k, t) ∈ rs →
     dict_get k (Pipeline.tasks (Pipeline.pipeline st)) = Some t ∧
     Task.status t = PENDING ∧
     ∀ dep, dep ∈ Task.dependencies t → dep ∈ Pipeline.completed st) →
  Pipeline.run_tasks rs st = (st', None) →
  ∃ order', run_trace self env0 st' order'.
Proof.
  intros Hwf. revert st order.
  induction rs as [|[k t] rs IH]; intros st order Hinv Htrace Hnd Hrs; simpl.
  { intros; simplify_eq. eauto. }
  apply NoDup_cons in Hnd as [Hk Hnd].
  destruct (Hrs k t) as (Hget & Hpending & Hdeps); [left|].
  pose proof (run_task_other k t st) as Hother.
  pose proof (run_task_extends k t st) as Hext.
  destruct (Pipeline.run_task (k, t) st) as [st1 [e|]] eqn:Hrun; [done|].
  simpl in *.
  apply (IH st1 (order ++ [k]));
    [by eapply run_task_inv|by eapply run_task_trace|done|].
  intros k' t' Hin. destruct (Hrs k' t') as (Hget' & Hpending' & Hdeps'); [by right|].
  split; [|split; [done|]].
  - rewrite Hother; [done|]. intros ->. apply Hk.
    apply list_elem_of_fmap. by exists (k', t').
  - intros dep ?%Hdeps'. eapply run_extends_completed; [|done].
    apply Hext. apply dict_get_is_Some. eauto.
Qed.

Lemma schedule_trace self env0 fuel st st' order :
  wf self → run_inv self st → run_trace self env0 st order →
  Pipeline.schedule fuel st = Some (st', None) →
  ∃ order', run_trace self env0 st' order'.
Proof.
  intros Hwf. revert st order.
  induction fuel as [|fuel IH]; intros st order Hinv Htrace; [done|].
  rewrite schedule_S. cbv zeta.
  case_decide as Hcond; [|intros; simplify_eq; eauto].
  case_decide as Hrs; [intros; simplify_eq; eauto|].
  destruct (runnable_tasks_ready self st Hwf Hinv) as [Hnd Hready].
  destruct (Pipeline.run_tasks _ st) as [st1 [e|]] eqn:Hrun; [done|].
  destruct (run_tasks_trace _ _ _ _ _ _ Hwf Hinv Htrace Hnd Hready Hrun) as [order1 Htrace1].
  apply (IH st1 order1); [by eapply run_tasks_inv | done].
Qed.

Lemma execute_trace self initial_context env self' env' r :
  wf self →
  Pipeline.validate self = [] →
  Pipeline.execute self initial_context env = Some (self', env', Return r) →
  ∃ completed failed order,
    Result.completed_tasks r = Some completed ∧
    Result.failed_tasks r = Some failed ∧
    Result.context r = Some (Pipeline.context self') ∧
    calls env' = calls env ++ order ∧
    order ≡ₚ completed ++ failed ∧
    ticks env' = ticks env + 2 * length order ∧
    isoformat env' = isoformat env ∧
    Pipeline.context self' =
      foldl (run_function (Pipeline.tasks self)) (or_empty initial_context) order.
Proof.
  intros Hwf Hvalid Hexec.
  destruct (execute_valid self initial_context env Hvalid) as (st & r0 & Hs & Hexec').
  rewrite Hexec in Hexec'. destruct r0 as [e|]; simplify_eq.
  set (self0 := Pipeline.set_context (or_empty initial_context) self) in *.
  assert (wf self0) as Hwf0 by done.
  assert (run_trace self0 env (start self0 env) []) as Htrace.
  { unfold run_trace. simpl. by rewrite app_nil_r. }
  destruct (schedule_trace _ _ _ _ _ _ Hwf0 (run_inv_start self0 env) Htrace Hs)
    as (order & Hcalls & Hperm & Hticks & Hiso & Hctx).
  exists (Pipeline.completed st), (Pipeline.failed st), order.
  by split_and!.
Qed.

(** X14.  A run invokes the work function of every task it records in
    [completed_tasks] or [failed_tasks] once, and no other: a task that is
    skipped, or that was not PENDING, has its work function left alone. *)
Theorem execute_invokes_recorded_once (self : Pipeline.Pipeline)
    (initial_context : option Ctx) (env : Env)
    (self' : Pipeline.Pipeline) (env' : Env) (r : Result.Result) :
  wf self →
  Pipeline.validate self = [] →
  Pipeline.execute self initial_context env = Some (self', env', Return r) →
  ∃ completed failed invoked,
    Result.completed_tasks r = Some completed ∧
    Result.failed_tasks r = Some failed ∧
    calls env' = calls env ++ invoked ∧
    invoked ≡ₚ completed ++ failed ∧
    NoDup invoked.
Proof.
  intros Hwf Hvalid Hexec.
  destruct (execute_trace _ _ _ _ _ _ Hwf Hvalid Hexec)
    as (completed & failed & order & Hc & Hf & _ & Hcalls & Hperm & _).
  exists completed, failed, order. split_and!; [done..|].
  destruct (execute_returns_post _ _ _ _ _ _ Hwf Hvalid Hexec)
    as (completed' & failed' & -> & Hpost).
  simpl in Hc, Hf. simplify_eq. rewrite Hperm. apply Hpost.
Qed.

Lemma execute_invokes_recorded_once_witness :
  wf Examples.isolation ∧
  Pipeline.validate Examples.isolation = [] ∧
  Pipeline.execute Examples.isolation None Examples.env0 =
    Some (Examples.after_execute Examples.isolation,
          Examples.env_after_execute Examples.isolation,
          Return (Examples.result_of_execute Examples.isolation)) ∧
  ∃ completed failed invoked,
    Result.completed_tasks (Examples.result_of_execute Examples.isolation) = Some completed ∧
    Result.failed_tasks (Examples.result_of_execute Examples.isolation) = Some failed ∧
    calls (Examples.env_after_execute Examples.isolation) = calls Examples.env0 ++ invoked ∧
    invoked ≡ₚ completed ++ failed ∧
    NoDup invoked.
Proof.
  pose proof isolation_wf as Hwf.
  pose proof isolation_valid as Hvalid.
  pose proof isolation_execute as Hexec.
  split_and!; [exact Hwf|exact Hvalid|exact Hexec|].
  exact (execute_invokes_recorded_once _ _ _ _ _ _ Hwf Hvalid Hexec).
Defined.

(** X15.  A run reads the clock twice for each task it executes, once
    for [started_at] and once for [completed_at], and at no other time. *)
Theorem execute_reads_clock_twice_per_task (self : Pipeline.Pipeline)
    (initial_context : option Ctx) (env : Env)
    (self' : Pipeline.Pipeline) (env' : Env) (r : Result.Result) :
  wf self →
  Pipeline.validate self = [] →
  Pipeline.execute self initial_context env = Some (self', env', Return r) →
  ∃ completed failed,
    Result.completed_tasks r = Some completed ∧
    Result.failed_tasks r = Some failed ∧
    ticks env' = ticks env + 2 * (length completed + length failed).
Proof.
  intros Hwf Hvalid Hexec.
  destruct (execute_trace _ _ _ _ _ _ Hwf Hvalid Hexec)
    as (completed & failed & order & Hc & Hf & _ & _ & Hperm & Hticks & _).
  exists completed, failed. split_and!; [done..|].
  apply Permutation_length in Hperm. rewrite length_app in Hperm. lia.
Qed.

Lemma execute_reads_clock_twice_per_task_witness :
  wf Examples.isolation ∧
  Pipeline.validate Examples.isolation = [] ∧
  Pipeline.execute Examples.isolation None Examples.env0 =
    Some (Examples.after_execute Examples.isolation,
          Examples.env_after_execute Examples.isolation,
          Return (Examples.result_of_execute Examples.isolation)) ∧
  ∃ completed failed,
    Result.completed_tasks (Examples.result_of_execute Examples.isolation) = Some completed ∧
    Result.failed_tasks (Examples.result_of_execute Examples.isolation) = Some failed ∧
    ticks (Examples.env_after_execute Examples.isolation) =
      ticks Examples.env0 + 2 * (length completed + length failed).
Proof.
  pose proof isolation_wf as Hwf.
  pose proof isolation_valid as Hvalid.
  pose proof isolation_execute as Hexec.
  split_and!; [exact Hwf|exact Hvalid|exact Hexec|].
  exact (execute_reads_clock_twice_per_task _ _ _ _ _ _ Hwf Hvalid Hexec).
Defined.

(** X16.  The context a run returns, which is the one it leaves in the
    pipeline, is what the work functions it invoked made of the initial
    context ([{}] when none is given), each one called on the context the
    one before left, in the order of the invocations; a work function that
    raised has its part in it like one that returned. *)
Theorem execute_threads_context (self : Pipeline.Pipeline)
    (initial_context : option Ctx) (env : Env)
    (self' : Pipeline.Pipeline) (env' : Env) (r : Result.Result) :
  wf self →
  Pipeline.validate self = [] →
  Pipeline.execute self initial_context env = Some (self', env', Return r) →
  ∃ invoked,
    calls env' = calls env ++ invoked ∧
    Result.context r =
      Some (foldl (run_function (Pipeline.tasks self)) (or_empty initial_context) invoked) ∧
    Pipeline.context self' =
      foldl (run_function (Pipeline.tasks self)) (or_empty initial_context) invoked.
Proof.
  intros Hwf Hvalid Hexec.
  destruct (execute_trace _ _ _ _ _ _ Hwf Hvalid Hexec)
    as (completed & failed & order & _ & _ & Hr & Hcalls & _ & _ & _ & Hctx).
  exists order. split_and!; [done| |done]. by rewrite Hr, Hctx.
Qed.

Lemma execute_threads_context_witness :
  wf Examples.isolation ∧
  Pipeline.validate Examples.isolation = [] ∧
  Pipeline.execute Examples.isolation None Examples.env0 =
    Some (Examples.after_execute Examples.isolation,
          Examples.env_after_execute Examples.isolation,
          Return (Examples.result_of_execute Examples.isolation)) ∧
  ∃ invoked,
    calls (Examples.env_after_execute Examples.isolation) = calls Examples.env0 ++ invoked ∧
    Result.context (Examples.result_of_execute Examples.isolation) =
      Some (foldl (run_function (Pipeline.tasks Examples.isolation)) (or_empty None) invoked) ∧
    Pipeline.context (Examples.after_execute Examples.isolation) =
      foldl (run_function (Pipeline.tasks Examples.isolation)) (or_empty None) invoked.
Proof.
  pose proof isolation_wf as Hwf.
  pose proof isolation_valid as Hvalid.
  pose proof isolation_execute as Hexec.
  split_and!; [exact Hwf|exact Hvalid|exact Hexec|].
  exact (execute_threads_context _ _ _ _ _ _ Hwf Hvalid Hexec).
Defined.

(** X17.  When every task is PENDING and no work function raises, a
    valid pipeline runs to completion: [execute] returns [success] true,
    every task is in [completed_tasks], once, none is in [failed_tasks],
    and all are COMPLETED. *)
Theorem execute_completes_all (self : Pipeline.Pipeline)
    (initial_context : option Ctx) (env : Env) :
  wf self →
  Pipeline.validate self = [] →
  (∀ k t, (k, t) ∈ Pipeline.tasks self →
          Task.status t = PENDING ∧ always_returns (Task.func t)) →
  ∃ self' env' r completed,
    Pipeline.execute self initial_context env = Some (self', env', Return r) ∧
    Result.success r = true ∧
    Result.completed_tasks r = Some completed ∧
    Result.failed_tasks r = Some [] ∧
    completed ≡ₚ dict_keys (Pipeline.tasks self) ∧
    ∀ k, k ∈ dict_keys (Pipeline.tasks self) →
         status_of (Pipeline.tasks self') k = Some COMPLETED.
Proof.
  intros Hwf Hvalid Hall.
  assert (only_Exceptions (Pipeline.tasks self)) as Hexc.
  { intros k t context context' e [_ Hret]%Hall Hraise.
    destruct (Hret context) as (? & ? & ?). congruence. }
  destruct (execute_returns self initial_context env Hvalid Hexc) as (self' & env' & r & Hexec).
  destruct (execute_returns_post _ _ _ _ _ _ Hwf Hvalid Hexec)
    as (completed & failed & -> & Hpost).
  assert (failed = []) as ->.
  { destruct failed as [|k failed]; [done|].
    destruct (post_raised _ _ _ _ Hpost k) as (t0 & context & context' & e & Ht0 & Hraise & _);
      [left|].
    apply dict_get_Some_elem, Hall in Ht0 as [_ Hret].
    destruct (Hret context) as (? & ? & ?). congruence. }
  assert (∀ k, k ∈ dict_keys (Pipeline.tasks self) → k ∈ completed) as Hin.
  { intros k [t0 Ht0]%dict_get_is_Some.
    destruct (Hall k t0) as [Hpending _]; [by apply dict_get_Some_elem|].
    destruct (decide (k ∈ completed)) as [|Hk]; [done|].
    destruct (post_unrecorded _ _ _ _ Hwf Hvalid Hpost k t0 Ht0 Hpending Hk)
      as (d & _ & [Hd|(td & Htd & Hnp)]); [apply not_elem_of_nil|by apply elem_of_nil in Hd|].
    apply dict_get_Some_elem, Hall in Htd as [? _]. done. }
  eexists self', env', _, completed. split; [exact Hexec|]. split_and!; [done..| |].
  - pose proof (post_once _ _ _ _ Hpost) as Hnd. rewrite app_nil_r in Hnd.
    apply NoDup_Permutation; [done|apply Hwf|].
    intros k. split; [|by apply Hin].
    intros Hk. destruct (post_ran _ _ _ _ Hpost k) as (t0 & Ht0 & _).
    + apply elem_of_app. by left.
    + apply dict_get_is_Some. eauto.
  - intros k Hk. pose proof Hk as [t0 Ht0]%dict_get_is_Some.
    destruct (post_tasks _ _ _ _ Hpost _ _ Ht0) as (t & Ht & _ & Hc & _).
    unfold status_of. rewrite Ht. simpl. f_equal. by apply Hc, Hin.
Qed.

Lemma execute_completes_all_witness :
  wf Examples.chain ∧
  Pipeline.validate Examples.chain = [] ∧
  (∀ k t, (k, t) ∈ Pipeline.tasks Examples.chain →
          Task.status t = PENDING ∧ always_returns (Task.func t)) ∧
  ∃ self' env' r completed,
    Pipeline.execute Examples.chain None Examples.env0 = Some (self', env', Return r) ∧
    Result.success r = true ∧
    Result.completed_tasks r = Some completed ∧
    Result.failed_tasks r = Some [] ∧
    completed ≡ₚ dict_keys (Pipeline.tasks Examples.chain) ∧
    ∀ k, k ∈ dict_keys (Pipeline.tasks Examples.chain) →
         status_of (Pipeline.tasks self') k = Some COMPLETED.
Proof.
  pose proof chain_wf as Hwf.
  pose proof chain_valid as Hvalid.
  assert (∀ k t, (k, t) ∈ Pipeline.tasks Examples.chain →
                 Task.status t = PENDING ∧ always_returns (Task.func t)) as Hall.
  { intros k t Hin.
    assert (Forall (λ kt : string * Task.Task,
                      Task.status kt.2 = PENDING ∧ always_returns (Task.func kt.2))
              (Pipeline.tasks Examples.chain)) as Hforall.
    { repeat constructor; intros context; eexists _, _; reflexivity. }
    exact (proj1 (Forall_forall _ _) Hforall (k, t) Hin). }
  split_and!; [exact Hwf|exact Hvalid|exact Hall|].
  exact (execute_completes_all Examples.chain None Examples.env0 Hwf Hvalid Hall).
Defined.

(** X18.  [execute] runs PENDING tasks only, and never sets a task back
    to PENDING.  On a valid pipeline none of whose tasks is PENDING (it has
    no task, or an earlier call left every task COMPLETED, FAILED or
    SKIPPED) it invokes no work function, leaves the tasks and the
    execution order as they are, and returns [success] true with two empty
    lists: tasks that failed or were skipped before are not tried again, and
    not reported. *)
Theorem execute_without_pending (self : Pipeline.Pipeline)
    (initial_context : option Ctx) (env : Env) :
  Pipeline.validate self = [] →
  (∀ kt, kt ∈ Pipeline.tasks self → Task.status kt.2 ≠ PENDING) →
  ∃ r,
    Pipeline.execute self initial_context env =
      Some (Pipeline.set_context (or_empty initial_context) self, env, Return r) ∧
    Result.success r = true ∧
    Result.completed_tasks r = Some [] ∧
    Result.failed_tasks r = Some [] ∧
    Result.execution_order r = Some (Pipeline.execution_order self) ∧
    Result.context r = Some (or_empty initial_context).
Proof.
  intros Hvalid Hnone.
  destruct (execute_valid self initial_context env Hvalid) as (st & r & Hs & ->).
  rewrite schedule_none_pending in Hs by done.
  simplify_eq. eexists. split; [done|]. by split_and!.
Qed.

Lemma execute_without_pending_witness :
  Pipeline.validate (Examples.after_execute Examples.isolation) = [] ∧
  (∀ kt, kt ∈ Pipeline.tasks (Examples.after_execute Examples.isolation) →
         Task.status kt.2 ≠ PENDING) ∧
  status_of (Pipeline.tasks (Examples.after_execute Examples.isolation)) "A" = Some FAILED ∧
  ∃ r,
    Pipeline.execute (Examples.after_execute Examples.isolation) None Examples.env0 =
      Some (Pipeline.set_context (or_empty None) (Examples.after_execute Examples.isolation),
            Examples.env0, Return r) ∧
    Result.success r = true ∧
    Result.completed_tasks r = Some [] ∧
    Result.failed_tasks r = Some [] ∧
    Result.execution_order r =
      Some (Pipeline.execution_order (Examples.after_execute Examples.isolation)) ∧
    Result.context r = Some (or_empty None).
Proof.
  assert (Pipeline.validate (Examples.after_execute Examples.isolation) = []) as Hvalid
    by (vm_compute; reflexivity).
  assert (∀ kt, kt ∈ Pipeline.tasks (Examples.after_execute Examples.isolation) →
                Task.status kt.2 ≠ PENDING) as Hnone.
  { apply Forall_forall.
    assert (Forall (λ kt : string * Task.Task, Task.status kt.2 ≠ PENDING)
              (Pipeline.tasks (Examples.after_execute Examples.isolation))) as Hforall
      by (apply (bool_decide_unpack _); vm_compute; exact I).
    exact Hforall. }
  split_and!; [exact Hvalid|exact Hnone|vm_compute; reflexivity|].
  exact (execute_without_pending _ None Examples.env0 Hvalid Hnone).
Defined.

(** ** PipelineManager *)

(** X19.  [create_pipeline] returns a new, empty pipeline of the name
    given and registers it under that name: looking the name up gives it,
    every other name gives what it gave before.  A name that was registered
    already keeps its place in [list_pipelines], and the pipeline it stood
    for, tasks and all, is replaced without notice; a new name goes last. *)
Theorem create_pipeline_lookup (name description : string)
    (self : PipelineManager.PipelineManager) (k : string) :
  let '(self', pipeline) := PipelineManager.create_pipeline name description self in
  pipeline = Pipeline.init name description ∧
  Pipeline.tasks pipeline = [] ∧
  PipelineManager.get_pipeline self' k =
    (if decide (k = name) then Some pipeline else PipelineManager.get_pipeline self k) ∧
  PipelineManager.list_pipelines self' =
    (if decide (name ∈ PipelineManager.list_pipelines self)
     then PipelineManager.list_pipelines self
     else PipelineManager.list_pipelines self ++ [name]).
Proof.
  unfold PipelineManager.create_pipeline, PipelineManager.get_pipeline,
    PipelineManager.list_pipelines. simpl. split_and!; [done..| |].
  - case_decide as Hk; [subst; apply dict_get_set_eq | by apply dict_get_set_ne].
  - case_decide; [by apply dict_keys_set_elem | by apply dict_keys_set_new].
Qed.

(** X20.  [delete_pipeline] returns [True] exactly when the name is
    registered.  Afterwards the name is not registered, every other name
    gives the pipeline it gave before, and the names left keep their order;
    when it returns [False] the manager is as it was. *)
Theorem delete_pipeline_lookup (name : string)
    (self : PipelineManager.PipelineManager) (k : string) :
  let '(self', deleted) := PipelineManager.delete_pipeline name self in
  (deleted = true ↔ name ∈ PipelineManager.list_pipelines self) ∧
  PipelineManager.get_pipeline self' k =
    (if decide (k = name) then None else PipelineManager.get_pipeline self k) ∧
  PipelineManager.list_pipelines self' =
    filter (λ k', k' ≠ name) (PipelineManager.list_pipelines self) ∧
  (deleted = false → self' = self).
Proof.
  unfold PipelineManager.delete_pipeline, PipelineManager.get_pipeline,
    PipelineManager.list_pipelines.
  destruct (dict_in name (PipelineManager.pipelines self)) eqn:Hin; simpl.
  - apply dict_in_true in Hin.
    split_and!; [done|apply dict_get_del|apply dict_keys_del|done].
  - apply dict_in_false in Hin. split_and!; [|..|done].
    + split; [done|]. intros ?. done.
    + case_decide; [subst; by apply dict_get_None | done].
    + rewrite <- dict_keys_del. by rewrite dict_del_absent.
Qed.

(** X21.  Creating a pipeline under a name that is not registered and
    deleting it again gives back the manager as it was, and the deletion
    returns [True]. *)
Theorem delete_pipeline_create_pipeline (name description : string)
    (self : PipelineManager.PipelineManager) :
  name ∉ PipelineManager.list_pipelines self →
  PipelineManager.delete_pipeline name
    (PipelineManager.create_pipeline name description self).1 = (self, true).
Proof.
  intros Hnew.
  unfold PipelineManager.delete_pipeline, PipelineManager.create_pipeline. simpl.
  rewrite (proj2 (dict_in_true _ _)).
  - unfold PipelineManager.set_pipelines. simpl.
    rewrite dict_del_set_new by done. by destruct self.
  - apply dict_get_is_Some. rewrite dict_get_set_eq. eauto.
Qed.

Lemma delete_pipeline_create_pipeline_witness :
  ("deploy" ∉ PipelineManager.list_pipelines Examples.manager) ∧
  PipelineManager.delete_pipeline "deploy"
    (PipelineManager.create_pipeline "deploy" "ship it" Examples.manager).1 =
  (Examples.manager, true).
Proof.
  assert ("deploy" ∉ PipelineManager.list_pipelines Examples.manager) as Hnew
    by (apply (bool_decide_unpack _); vm_compute; exact I).
  split; [exact Hnew|].
  exact (delete_pipeline_create_pipeline "deploy" "ship it" Examples.manager Hnew).
Defined.

Lemma validate_pipelines_true ps :
  PipelineManager.validate_pipelines ps = true ↔
  ∀ name pipeline, (name, pipeline) ∈ ps → Pipeline.validate pipeline = [].
Proof.
  induction ps as [|[n p] ps IH]; simpl.
  - split; [by intros _ ? ? ?%elem_of_nil | done].
  - case_decide as Hp.
    + split; [done|]. intros H. exfalso. apply Hp, (H n). left.
    + rewrite IH. split.
      * intros H n' p' [[= -> ->]|?]%elem_of_cons; eauto.
      * intros H n' p' ?. apply (H n'). by right.
Qed.

Lemma dict_set_elem_inv {V} (d : list (string * V)) k v k' v' :
  (k', v') ∈ dict_set k v d → (k', v') = (k, v) ∨ (k', v') ∈ d.
Proof.
  induction d as [|[k0 v0] d IH]; simpl.
  - intros ->%list_elem_of_singleton. by left.
  - case_decide.
    + intros [->|?]%elem_of_cons; [by left | right; by right].
    + intros [->|[->|?]%IH]%elem_of_cons; [right; left|by left|right; by right].
Qed.

(** X22.  [PipelineManager.validate] answers [True] exactly when
    [validate] finds no error in any registered pipeline; it answers [True]
    for a new manager, and [create_pipeline] and [delete_pipeline] keep a
    [True] answer. *)
Theorem manager_validate_all (self : PipelineManager.PipelineManager) :
  (PipelineManager.validate self = true ↔
   ∀ name pipeline,
     (name, pipeline) ∈ PipelineManager.pipelines self →
     Pipeline.validate pipeline = []) ∧
  (∀ name config, PipelineManager.validate (PipelineManager.init name config) = true) ∧
  (∀ name description,
     PipelineManager.validate self = true →
     PipelineManager.validate
       (PipelineManager.create_pipeline name description self).1 = true) ∧
  (∀ name,
     PipelineManager.validate self = true →
     PipelineManager.validate (PipelineManager.delete_pipeline name self).1 = true).
Proof.
  unfold PipelineManager.validate. split_and!.
  - apply validate_pipelines_true.
  - done.
  - intros name description. rewrite !validate_pipelines_true. simpl.
    intros H n p [[= -> ->]|?]%dict_set_elem_inv; [done | eauto].
  - intros name. unfold PipelineManager.delete_pipeline.
    destruct (dict_in name (PipelineManager.pipelines self)); [|done].
    rewrite !validate_pipelines_true. simpl.
    intros H n p [_ ?]%list_elem_of_filter. eauto.
Qed.

Lemma validate_pipelines_set ps name pipeline pipeline' :
  dict_get name ps = Some pipeline →
  Pipeline.validate pipeline' = Pipeline.validate pipeline →
  PipelineManager.validate_pipelines (dict_set name pipeline' ps) =
  PipelineManager.validate_pipelines ps.
Proof.
  intros Hget Hsame. induction ps as [|[n p] ps IH]; simpl in *; [done|].
  case_decide; simplify_eq; simpl.
  - by rewrite Hsame.
  - by rewrite IH.
Qed.

Lemma execute_keeps_graph self initial_context env self' env' outcome :
  dict_wf (Pipeline.tasks self) →
  Pipeline.execute self initial_context env = Some (self', env', outcome) →
  dependency_graph (Pipeline.tasks self') = dependency_graph (Pipeline.tasks self).
Proof.
  intros Hwf Hexec.
  unfold Pipeline.execute in Hexec. cbv zeta in Hexec.
  case_decide; [by simplify_eq|].
  destruct (Pipeline.schedule _ _) as [[st oe]|] eqn:Hs; [|done].
  apply schedule_graph in Hs; [|done].
  destruct oe; by simplify_eq.
Qed.

(** X23.  [execute_pipeline] changes neither the names registered nor
    the answer of [PipelineManager.validate]: whatever way the call ends,
    [list_pipelines] and [validate] return after it what they returned
    before it. *)
Theorem execute_pipeline_keeps_validate (self : PipelineManager.PipelineManager)
    (name : string) (context : option Ctx) (env : Env)
    (self' : PipelineManager.PipelineManager) (env' : Env)
    (outcome : Completion Result.Result) :
  (∀ pipeline, PipelineManager.get_pipeline self name = Some pipeline →
               dict_wf (Pipeline.tasks pipeline)) →
  PipelineManager.execute_pipeline self name context env = Some (self', env', outcome) →
  PipelineManager.list_pipelines self' = PipelineManager.list_pipelines self ∧
  PipelineManager.validate self' = PipelineManager.validate self.
Proof.
  unfold PipelineManager.execute_pipeline, PipelineManager.get_pipeline,
    PipelineManager.list_pipelines, PipelineManager.validate.
  intros Hwf.
  destruct (dict_get name (PipelineManager.pipelines self)) as [p|] eqn:Hp;
    [|by intros [= <- <- <-]].
  destruct (Pipeline.execute p context env) as [[[p' env1] outcome1]|] eqn:Hexec; [|done].
  intros [= <- <- <-]. simpl. split.
  - apply dict_keys_set_elem, dict_get_is_Some. eauto.
  - eapply validate_pipelines_set; [done|].
    apply validate_dependency_graph.
    by eapply execute_keeps_graph; [apply Hwf|].
Qed.

Lemma execute_pipeline_keeps_validate_witness :
  (∀ pipeline, PipelineManager.get_pipeline registry_example "iso" = Some pipeline →
               dict_wf (Pipeline.tasks pipeline)) ∧
  PipelineManager.execute_pipeline registry_example "iso" None Examples.env0 =
    Some (registry_after_execute, Examples.env_after_execute Examples.isolation,
          Return (Examples.result_of_execute Examples.isolation)) ∧
  PipelineManager.list_pipelines registry_after_execute = ["iso"; "chain"] ∧
  PipelineManager.validate registry_example = true ∧
  PipelineManager.list_pipelines registry_after_execute =
    PipelineManager.list_pipelines registry_example ∧
  PipelineManager.validate registry_after_execute =
    PipelineManager.validate registry_example.
Proof.
  assert (∀ pipeline, PipelineManager.get_pipeline registry_example "iso" = Some pipeline →
                      dict_wf (Pipeline.tasks pipeline)) as Hwf.
  { intros pipeline [= <-]. apply (bool_decide_unpack _). vm_compute. exact I. }
  assert (PipelineManager.execute_pipeline registry_example "iso" None Examples.env0 =
    Some (registry_after_execute, Examples.env_after_execute Examples.isolation,
          Return (Examples.result_of_execute Examples.isolation))) as Hexec
    by (vm_compute; reflexivity).
  split; [exact Hwf|]. split; [exact Hexec|].
  split; [vm_compute; reflexivity|]. split; [vm_compute; reflexivity|].
  exact (execute_pipeline_keeps_validate _ _ _ _ _ _ _ Hwf Hexec).
Defined.

(** X24.  A pipeline that was just created runs at once: [execute_pipeline]
    for its name returns [success] true with two empty lists and an empty
    execution order, invokes nothing, and the names listed stay the same. *)
Theorem execute_pipeline_just_created (name description : string)
    (self : PipelineManager.PipelineManager) (context : option Ctx) (env : Env) :
  let created := (PipelineManager.create_pipeline name description self).1 in
  ∃ self' r,
    PipelineManager.execute_pipeline created name context env =
      Some (self', env, Return r) ∧
    Result.success r = true ∧
    Result.completed_tasks r = Some [] ∧
    Result.failed_tasks r = Some [] ∧
    Result.execution_order r = Some [] ∧
    Result.context r = Some (or_empty context) ∧
    PipelineManager.list_pipelines self' = PipelineManager.list_pipelines created.
Proof.
  cbv zeta. unfold PipelineManager.execute_pipeline, PipelineManager.get_pipeline,
    PipelineManager.create_pipeline. cbn [fst PipelineManager.pipelines
    PipelineManager.set_pipelines].
  rewrite dict_get_set_eq.
  destruct (execute_valid (Pipeline.init name description) context env) as (st & r & Hs & ->);
    [done|].
  rewrite schedule_none_pending in Hs by (by intros ? ?%elem_of_nil).
  simplify_eq. eexists _, _. split; [done|]. split_and!; [done..|].
  unfold PipelineManager.list_pipelines. simpl.
  apply dict_keys_set_elem, dict_get_is_Some. rewrite dict_get_set_eq. eauto.
Qed.

(** X25.  A new manager is enabled, not initialized and holds no
    pipeline.  [initialize] returns [True] and sets the initialized flag,
    [enable] and [disable] set the enabled flag; none of them touches the
    registry or the other flag, and [get_status] reports the two flags and
    the number of names listed. *)
Theorem manager_lifecycle (self : PipelineManager.PipelineManager) :
  (∀ name config,
     PipelineManager.get_status (PipelineManager.init name config) =
     {| PipelineManager.enabled := true; PipelineManager.initialized := false;
        PipelineManager.pipelines_count := 0;
        PipelineManager.status_pipelines := [] |}) ∧
  (let '(self', ok) := PipelineManager.initialize self in
   ok = true ∧
   PipelineManager.is_initialized self' = true ∧
   PipelineManager.is_enabled self' = PipelineManager.is_enabled self ∧
   PipelineManager.pipelines self' = PipelineManager.pipelines self ∧
   PipelineManager.initialize self' = (self', true)) ∧
  (PipelineManager.is_enabled (PipelineManager.disable self) = false ∧
   PipelineManager.is_enabled (PipelineManager.enable self) = true ∧
   PipelineManager.enable (PipelineManager.disable self) = PipelineManager.enable self ∧
   PipelineManager.is_initialized (PipelineManager.disable self) =
     PipelineManager.is_initialized self ∧
   PipelineManager.is_initialized (PipelineManager.enable self) =
     PipelineManager.is_initialized self ∧
   PipelineManager.pipelines (PipelineManager.disable self) =
     PipelineManager.pipelines self ∧
   PipelineManager.pipelines (PipelineManager.enable self) =
     PipelineManager.pipelines self) ∧
  PipelineManager.enabled (PipelineManager.get_status self) =
    PipelineManager.is_enabled self ∧
  PipelineManager.initialized (PipelineManager.get_status self) =
    PipelineManager.is_initialized self ∧
  PipelineManager.pipelines_count (PipelineManager.get_status self) =
    length (PipelineManager.list_pipelines self).
Proof.
  split_and!; try done.
  unfold PipelineManager.list_pipelines, dict_keys. by rewrite length_fmap.
Qed.

(** ** get_status and to_dict *)

Lemma count_statuses_spec (ts : list (string * Task.Task)) :
  Pipeline.count_statuses ts = (λ s, (s, count_of s ts)) <$> TaskStatus_members.
Proof.
  unfold Pipeline.count_statuses.
  assert (∀ c : TaskStatus → nat,
            foldl (λ counts kt, Pipeline.count_status (Task.status kt.2) counts)
              ((λ s, (s, c s)) <$> TaskStatus_members) ts =
            (λ s, (s, c s + count_of s ts)) <$> TaskStatus_members) as Hgen.
  { induction ts as [|[k t] ts IH]; intros c.
    - unfold TaskStatus_members, count_of. simpl. by rewrite !Nat.add_0_r.
    - cbn [foldl].
      assert (Pipeline.count_status (Task.status (k, t).2)
                ((λ s, (s, c s)) <$> TaskStatus_members) =
              (λ s, (s, (if decide (Task.status t = s) then 1 else 0) + c s))
                <$> TaskStatus_members) as ->.
      { unfold TaskStatus_members, Pipeline.count_status. simpl.
        destruct (Task.status t); reflexivity. }
      rewrite IH. unfold TaskStatus_members, count_of. simpl.
      rewrite !filter_cons. simpl.
      destruct (Task.status t); simpl;
        repeat (apply (f_equal2 cons);
                  [apply (f_equal2 pair);
                     [done|first [reflexivity|symmetry; apply Nat.add_succ_r]]|]);
        done. }
  apply (Hgen (λ _, 0)).
Qed.

Lemma count_of_total (ts : list (string * Task.Task)) :
  count_of PENDING ts + count_of RUNNING ts + count_of COMPLETED ts +
  count_of FAILED ts + count_of SKIPPED ts = length ts.
Proof.
  unfold count_of. induction ts as [|[k t] ts IH]; [done|].
  rewrite !filter_cons. simpl. destruct (Task.status t); simpl; lia.
Qed.

Lemma get_status_counts_spec (self : Pipeline.Pipeline) :
  Pipeline.status_counts (Pipeline.get_status self) =
  [("pending", count_of PENDING (Pipeline.tasks self));
   ("running", count_of RUNNING (Pipeline.tasks self));
   ("completed", count_of COMPLETED (Pipeline.tasks self));
   ("failed", count_of FAILED (Pipeline.tasks self));
   ("skipped", count_of SKIPPED (Pipeline.tasks self))].
Proof.
  unfold Pipeline.get_status. cbn [Pipeline.status_counts].
  rewrite count_statuses_spec. reflexivity.
Qed.

(** X26.  [get_status] counts every task once, under its status: the
    dictionary of counts has the five status strings as keys, in the order
    of the enumeration, each with the number of tasks of that status (0
    when there is none), and the counts add up to [total_tasks]. *)
Theorem get_status_counts (self : Pipeline.Pipeline) :
  Pipeline.status_counts (Pipeline.get_status self) =
    (λ s, (TaskStatus_value s, count_of s (Pipeline.tasks self))) <$> TaskStatus_members ∧
  sum_list (Pipeline.status_counts (Pipeline.get_status self)).*2 =
    Pipeline.total_tasks (Pipeline.get_status self).
Proof.
  rewrite get_status_counts_spec. split; [done|].
  change (count_of PENDING (Pipeline.tasks self) +
          (count_of RUNNING (Pipeline.tasks self) +
           (count_of COMPLETED (Pipeline.tasks self) +
            (count_of FAILED (Pipeline.tasks self) +
             (count_of SKIPPED (Pipeline.tasks self) + 0)))) =
          length (Pipeline.tasks self)).
  pose proof (count_of_total (Pipeline.tasks self)). lia.
Qed.

Lemma dict_comprehension_wf {A V} (key : A → string) (value : A → V) (xs : list A) :
  NoDup (key <$> xs) →
  dict_comprehension key value xs = (λ x, (key x, value x)) <$> xs.
Proof.
  unfold dict_comprehension.
  assert (∀ d : list (string * V),
            NoDup (dict_keys d ++ (key <$> xs)) →
            foldl (λ d x, dict_set (key x) (value x) d) d xs =
            d ++ ((λ x, (key x, value x)) <$> xs)) as Hgen.
  { induction xs as [|x xs IH]; intros d Hnd; simpl.
    - by rewrite app_nil_r.
    - rewrite fmap_cons in Hnd.
      assert (key x ∉ dict_keys d) as Hx.
      { apply NoDup_app in Hnd as (_ & Hdisj & _). intros Hin.
        apply (Hdisj _ Hin). left. }
      assert (dict_set (key x) (value x) d = d ++ [(key x, value x)]) as Hset.
      { clear -Hx. unfold dict_keys in Hx.
        induction d as [|[k v] d IHd]; simpl; [done|].
        rewrite fmap_cons, not_elem_of_cons in Hx. destruct Hx as [Hne Hx].
        rewrite decide_False by done. f_equal. auto. }
      rewrite IH, Hset, <- (assoc_L (++)); [done|].
      rewrite Hset. unfold dict_keys. rewrite fmap_app, <- (assoc_L (++)). done. }
  intros Hnd. apply (Hgen []). done.
Qed.

(** X27.  The [tasks] entry of [get_status] holds, for every task of the
    pipeline and in the same order, the dictionary [to_dict] makes of it,
    under the key of the task; the status it shows is the string of the
    task's status, and tells the status. *)
Theorem get_status_tasks (self : Pipeline.Pipeline) (k : string) :
  dict_wf (Pipeline.tasks self) →
  dict_keys (Pipeline.status_tasks (Pipeline.get_status self)) =
    dict_keys (Pipeline.tasks self) ∧
  dict_get k (Pipeline.status_tasks (Pipeline.get_status self)) =
    Task_to_dict <$> dict_get k (Pipeline.tasks self) ∧
  (∀ t t', TaskDict.status (Task_to_dict t) = TaskDict.status (Task_to_dict t') →
           Task.status t = Task.status t').
Proof.
  intros Hwf. unfold Pipeline.get_status. cbn [Pipeline.status_tasks].
  rewrite dict_comprehension_wf by done. split_and!.
  - unfold dict_keys. rewrite <- list_fmap_compose. by apply list_fmap_ext.
  - induction (Pipeline.tasks self) as [|[k' t] ts IH]; simpl; [done|].
    apply NoDup_cons in Hwf as [_ Hwf]. by case_decide; [|apply IH].
  - intros t t'. simpl. by destruct (Task.status t), (Task.status t').
Qed.

Lemma get_status_tasks_witness :
  dict_wf (Pipeline.tasks (Examples.after_execute Examples.isolation)) ∧
  dict_get "B" (Pipeline.status_tasks
                  (Pipeline.get_status (Examples.after_execute Examples.isolation))) =
    Task_to_dict <$> dict_get "B" (Pipeline.tasks (Examples.after_execute Examples.isolation)) ∧
  (TaskDict.status <$>
     dict_get "B" (Pipeline.status_tasks
                     (Pipeline.get_status (Examples.after_execute Examples.isolation)))) =
    Some "skipped".
Proof.
  assert (dict_wf (Pipeline.tasks (Examples.after_execute Examples.isolation))) as Hwf
    by (apply (bool_decide_unpack _); vm_compute; exact I).
  split; [exact Hwf|]. split.
  - exact (proj1 (proj2 (get_status_tasks _ "B" Hwf))).
  - vm_compute. reflexivity.
Defined.

Lemma count_of_keys (ts : list (string * Task.Task)) (s : TaskStatus) (l : list string) :
  dict_wf ts → NoDup l →
  (∀ k t, (k, t) ∈ ts → Task.status t = s ↔ k ∈ l) →
  (∀ k, k ∈ l → k ∈ dict_keys ts) →
  count_of s ts = length l.
Proof.
  intros Hwf Hnd Hiff Hsub. unfold count_of.
  rewrite <- (length_fmap fst). apply Permutation_length, NoDup_Permutation; [|done|].
  - eapply sublist_NoDup; first [exact Hwf | apply fmap_sublist, sublist_filter].
  - intros k. rewrite list_elem_of_fmap. split.
    + intros ([k' t] & -> & [Hs Hin]%list_elem_of_filter). by apply (Hiff k' t).
    + intros Hk. pose proof (Hsub k Hk) as ([k' t] & -> & Hin)%list_elem_of_fmap.
      exists (k', t). split; [done|]. apply list_elem_of_filter.
      split; [|done]. by apply (Hiff k' t).
Qed.

(** X28.  After a run of a pipeline whose tasks were all PENDING,
    [get_status] counts no task as pending or running, as many completed
    and failed tasks as the two lists returned hold, and all the others as
    skipped. *)
Theorem get_status_after_execute (self : Pipeline.Pipeline)
    (initial_context : option Ctx) (env : Env)
    (self' : Pipeline.Pipeline) (env' : Env) (r : Result.Result) :
  wf self →
  Pipeline.validate self = [] →
  (∀ kt, kt ∈ Pipeline.tasks self → Task.status kt.2 = PENDING) →
  Pipeline.execute self initial_context env = Some (self', env', Return r) →
  ∃ completed failed,
    Result.completed_tasks r = Some completed ∧
    Result.failed_tasks r = Some failed ∧
    Pipeline.total_tasks (Pipeline.get_status self') = length (Pipeline.tasks self) ∧
    Pipeline.status_counts (Pipeline.get_status self') =
      [("pending", 0); ("running", 0);
       ("completed", length completed); ("failed", length failed);
       ("skipped", length (Pipeline.tasks self) - length completed - length failed)].
Proof.
  intros Hwf Hvalid Hpending Hexec.
  destruct (execute_returns_post _ _ _ _ _ _ Hwf Hvalid Hexec)
    as (completed & failed & -> & Hpost).
  exists completed, failed. split; [done|]. split; [done|].
  pose proof (post_wf _ _ _ _ Hwf Hpost) as [Hwf' _].
  pose proof (post_once _ _ _ _ Hpost) as (Hndc & Hdisj & Hndf)%NoDup_app.
  assert (length (Pipeline.tasks self') = length (Pipeline.tasks self)) as Hlen.
  { rewrite <- !(length_fmap fst). f_equal. apply (post_keys _ _ _ _ Hpost). }
  assert (∀ k t, (k, t) ∈ Pipeline.tasks self' →
            Task.status t =
              if decide (k ∈ completed) then COMPLETED
              else if decide (k ∈ failed) then FAILED else SKIPPED) as Hstatus.
  { intros k t Hin.
    destruct (post_lookup _ _ _ _ Hwf Hpost _ _ Hin) as (t0 & Ht0 & Ht & _).
    destruct (post_status _ _ _ _ Hpost k t0 Ht0) as [Hs _].
    unfold status_of in Hs. rewrite Ht in Hs. simpl in Hs. injection Hs as ->.
    rewrite decide_True; [done|].
    apply (Hpending (k, t0)). by apply dict_get_Some_elem. }
  assert (∀ k, k ∈ completed ++ failed → k ∈ dict_keys (Pipeline.tasks self')) as Hkeys.
  { intros k (t0 & Ht0 & _)%(post_ran _ _ _ _ Hpost).
    rewrite (post_keys _ _ _ _ Hpost). apply dict_get_is_Some. eauto. }
  assert (count_of PENDING (Pipeline.tasks self') = 0) as Hp.
  { apply (count_of_keys _ _ []); [done|constructor| |by intros ? ?%elem_of_nil].
    intros k t ->%Hstatus. split; [|by intros ?%elem_of_nil].
    repeat case_decide; done. }
  assert (count_of RUNNING (Pipeline.tasks self') = 0) as Hr.
  { apply (count_of_keys _ _ []); [done|constructor| |by intros ? ?%elem_of_nil].
    intros k t ->%Hstatus. split; [|by intros ?%elem_of_nil].
    repeat case_decide; done. }
  assert (count_of COMPLETED (Pipeline.tasks self') = length completed) as Hc.
  { apply count_of_keys; [done..| |].
    - intros k t ->%Hstatus. repeat case_decide; split; done.
    - intros k Hk. apply Hkeys, elem_of_app. by left. }
  assert (count_of FAILED (Pipeline.tasks self') = length failed) as Hf.
  { apply count_of_keys; [done..| |].
    - intros k t ->%Hstatus.
      repeat case_decide; split; try done; intros ?; exfalso; by eapply Hdisj.
    - intros k Hk. apply Hkeys, elem_of_app. by right. }
  split; [done|].
  pose proof (count_of_total (Pipeline.tasks self')) as Htotal.
  rewrite Hp, Hr, Hc, Hf, Hlen in Htotal.
  assert (count_of SKIPPED (Pipeline.tasks self') =
          length (Pipeline.tasks self) - length completed - length failed) as Hs by lia.
  by rewrite get_status_counts_spec, Hp, Hr, Hc, Hf, Hs.
Qed.

Lemma get_status_after_execute_witness :
  wf Examples.isolation ∧
  Pipeline.validate Examples.isolation = [] ∧
  (∀ kt, kt ∈ Pipeline.tasks Examples.isolation → Task.status kt.2 = PENDING) ∧
  Pipeline.execute Examples.isolation None Examples.env0 =
    Some (Examples.after_execute Examples.isolation,
          Examples.env_after_execute Examples.isolation,
          Return (Examples.result_of_execute Examples.isolation)) ∧
  ∃ completed failed,
    Result.completed_tasks (Examples.result_of_execute Examples.isolation) = Some completed ∧
    Result.failed_tasks (Examples.result_of_execute Examples.isolation) = Some failed ∧
    Pipeline.total_tasks (Pipeline.get_status (Examples.after_execute Examples.isolation)) =
      length (Pipeline.tasks Examples.isolation) ∧
    Pipeline.status_counts (Pipeline.get_status (Examples.after_execute Examples.isolation)) =
      [("pending", 0); ("running", 0);
       ("completed", length completed); ("failed", length failed);
       ("skipped", length (Pipeline.tasks Examples.isolation)
                   - length completed - length failed)].
Proof.
  pose proof isolation_wf as Hwf.
  pose proof isolation_valid as Hvalid.
  assert (∀ kt, kt ∈ Pipeline.tasks Examples.isolation → Task.status kt.2 = PENDING)
    as Hpending.
  { apply Forall_forall.
    assert (Forall (λ kt : string * Task.Task, Task.status kt.2 = PENDING)
              (Pipeline.tasks Examples.isolation)) as Hforall
      by (apply (bool_decide_unpack _); vm_compute; exact I).
    exact Hforall. }
  pose proof isolation_execute as Hexec.
  split_and!; [exact Hwf|exact Hvalid|exact Hpending|exact Hexec|].
  exact (get_status_after_execute _ _ _ _ _ _ Hwf Hvalid Hpending Hexec).
Defined.

(** *** A raise that leaves [execute] *)

Lemma run_task_raises k t st st' e :
  Pipeline.run_task (k, t) st = (st', Some e) →
  exc_is_Exception e = false ∧
  (∃ context', Task.func t (Pipeline.context (Pipeline.pipeline st)) = (context', Raise e)) ∧
  last (calls (Pipeline.env st')) = Some (Task.name t) ∧
  ∃ t', dict_get k (Pipeline.tasks (Pipeline.pipeline st')) = Some t' ∧
        Task.status t' = RUNNING ∧
        Task.error t' = Task.error t ∧
        Task.result t' = Task.result t.
Proof.
  unfold Pipeline.run_task, Task.execute. simpl.
  destruct (Task.func t (Pipeline.context (Pipeline.pipeline st))) as [context' [v|e']];
    [|destruct (exc_is_Exception e') eqn:He]; simpl; rewrite ?He; simpl;
    intros; simplify_eq; simpl.
  split_and!; [done|eauto|by rewrite last_snoc|].
  rewrite dict_get_set_eq. eauto.
Qed.

Lemma run_tasks_raises rs st st' e :
  Pipeline.run_tasks rs st = (st', Some e) →
  ∃ k t st0,
    (k, t) ∈ rs ∧ Pipeline.run_task (k, t) st0 = (st', Some e).
Proof.
  revert st. induction rs as [|[k t] rs IH]; intros st; simpl; [done|].
  destruct (Pipeline.run_task (k, t) st) as [st1 [e1|]] eqn:Hrun.
  - intros [= <- <-]. exists k, t, st. split; [left | done].
  - intros (k' & t' & st0 & Hin & Hrun')%IH. exists k', t', st0. split; [by right | done].
Qed.

Lemma schedule_raises fuel st st' e :
  Pipeline.schedule fuel st = Some (st', Some e) →
  ∃ k t st0, Pipeline.run_task (k, t) st0 = (st', Some e).
Proof.
  revert st. induction fuel as [|fuel IH]; intros st; [done|].
  rewrite schedule_S. cbv zeta. case_decide; [|done]. case_decide; [done|].
  destruct (Pipeline.run_tasks _ st) as [st1 [e1|]] eqn:Hrun; [|by apply IH].
  intros [= <- <-]. apply run_tasks_raises in Hrun as (k & t & st0 & _ & Hrun). eauto.
Qed.

(** X29.  The one way a raise leaves [execute]: a work function raised
    something that is not an [Exception].  The call stops there: the task
    that raised is the last one invoked, and it is left RUNNING. *)
Theorem execute_raise_leaves_running (self : Pipeline.Pipeline)
    (initial_context : option Ctx) (env : Env)
    (self' : Pipeline.Pipeline) (env' : Env) (e : PyExc) :
  Pipeline.execute self initial_context env = Some (self', env', Raise e) →
  exc_is_Exception e = false ∧
  ∃ k t,
    dict_get k (Pipeline.tasks self') = Some t ∧
    Task.status t = RUNNING ∧
    last (calls env') = Some (Task.name t) ∧
    ∃ context context', Task.func t context = (context', Raise e).
Proof.
  intros Hexec. unfold Pipeline.execute in Hexec. cbv zeta in Hexec.
  case_decide; [by simplify_eq|].
  destruct (Pipeline.schedule _ _) as [[st [e'|]]|] eqn:Hs; simplify_eq.
  apply schedule_raises in Hs as (k & t & st0 & Hrun).
  pose proof (run_task_cases k t st0) as Hcases. rewrite Hrun in Hcases.
  inversion Hcases as [| |t' context' env' e' Hfun (Hname & _ & Hfunc) Hstatus He];
    subst.
  apply run_task_raises in Hrun as (_ & _ & Hlast & _).
  split; [done|]. exists k, t'. simpl in *. split_and!.
  - apply dict_get_set_eq.
  - done.
  - by rewrite Hname.
  - exists (Pipeline.context (Pipeline.pipeline st0)), context'. by rewrite Hfunc.
Qed.

Lemma execute_raise_leaves_running_witness :
  Pipeline.execute Examples.exiting None Examples.env0 =
    Some (Examples.after_execute Examples.exiting,
          Examples.env_after_execute Examples.exiting,
          Raise {| exc_is_Exception := false; exc_str := "bye" |}) ∧
  ∃ k t,
    dict_get k (Pipeline.tasks (Examples.after_execute Examples.exiting)) = Some t ∧
    Task.status t = RUNNING ∧
    last (calls (Examples.env_after_execute Examples.exiting)) = Some (Task.name t) ∧
    ∃ context context',
      Task.func t context =
        (context', Raise {| exc_is_Exception := false; exc_str := "bye" |}).
Proof.
  assert (Pipeline.execute Examples.exiting None Examples.env0 =
    Some (Examples.after_execute Examples.exiting,
          Examples.env_after_execute Examples.exiting,
          Raise {| exc_is_Exception := false; exc_str := "bye" |})) as Hexec
    by (vm_compute; reflexivity).
  split; [exact Hexec|].
  exact (proj2 (execute_raise_leaves_running _ _ _ _ _ _ Hexec)).
Defined.
